(** * Kodi repository builder: catalog reconciliation and packaging

    A shallow embedding of [build.py] (class [Generator]) and the
    properties of its specification.

    Conventions of the embedding.
    - A [pathlib] path is the list of its parts, the root being the first
      part of an absolute path; [p / s] appends the parts of the string
      [s], or is [s] when [s] is absolute.  Paths are compared as
      [pathlib] writes them: a [..] part is not resolved.
    - An XML element is a tree with a tag, an attribute list, a text and
      children, as [xml.etree.ElementTree] has it.
    - A Python [str] is a byte string (its UTF-8 encoding, whose byte order
      is the code point order Python compares by).
    - Code that raises is embedded in a state and error monad; the state a
      statement reached before it raised is kept, as in Python.
    - The file system is a finite map from paths to contents.  A package
      directory is given by the listing [rglob] makes of it.
    - What the source does not determine is an input of the run: the I/O
      failures of archiving, of publishing and of the two final writes;
      the library's answer to a lookup by an id with an apostrophe; and
      what becomes of a declared asset whose text leaves the package
      directory.
    - [Generator.__init__] is embedded in two parts: [_clean_binaries], over
      the tree below the release directory, and the catalog pass that
      follows it ([_generate_addons_xml] and [_generate_md5]), over the
      package directories and the output files as cleaning left them.
    - The size in the line printed for a new archive, the submodule
      update, the repository zip and the command line are left out. *)

From Stdlib Require Import Ascii String.
From stdpp Require Import base option list strings gmap sorting.

Local Open Scope string_scope.
Local Open Scope list_scope.

Set Warnings "-register-all".

(** ** Constants *)

Definition IGNORE_PATTERNS : list string :=
  [ ".git"; ".github"; ".gitignore"; ".DS_Store"; "thumbs.db"; ".idea";
    "venv"; "__pycache__"; "*.pyc"; "*.pyo" ].

(** ** Exceptions

    Every exception of the embedding is a subclass of Python's
    [Exception]. *)

Inductive Exn : Type :=
| ParseError     (* xml.etree.ElementTree.ParseError *)
| TypeError
| ValueError
| OSError
| SyntaxError
| KeyError.

Global Instance Exn_eq_dec : EqDecision Exn.
Proof. solve_decision. Defined.

(** ** Paths *)

Definition Path : Type := list string.

(** The parts a string contributes to a path: split at the separator,
    empty and [.] segments dropped, as [pathlib] parses a relative
    operand. *)
Fixpoint split_sep (cur : string) (s : string) : list string :=
  match s with
  | EmptyString => [String.rev cur]
  | String c s' =>
      if Ascii.eqb c "/" then String.rev cur :: split_sep EmptyString s'
      else split_sep (String c cur) s'
  end.

Definition keep_part (seg : string) : bool :=
  negb (String.eqb seg "" || String.eqb seg ".").

Definition parts_of (s : string) : Path :=
  List.filter keep_part (split_sep EmptyString s).

(** The anchor of an absolute operand: the root, which is kept doubled
    when the string starts with exactly two separators. *)
Definition anchor_of (s : string) : option string :=
  if String.prefix "/" s then
    if String.prefix "//" s && negb (String.prefix "///" s)
    then Some "//" else Some "/"
  else None.

(** [p / s]: the parts of [s] are appended, unless [s] is absolute, when
    it replaces [p]. *)
Definition pdiv (p : Path) (s : string) : Path :=
  match anchor_of s with
  | Some a => a :: parts_of s
  | None => p ++ parts_of s
  end.

(** [p.parent] *)
Definition parent (p : Path) : Path := removelast p.

(** [p.relative_to(base)]: [ValueError] unless [base] is a prefix. *)
Fixpoint relative_to (p base : Path) {struct base} : Exn + Path :=
  match base, p with
  | [], _ => inr p
  | b :: base', x :: p' =>
      if String.eqb b x then relative_to p' base' else inl ValueError
  | _ :: _, [] => inl ValueError
  end.

(** ** Glob matching

    [fnmatch.fnmatchcase] for patterns built from literal characters,
    [*] and [?]; no configured pattern has a bracket expression. *)
Fixpoint fnmatchcase_aux (pat : string) : string -> bool :=
  match pat with
  | EmptyString => fun name => match name with EmptyString => true | _ => false end
  | String c pat' =>
      if Ascii.eqb c "*" then
        fix star (name : string) : bool :=
          fnmatchcase_aux pat' name
          || match name with
             | EmptyString => false
             | String _ name' => star name'
             end
      else if Ascii.eqb c "?" then
        fun name => match name with
                    | EmptyString => false
                    | String _ name' => fnmatchcase_aux pat' name'
                    end
      else
        fun name => match name with
                    | EmptyString => false
                    | String d name' => Ascii.eqb c d && fnmatchcase_aux pat' name'
                    end
  end.

Definition fnmatchcase (name pat : string) : bool := fnmatchcase_aux pat name.

(** [PurePath.match(pattern)] for a relative pattern: the pattern's parts
    are matched against the path's parts from the right; an empty pattern
    raises [ValueError]. *)
Fixpoint match_parts (rparts rpats : list string) : bool :=
  match rpats, rparts with
  | [], _ => true
  | _ :: _, [] => false
  | pat :: rpats', part :: rparts' =>
      fnmatchcase part pat && match_parts rparts' rpats'
  end.

Definition Path_match (path : Path) (pattern : string) : Exn + bool :=
  match parts_of pattern with
  | [] => inl ValueError
  | pat_parts => inr (match_parts (rev path) (rev pat_parts))
  end.

(** ** Ignore filter *)

(** [any(pattern in path.parts or path.match(pattern) for pattern in
    patterns)] *)
Fixpoint should_ignore_with (patterns : list string) (path : Path) : Exn + bool :=
  match patterns with
  | [] => inr false
  | pattern :: rest =>
      if bool_decide (pattern ∈ path) then inr true
      else match Path_match path pattern with
           | inl e => inl e
           | inr true => inr true
           | inr false => should_ignore_with rest path
           end
  end.

Definition _should_ignore (path : Path) : Exn + bool :=
  should_ignore_with IGNORE_PATTERNS path.

(** ** XML elements *)

Inductive Element : Type :=
  Elem { tag : string;
         attrib : list (string * string);
         text : option string;
         children : list Element }.

(** [elem.get(key)] *)
Fixpoint assoc (key : string) (kvs : list (string * string)) : option string :=
  match kvs with
  | [] => None
  | (k, v) :: kvs' => if String.eqb k key then Some v else assoc key kvs'
  end.

Definition get (elem : Element) (key : string) : option string :=
  assoc key (attrib elem).

(** How an f-string renders an attribute value that may be [None]. *)
Definition fmt (v : option string) : string :=
  match v with
  | Some s => s
  | None => "None"
  end.

(** The predicate of the path [./addon[@id='key']] for a [key] without
    apostrophe: a child with tag [addon] whose [id] attribute is [key]. *)
Definition is_addon_with_id (key : string) (child : Element) : bool :=
  String.eqb (tag child) "addon" && bool_decide (get child "id" = Some key).

(** What the path [./addon[@id='key']] selects when [key] has no
    apostrophe: the first such child, with its position; the position
    stands for the identity of the object that [root.remove] is later
    given. *)
Fixpoint find_from (key : string) (i : nat) (cs : list Element)
  : option (nat * Element) :=
  match cs with
  | [] => None
  | c :: cs' =>
      if is_addon_with_id key c then Some (i, c)
      else find_from key (S i) cs'
  end.

Definition find_addon (root : Element) (addon_id : option string)
  : option (nat * Element) :=
  find_from (fmt addon_id) 0 (children root).

(** The text has no apostrophe. *)
Fixpoint quote_free (s : string) : bool :=
  match s with
  | EmptyString => true
  | String c s' => negb (Ascii.eqb c "'") && quote_free s'
  end.

(** The element a lookup answers with: a child of the catalog root, at
    position [i], or an element that is not among its children (the
    root itself, or a descendant of a child). *)
Inductive Found : Type :=
| Child (i : nat) (e : Element)
| Elsewhere (e : Element).

Definition found_element (f : Found) : Element :=
  match f with
  | Child _ e => e
  | Elsewhere e => e
  end.

(** The library's answer to a path made from an id that has an
    apostrophe.  The id is pasted between apostrophes, so such an id ends
    the quoted text early and the rest of it is read as path syntax: the
    lookup may raise, select no element, or select some element of the
    tree.  That answer is not derived here; it is an input.  A position
    that names no child counts as no element. *)
Definition Quoted : Type := Element -> string -> Exn + option (nat + Element).

(** [root.find(f"./addon[@id='{addon_id}']")] *)
Definition root_find (quoted : Quoted) (root : Element)
    (addon_id : option string) : Exn + option Found :=
  let key := fmt addon_id in
  if quote_free key then
    inr (match find_addon root addon_id with
         | Some (i, e) => Some (Child i e)
         | None => None
         end)
  else
    match quoted root key with
    | inl ex => inl ex
    | inr None => inr None
    | inr (Some (inl i)) =>
        inr (match children root !! i with
             | Some e => Some (Child i e)
             | None => None
             end)
    | inr (Some (inr e)) => inr (Some (Elsewhere e))
    end.

(** [elem.findall(t)] and [elem.find(t)] for a plain tag. *)
Definition findall (elem : Element) (t : string) : list Element :=
  List.filter (λ c, String.eqb (tag c) t) (children elem).

Definition find_tag (elem : Element) (t : string) : option Element :=
  head (findall elem t).

Definition set_children (elem : Element) (cs : list Element) : Element :=
  {| tag := tag elem; attrib := attrib elem; text := text elem; children := cs |}.

(** [root.remove(existing)], [existing] being the child at position [i]. *)
Definition remove_child (i : nat) (root : Element) : Element :=
  set_children root (delete i (children root)).

(** [root.append(child)] *)
Definition append_child (child : Element) (root : Element) : Element :=
  set_children root (children root ++ [child]).

(** ** Sorting the catalog

    [sorted] is stable, so its result is determined by the input and the
    key order; it is embedded as the stable insertion sort. *)

(** [child.get("id") or ""] *)
Definition sort_key (child : Element) : string :=
  match get child "id" with
  | Some s => s
  | None => ""
  end.

Definition key_le (a b : Element) : Prop :=
  String.leb (sort_key a) (sort_key b) = true.

Fixpoint insert_by_key (x : Element) (l : list Element) : list Element :=
  match l with
  | [] => [x]
  | y :: l' =>
      if String.leb (sort_key x) (sort_key y) then x :: y :: l'
      else y :: insert_by_key x l'
  end.

Definition sorted (l : list Element) : list Element :=
  foldr insert_by_key [] l.

(** ** Files *)

Inductive FileData : Type :=
| XmlDoc (root : Element)                          (* a well-formed XML document *)
| ZipArchive (members : list (Path * FileData))    (* archive names and contents *)
| Text (s : string).                               (* any other content *)

Inductive Node : Type :=
| File (data : FileData)
| Dir.

(** I/O failures are an input of the run: which call of a package's
    archiving or publishing raises [OSError], if any. *)
Inductive ZipFault : Type :=
| FailMkdir                (* zip_dir.mkdir *)
| FailOpen                 (* zipfile.ZipFile(zip_file, "w") *)
| FailWrite (n : nat).     (* zf.write of the n-th listed path *)

Global Instance ZipFault_eq_dec : EqDecision ZipFault.
Proof. solve_decision. Defined.

Record Faults : Type :=
  { zip_fault : option ZipFault;
    copy_fault : option nat  (* copying the n-th asset of the list *) }.

Definition no_faults : Faults := {| zip_fault := None; copy_fault := None |}.

(** What becomes of a declared asset whose text leaves the package
    directory (an absolute path, or one with a [..] part).  Its source is
    a file the listing of the package does not show, and its destination
    need not lie below the package's output directory; both are an input
    of the run. *)
Inductive Outside : Type :=
| NotThere                                   (* [src.exists()] is false *)
| CopyRaises (e : Exn)
| CopiedTo (dest : Path) (data : FileData).

(** An entry of [release_path.iterdir()]: its name, whether it is a
    directory, and for a directory the listing [rglob("*")] gives of it,
    paths relative to the directory; [outside n] is what becomes of the
    [n]-th declared asset when its text leaves the directory. *)
Record ReleaseEntry : Type :=
  { entry_name : string;
    is_dir : bool;
    tree : list (Path * Node);
    faults : Faults;
    outside : nat -> Outside }.

Fixpoint tree_lookup (t : list (Path * Node)) (rel : Path) : option Node :=
  match t with
  | [] => None
  | (p, n) :: t' => if bool_decide (p = rel) then Some n else tree_lookup t' rel
  end.

(** The text names a path inside the directory it is joined to: it is
    relative and has no [..] part. *)
Definition inside (s : string) : bool :=
  negb (String.prefix "/" s) && negb (bool_decide (".." ∈ parts_of s)).

(** The node at [addon_path / s] for an [s] inside the package directory;
    the empty relative path is the package directory itself. *)
Definition node_at (d : ReleaseEntry) (s : string) : option Node :=
  match parts_of s with
  | [] => Some Dir
  | rel => tree_lookup (tree d) rel
  end.

(** ** The generator and the state of a run *)

(** Which of the two writes that end a run raises [OSError], if any. *)
Inductive PersistFault : Type :=
| FailWriteCatalog      (* tree.write(addons_xml_path) *)
| FailWriteChecksum.    (* md5_path.write_text(md5_hash) *)

Global Instance PersistFault_eq_dec : EqDecision PersistFault.
Proof. solve_decision. Defined.

(** The generator, with the two inputs of a run that are not read from
    the release directory: which of its final writes fails, and what the
    library answers to a lookup by an id with an apostrophe. *)
Record Generator : Type :=
  { release_path : Path;
    force : bool;
    persist_fault : option PersistFault;
    quoted_find : Quoted }.

Definition zips_path (self : Generator) : Path := pdiv (release_path self) "zips".

Inductive Decision : Type := Skip | Insert | Replace.

Global Instance Decision_eq_dec : EqDecision Decision.
Proof. solve_decision. Defined.

Inductive Msg : Type :=
| SkippingExisting (addon_id version : string)
| CreatedZip (addon_id version : string)
| ErrorProcessing (dir_name : string) (e : Exn)
| Updated (p : Path)
| NoChanges (p : Path).

(** [root], [changed] and [found_ids] are the locals of
    [_generate_addons_xml]; [fs] is the file system below the release
    directory's output; [stdout] the printed lines.  [opened] and [trace]
    are ghost: the files opened for writing, and the branch taken for
    each package that reached the decision. *)
Record State : Type :=
  { root : Element;
    changed : bool;
    found_ids : gset (option string);
    fs : gmap Path FileData;
    stdout : list Msg;
    opened : list Path;
    trace : list (string * Decision) }.

Definition with_root (f : Element -> Element) (s : State) : State :=
  {| root := f (root s); changed := changed s; found_ids := found_ids s;
     fs := fs s; stdout := stdout s; opened := opened s; trace := trace s |}.

Definition with_changed (b : bool) (s : State) : State :=
  {| root := root s; changed := b; found_ids := found_ids s;
     fs := fs s; stdout := stdout s; opened := opened s; trace := trace s |}.

Definition with_found_ids (f : gset (option string) -> gset (option string))
    (s : State) : State :=
  {| root := root s; changed := changed s; found_ids := f (found_ids s);
     fs := fs s; stdout := stdout s; opened := opened s; trace := trace s |}.

(** Opening [p] for writing and leaving it with content [data]. *)
Definition write_file (p : Path) (data : FileData) (s : State) : State :=
  {| root := root s; changed := changed s; found_ids := found_ids s;
     fs := <[p := data]> (fs s); stdout := stdout s;
     opened := opened s ++ [p]; trace := trace s |}.

(** Replacing the content of a file that is already open. *)
Definition update_file (p : Path) (data : FileData) (s : State) : State :=
  {| root := root s; changed := changed s; found_ids := found_ids s;
     fs := <[p := data]> (fs s); stdout := stdout s;
     opened := opened s; trace := trace s |}.

Definition with_stdout (m : Msg) (s : State) : State :=
  {| root := root s; changed := changed s; found_ids := found_ids s;
     fs := fs s; stdout := stdout s ++ [m]; opened := opened s; trace := trace s |}.

Definition with_trace (n : string) (d : Decision) (s : State) : State :=
  {| root := root s; changed := changed s; found_ids := found_ids s;
     fs := fs s; stdout := stdout s; opened := opened s;
     trace := trace s ++ [(n, d)] |}.

(** ** The state and error monad *)

Definition M (A : Type) : Type := State -> (Exn + A) * State.

Global Instance M_ret : MRet M := λ A a s, (inr a, s).

Global Instance M_bind : MBind M := λ A B f m s,
  match m s with
  | (inl e, s') => (inl e, s')
  | (inr a, s') => f a s'
  end.

Global Arguments M_ret {_} _ _ : simpl never.
Global Arguments M_bind {_ _} _ _ _ : simpl never.

Definition raise {A : Type} (e : Exn) : M A := λ s, (inl e, s).
Definition gets {A : Type} (f : State -> A) : M A := λ s, (inr (f s), s).
Definition modify (f : State -> State) : M unit := λ s, (inr tt, f s).
Definition print (m : Msg) : M unit := modify (with_stdout m).
Definition note (n : string) (d : Decision) : M unit := modify (with_trace n d).

Definition lift {A : Type} (r : Exn + A) : M A :=
  match r with
  | inl e => raise e
  | inr a => mret a
  end.

(** [try: body except Exception as e: handler(e)] *)
Definition try_except {A : Type} (body : M A) (handler : Exn -> M A) : M A :=
  λ s, match body s with
       | (inl e, s') => handler e s'
       | (inr a, s') => (inr a, s')
       end.

(** [for x in l: f(x)] *)
Fixpoint for_each {A : Type} (f : A -> M unit) (l : list A) : M unit :=
  match l with
  | [] => mret tt
  | x :: l' => f x;; for_each f l'
  end.

(** [path / s] for an [s] that may be [None]: [TypeError]. *)
Definition pdiv_opt (p : Path) (s : option string) : M Path :=
  match s with
  | Some s => mret (pdiv p s)
  | None => raise TypeError
  end.

(** ** Archiver *)

Definition zip_name (addon_id version : option string) : string :=
  fmt addon_id ++ "-" ++ fmt version ++ ".zip".

(** [zf.write(file_path, archive_name)] as the [i]-th step of the walk;
    [written] are the members the archive has so far. *)
Definition zf_write (flt : Faults) (zip_file : Path) (i : nat)
    (written : list (Path * FileData)) (archive_name : Path) (data : FileData)
  : M (list (Path * FileData)) :=
  if bool_decide (zip_fault flt = Some (FailWrite i)) then raise OSError
  else
    let written' := written ++ [(archive_name, data)] in
    modify (update_file zip_file (ZipArchive written'));;
    mret written'.

(** The body of [with zipfile.ZipFile(...) as zf: for file_path in
    addon_path.rglob("*"): ...], from the [i]-th listed path on. *)
Fixpoint zip_walk (flt : Faults) (addon_path zip_file : Path) (i : nat)
    (listing : list (Path * Node)) (written : list (Path * FileData)) : M unit :=
  match listing with
  | [] => mret tt
  | (rel, node) :: rest =>
      let file_path := addon_path ++ rel in
      match node with
      | File data =>
          ignored ← lift (_should_ignore file_path);
          if negb ignored then
            archive_name ← lift (relative_to file_path (parent addon_path));
            written' ← zf_write flt zip_file i written archive_name data;
            zip_walk flt addon_path zip_file (S i) rest written'
          else zip_walk flt addon_path zip_file (S i) rest written
      | Dir => zip_walk flt addon_path zip_file (S i) rest written
      end
  end.

Definition _create_zip (self : Generator) (d : ReleaseEntry)
    (addon_path : Path) (addon_id version : option string) : M unit :=
  zip_dir ← pdiv_opt (zips_path self) addon_id;
  (if bool_decide (zip_fault (faults d) = Some FailMkdir)
   then raise OSError else mret tt);;
  let zip_file := pdiv zip_dir (zip_name addon_id version) in
  file_exists ← gets (λ s, bool_decide (is_Some (fs s !! zip_file)));
  if file_exists && negb (force self) then
    print (SkippingExisting (fmt addon_id) (fmt version))
  else
    (if bool_decide (zip_fault (faults d) = Some FailOpen)
     then raise OSError else modify (write_file zip_file (ZipArchive [])));;
    zip_walk (faults d) addon_path zip_file 0 (tree d) [];;
    print (CreatedZip (fmt addon_id) (fmt version)).

(** ** Asset publisher *)

Definition metadata_points : list string :=
  ["xbmc.addon.metadata"; "kodi.addon.metadata"].

(** [asset.text for asset in assets_node if asset.text] *)
Definition asset_texts (assets_node : Element) : list string :=
  omap (λ asset, match text asset with
                 | Some t => if String.eqb t "" then None else Some t
                 | None => None
                 end) (children assets_node).

Definition extension_assets (ext : Element) : list string :=
  match get ext "point" with
  | Some point =>
      if bool_decide (point ∈ metadata_points) then
        match find_tag ext "assets" with
        | Some assets_node => asset_texts assets_node
        | None => []
        end
      else []
  | None => []
  end.

Definition declared_assets (addon_xml_root : Element) : list string :=
  "addon.xml" :: flat_map extension_assets (findall addon_xml_root "extension").

(** The body of the copy loop for the [i]-th asset. *)
Definition copy_asset (d : ReleaseEntry) (dest_dir : Path) (i : nat)
    (asset : string) : M unit :=
  if inside asset then
    match node_at d asset with
    | Some src =>
        let dest := pdiv dest_dir asset in
        match src with
        | File data =>
            if bool_decide (copy_fault (faults d) = Some i) then raise OSError
            else modify (write_file dest data)
        | Dir => raise OSError     (* IsADirectoryError *)
        end
    | None => mret tt
    end
  else
    match outside d i with
    | NotThere => mret tt
    | CopyRaises e => raise e
    | CopiedTo dest data => modify (write_file dest data)
    end.

(** The copy loop from the [i]-th asset on. *)
Fixpoint copy_walk (d : ReleaseEntry) (dest_dir : Path) (i : nat)
    (assets : list string) : M unit :=
  match assets with
  | [] => mret tt
  | asset :: rest =>
      copy_asset d dest_dir i asset;;
      copy_walk d dest_dir (S i) rest
  end.

Definition _copy_assets (self : Generator) (d : ReleaseEntry)
    (addon_xml_root : Element) : M unit :=
  let addon_id := get addon_xml_root "id" in
  let assets := declared_assets addon_xml_root in
  dest_dir ← pdiv_opt (zips_path self) addon_id;
  copy_walk d dest_dir 0 assets.

(** ** Reconciler *)

(** [ET.parse(xml_file).getroot()] *)
Definition ET_parse (n : option Node) : Exn + Element :=
  match n with
  | Some (File (XmlDoc r)) => inr r
  | Some (File _) => inl ParseError
  | Some Dir => inl OSError
  | None => inl OSError
  end.

(** The body of the [try] statement for the package directory [d]. *)
Definition process_body (self : Generator) (d : ReleaseEntry) : M unit :=
  let addon_dir := release_path self ++ [entry_name d] in
  addon_root ← lift (ET_parse (node_at d "addon.xml"));
  let addon_id := get addon_root "id" in
  let version := get addon_root "version" in
  modify (with_found_ids (λ ids, {[addon_id]} ∪ ids));;
  catalog ← gets root;
  existing ← lift (root_find (quoted_find self) catalog addon_id);
  if match existing with
     | Some f =>
         bool_decide (get (found_element f) "version" = version)
         && negb (force self)
     | None => false
     end
  then note (entry_name d) Skip     (* continue *)
  else
    match existing with
    | Some (Child i _) =>
        note (entry_name d) Replace;; modify (with_root (remove_child i))
    | Some (Elsewhere _) =>
        note (entry_name d) Replace;; raise ValueError   (* root.remove *)
    | None => note (entry_name d) Insert
    end;;
    modify (with_root (append_child addon_root));;
    _create_zip self d addon_dir addon_id version;;
    _copy_assets self d addon_root;;
    modify (with_changed true).

(** One iteration of the loop over the package directories. *)
Definition process_package (self : Generator) (d : ReleaseEntry) : M unit :=
  if bool_decide (is_Some (node_at d "addon.xml")) then
    try_except (process_body self d)
               (λ e, print (ErrorProcessing (entry_name d) e))
  else mret tt.

(** [d.is_dir() and d.name != "zips" and not d.name.startswith(".")] *)
Definition is_candidate (d : ReleaseEntry) : bool :=
  is_dir d && negb (String.eqb (entry_name d) "zips")
  && negb (String.prefix "." (entry_name d)).

Definition addons_xml_path (self : Generator) : Path :=
  pdiv (zips_path self) "addons.xml".

Definition md5_path (self : Generator) : Path :=
  pdiv (zips_path self) "addons.xml.md5".

(** Loading the catalog, or creating a new one. *)
Definition load_catalog (self : Generator) : M Element :=
  existing ← gets (λ s, fs s !! addons_xml_path self);
  match existing with
  | Some (XmlDoc r) => mret r
  | Some _ => raise ParseError
  | None => mret (Elem "addons" [] None [])
  end.

Definition _generate_addons_xml (self : Generator) (listing : list ReleaseEntry)
  : M bool :=
  r ← load_catalog self;
  modify (with_root (λ _, r));;
  modify (with_changed false);;
  modify (with_found_ids (λ _, ∅));;
  for_each (process_package self) (List.filter is_candidate listing);;
  ch ← gets changed;
  if (ch : bool) then
    modify (with_root (λ r, set_children r (sorted (children r))));;
    r' ← gets root;
    (if bool_decide (persist_fault self = Some FailWriteCatalog)
     then raise OSError
     else modify (write_file (addons_xml_path self) (XmlDoc r')));;
    print (Updated (addons_xml_path self));;
    mret true
  else
    print (NoChanges (release_path self));;
    mret false.

Section Run.

(** [hashlib.md5(bytes).hexdigest()] of a file's serialized content. *)
Variable md5_hexdigest : FileData -> string.

Definition _generate_md5 (self : Generator) : M unit :=
  content ← gets (λ s, fs s !! addons_xml_path self);
  match content with
  | Some data =>
      (if bool_decide (persist_fault self = Some FailWriteChecksum)
       then raise OSError
       else modify (write_file (md5_path self) (Text (md5_hexdigest data))));;
      print (Updated (md5_path self))
  | None => raise OSError
  end.

(** The catalog pass of [Generator.__init__] (lines 48-49), which follows
    the making of the output directory and [_clean_binaries]: [listing]
    and the files of the state are what these left. *)
Definition Generator_init (self : Generator) (listing : list ReleaseEntry)
  : M unit :=
  updated ← _generate_addons_xml self listing;
  if (updated : bool) then _generate_md5 self else mret tt.

End Run.

(** The state a run starts from, given the files on disk. *)
Definition initial (files : gmap Path FileData) : State :=
  {| root := Elem "addons" [] None []; changed := false; found_ids := ∅;
     fs := files; stdout := []; opened := []; trace := [] |}.

(** ** Derived notions used to state the properties *)

(** The boolean the filter returns (it never raises, see
    [should_ignore_total]). *)
Definition ignored (path : Path) : bool :=
  match _should_ignore path with
  | inr b => b
  | inl _ => false
  end.

(** [zips/<id>/<id>-<version>.zip] *)
Definition archive_path (self : Generator) (addon_id : string)
    (version : option string) : Path :=
  pdiv (pdiv (zips_path self) addon_id) (zip_name (Some addon_id) version).

(** The members the walk over a package directory writes when no write
    fails: the listed files the filter keeps, each under the directory's
    name followed by its path inside the directory. *)
Definition archive_member (self : Generator) (d : ReleaseEntry)
    (item : Path * Node) : option (Path * FileData) :=
  match item.2 with
  | File data =>
      if ignored (release_path self ++ entry_name d :: item.1) then None
      else Some (entry_name d :: item.1, data)
  | Dir => None
  end.

Definition archive_members (self : Generator) (d : ReleaseEntry)
  : list (Path * FileData) :=
  omap (archive_member self d) (tree d).

(** The final state of a computation, and relations between the state
    before and after it. *)
Definition final {A : Type} (m : M A) (s : State) : State := (m s).2.

Definition preserves {A : Type} (R : relation State) (m : M A) : Prop :=
  ∀ s, R s (final m s).

(** The locals of [_generate_addons_xml] and the ghost trace are kept. *)
Definition same_locals (s s' : State) : Prop :=
  root s' = root s ∧ changed s' = changed s
  ∧ found_ids s' = found_ids s ∧ trace s' = trace s.

(** Output only accumulates: lines printed, files opened, files present. *)
Definition grows (s s' : State) : Prop :=
  stdout s `prefix_of` stdout s'
  ∧ opened s `prefix_of` opened s'
  ∧ ∀ p, is_Some (fs s !! p) -> is_Some (fs s' !! p).

(** What a walk started with the members [written] leaves behind, [ms]
    being the members it added. *)
Definition walk_outcome (self : Generator) (d : ReleaseEntry) (zip_file : Path)
    (listing : list (Path * Node)) (written : list (Path * FileData))
    (base : gmap Path FileData) (s : State) (rs : (Exn + unit) * State)
    (ms : list (Path * FileData)) : Prop :=
  same_locals s rs.2 ∧ stdout rs.2 = stdout s ∧ opened rs.2 = opened s
  ∧ fs rs.2 = <[zip_file := ZipArchive (written ++ ms)]> base
  ∧ ms `prefix_of` omap (archive_member self d) listing
  ∧ (rs.1 = inr tt -> ms = omap (archive_member self d) listing)
  ∧ ((∀ n, zip_fault (faults d) ≠ Some (FailWrite n)) -> rs.1 = inr tt).

(** The decision the branches of lines 141-151 amount to when the id
    has no apostrophe, so that the lookup is [find_addon].  The body of
    the loop, [process_body] below, does not go through this function;
    the two are related in the properties. *)
Definition reconcile (catalog : Element) (addon_id version : option string)
    (force : bool) : Decision :=
  match find_addon catalog addon_id with
  | Some (_, existing) =>
      if bool_decide (get existing "version" = version) && negb force
      then Skip else Replace
  | None => Insert
  end.

(** The two halves of [process_body] for a manifest [m] that parsed and
    whose id has no apostrophe: the state once the decision is taken and
    the catalog updated in memory (lines 136-154), and the steps that
    follow an [Insert] or a [Replace] (lines 155-157). *)
Definition decided (self : Generator) (d : ReleaseEntry) (m : Element)
    (s : State) : State :=
  let s0 := with_found_ids (λ ids, {[get m "id"]} ∪ ids) s in
  match find_addon (root s) (get m "id") with
  | Some (i, e) =>
      if bool_decide (get e "version" = get m "version") && negb (force self)
      then with_trace (entry_name d) Skip s0
      else with_root (append_child m)
             (with_root (remove_child i) (with_trace (entry_name d) Replace s0))
  | None => with_root (append_child m) (with_trace (entry_name d) Insert s0)
  end.

Definition after_decision (self : Generator) (d : ReleaseEntry) (m : Element)
  : M unit :=
  _create_zip self d (release_path self ++ [entry_name d])
    (get m "id") (get m "version");;
  _copy_assets self d m;;
  modify (with_changed true).

(** The manifest of a package directory, when it parses. *)
Definition manifest (d : ReleaseEntry) : Exn + Element :=
  ET_parse (node_at d "addon.xml").

(** Every member of an archive has [top] as the first part of its name. *)
Definition rooted_at (top : string) (ms : list (Path * FileData)) : Prop :=
  ∀ n data, (n, data) ∈ ms -> head n = Some top.

(** The ids of the catalog's entries: the [id] attributes of the [addon]
    children. *)
Definition entry_id (child : Element) : option string :=
  if String.eqb (tag child) "addon" then get child "id" else None.

Definition entry_ids (cs : list Element) : list string := omap entry_id cs.

(** The entry of the catalog for an id: the first [addon] child carrying
    it, in document order. *)
Definition is_entry_for (i : string) (e : Element) : Prop :=
  tag e = "addon" ∧ get e "id" = Some i.

Definition entry_for (catalog : Element) (i : string) (e : Element) : Prop :=
  ∃ pre post,
    children catalog = pre ++ e :: post
    ∧ is_entry_for i e
    ∧ ∀ x, x ∈ pre -> ¬ is_entry_for i x.

(** The children of the catalog document on disk at the start of a run;
    none when there is no catalog file. *)
Definition loaded_entries (self : Generator) (files : gmap Path FileData)
  : list Element :=
  match files !! addons_xml_path self with
  | Some (XmlDoc r) => children r
  | _ => []
  end.

Definition is_error (m : Msg) : bool :=
  match m with
  | ErrorProcessing _ _ => true
  | _ => false
  end.

(** Relations between the states before and after part of a run, for the
    invariants of the loop. *)

(** If every decision taken in between was [Skip], nothing was written and
    the dirty flag kept its value. *)
Definition skips_write_nothing (s s' : State) : Prop :=
  ∃ t, trace s' = trace s ++ t
       ∧ (Forall (λ x, x.2 = Skip) t ->
          fs s' = fs s ∧ opened s' = opened s ∧ changed s' = changed s).

(** The catalog is dirty, or only [Skip] was decided, or an error was
    reported. *)
Definition dirty_or_excused (s : State) : Prop :=
  changed s = true
  ∨ Forall (λ x, x.2 = Skip) (trace s)
  ∨ Exists (λ msg, is_error msg = true) (stdout s).

Definition keeps (P : State -> Prop) (s s' : State) : Prop := P s -> P s'.

Definition unique_ids (s : State) : Prop :=
  NoDup (entry_ids (children (root s))).

(** The state [_generate_addons_xml] enters its loop in, with the catalog
    [r] loaded, and the state it leaves the loop in. *)
Definition loop_start (r : Element) (s : State) : State :=
  with_found_ids (λ _, ∅) (with_changed false (with_root (λ _, r) s)).

Definition loop_end (self : Generator) (listing : list ReleaseEntry)
    (r : Element) (s : State) : State :=
  final (for_each (process_package self) (List.filter is_candidate listing))
    (loop_start r s).

(** Lines 162-170: sorting and persisting the catalog when it is dirty. *)
Definition persist (self : Generator) (s : State) : (Exn + bool) * State :=
  if changed s then
    let r' := set_children (root s) (sorted (children (root s))) in
    if bool_decide (persist_fault self = Some FailWriteCatalog)
    then (inl OSError, with_root (λ _, r') s)
    else
      (inr true,
       with_stdout (Updated (addons_xml_path self))
         (write_file (addons_xml_path self) (XmlDoc r') (with_root (λ _, r') s)))
  else (inr false, with_stdout (NoChanges (release_path self)) s).

(** ** Sample inputs *)

Definition addon_xml (i v : string) : Element :=
  Elem "addon" [("id", i); ("version", v)] None [].

(** A generator whose final writes do not fail; the library is taken to
    answer every id with an apostrophe by a [SyntaxError]. *)
Definition sample_generator_at (p : Path) (frc : bool) : Generator :=
  {| release_path := p; force := frc; persist_fault := None;
     quoted_find := λ _ _, inl SyntaxError |}.

Definition sample_generator (frc : bool) : Generator :=
  sample_generator_at ["omega"] frc.

Definition sample_package (n : string) (m : FileData) (flt : Faults)
  : ReleaseEntry :=
  {| entry_name := n; is_dir := true;
     tree := [ (["addon.xml"], File m);
               (["lib"], Dir);
               (["lib"; "main.py"], File (Text "import xbmc"));
               ([".git"], Dir);
               ([".git"; "config"], File (Text "[core]")) ];
     faults := flt;
     outside := λ _, NotThere |}.

(** A manifest that declares the directory [lib] as an asset; copying a
    directory raises. *)
Definition addon_xml_with_asset (i v asset : string) : Element :=
  Elem "addon" [("id", i); ("version", v)] None
    [ Elem "extension" [("point", "xbmc.addon.metadata")] None
        [ Elem "assets" [] None [ Elem "icon" [] (Some asset) [] ] ] ].

(** ** Cleaning compiled files

    [_clean_binaries] walks the release directory; the tree below it is a
    finite map from paths to nodes, and [walk] is the sequence of paths
    [rglob] yields.  A path that an earlier removal took away is no longer
    a directory or a file when its turn comes.  Failures of the removals
    themselves are left out. *)

(** [p.name] *)
Definition path_name (p : Path) : string := default "" (last p).

(** The part of a name from its last dot on, when it has a dot. *)
Fixpoint from_last_dot (s : string) : option string :=
  match s with
  | EmptyString => None
  | String c s' =>
      match from_last_dot s' with
      | Some suf => Some suf
      | None => if Ascii.eqb c "." then Some (String c s') else None
      end
  end.

(** [p.suffix]: with [i = name.rfind('.')], the text [name[i:]] when
    [0 < i < len(name) - 1], and the empty text otherwise. *)
Definition path_suffix (p : Path) : string :=
  let name := path_name p in
  match from_last_dot name with
  | Some suf =>
      if Nat.ltb (String.length suf) (String.length name)
         && Nat.ltb 1 (String.length suf)
      then suf else ""
  | None => ""
  end.

Inductive CleanMsg : Type :=
| RemovedCache (p : Path)
| RemovedBinary (p : Path).

Definition is_dir_in (t : gmap Path Node) (p : Path) : bool :=
  match t !! p with
  | Some Dir => true
  | _ => false
  end.

Definition is_file_in (t : gmap Path Node) (p : Path) : bool :=
  match t !! p with
  | Some (File _) => true
  | _ => false
  end.

(** [shutil.rmtree(p)] *)
Definition rmtree (p : Path) (t : gmap Path Node) : gmap Path Node :=
  filter (λ kv, ¬ p `prefix_of` kv.1) t.

(** [suffix in {".pyc", ".pyo"}] *)
Definition compiled_suffix (suf : string) : bool :=
  String.eqb suf ".pyc" || String.eqb suf ".pyo".

(** The body of the loop of [_clean_binaries]. *)
Definition clean_step (st : gmap Path Node * list CleanMsg) (p : Path)
  : gmap Path Node * list CleanMsg :=
  if String.eqb (path_name p) "__pycache__" && is_dir_in st.1 p
  then (rmtree p st.1, st.2 ++ [RemovedCache p])
  else if compiled_suffix (path_suffix p) && is_file_in st.1 p
  then (delete p st.1, st.2 ++ [RemovedBinary p])
  else st.

Definition _clean_binaries (walk : list Path) (t : gmap Path Node)
  : gmap Path Node * list CleanMsg :=
  foldl clean_step (t, []) walk.

(** ** Further notions, for the properties beyond the specification *)

Global Instance is_entry_for_dec (i : string) (e : Element)
  : base.Decision (is_entry_for i e).
Proof. unfold is_entry_for. apply _. Defined.

(** The children of equal sort key, in their order. *)
Definition with_key (k : string) (cs : list Element) : list Element :=
  filter (λ c, sort_key c = k) cs.


(** Whether the manifest of a listed entry parses. *)
Definition parses (d : ReleaseEntry) : bool :=
  match manifest d with
  | inr _ => true
  | inl _ => false
  end.

(** A glob pattern without wildcard. *)
Fixpoint literal (pat : string) : bool :=
  match pat with
  | EmptyString => true
  | String c pat' =>
      negb (Ascii.eqb c "*") && negb (Ascii.eqb c "?") && literal pat'
  end.

(** [name] ends with [ending]. *)
Definition ends_with (ending name : string) : Prop :=
  ∃ stem : string, name = (stem ++ ending)%string.

(** The path lies in, or is, a directory named [__pycache__]. *)
Definition in_cache_dir (t : gmap Path Node) (k : Path) : Prop :=
  ∃ q, q `prefix_of` k ∧ path_name q = "__pycache__" ∧ t !! q = Some Dir.

(** The path is a regular file with the suffix of a compiled file. *)
Definition compiled_file (t : gmap Path Node) (k : Path) : Prop :=
  compiled_suffix (path_suffix k) = true ∧ is_file_in t k = true.

(** Looking at [q] in the tree [t] removes [k]. *)
Definition removes (t : gmap Path Node) (q k : Path) : Prop :=
  (path_name q = "__pycache__" ∧ t !! q = Some Dir ∧ q `prefix_of` k)
  ∨ (q = k ∧ compiled_file t k).

(** The catalog with children [cs] has an entry with the id and the
    version of the manifest of [d], if that parses. *)
Definition settled_in (cs : list Element) (d : ReleaseEntry) : Prop :=
  ∀ m, manifest d = inr m ->
       ∃ e, e ∈ cs ∧ is_entry_for (fmt (get m "id")) e
            ∧ get e "version" = get m "version".

(** The id under which the manifest of [d] is looked up. *)
Definition manifest_key (d : ReleaseEntry) : option string :=
  match manifest d with
  | inr m => Some (fmt (get m "id"))
  | inl _ => None
  end.

(** The manifests of the packages are [addon] elements with an id, and no
    two packages carry the same id. *)
Definition distinct_addons (ds : list ReleaseEntry) : Prop :=
  (∀ d m, d ∈ ds -> manifest d = inr m -> tag m = "addon" ∧ is_Some (get m "id"))
  ∧ NoDup (omap manifest_key ds).

(** If every decision taken in between was [Skip], the catalog in memory
    is as it was. *)
Definition skips_keep_root (s s' : State) : Prop :=
  ∃ t, trace s' = trace s ++ t
       ∧ (Forall (λ x, x.2 = Skip) t -> root s' = root s).

(** The id under which the manifest of [d], if it parses, is looked up
    has no apostrophe, so that the lookup path is the one the template
    means. *)
Definition manifest_quote_free (d : ReleaseEntry) : bool :=
  match manifest d with
  | inr m => quote_free (fmt (get m "id"))
  | inl _ => true
  end.

(** The catalog has the manifest's version under the manifest's id, and
    force is unset: the condition of line 143, for an id without
    apostrophe. *)
Definition up_to_date (self : Generator) (catalog m : Element) : Prop :=
  ∃ e, entry_for catalog (fmt (get m "id")) e
       ∧ get e "version" = get m "version" ∧ force self = false.

(** The ids the packages are looked up under have no apostrophe. *)
Definition quote_free_ids (ds : list ReleaseEntry) : Prop :=
  Forall (λ d, manifest_quote_free d = true) ds.

(** What one iteration of the loop guarantees, whatever the lookup
    answers: output only accumulates; it notes the decisions [t]; if all
    of them are [Skip], the catalog in memory, the files and the dirty
    flag are as before; and it sets the dirty flag, or only skips, or
    reports an error. *)
Definition iteration (s s' : State) : Prop :=
  grows s s'
  ∧ ∃ t, trace s' = trace s ++ t
         ∧ (Forall (λ x, x.2 = Skip) t ->
            root s' = root s ∧ fs s' = fs s ∧ opened s' = opened s
            ∧ changed s' = changed s)
         ∧ (changed s' = true
            ∨ (changed s' = changed s ∧ Forall (λ x, x.2 = Skip) t)
            ∨ Exists (λ msg, is_error msg = true) (stdout s')).

(** * Properties *)

(** ** The order on keys and the sort *)

Lemma ascii_compare_lt_trans a b c :
  Ascii.compare a b = Lt -> Ascii.compare b c = Lt -> Ascii.compare a c = Lt.
Proof.
  unfold Ascii.compare. rewrite !N.compare_lt_iff. lia.
Qed.

Lemma string_compare_lt_trans s1 : forall s2 s3,
  String.compare s1 s2 = Lt -> String.compare s2 s3 = Lt -> String.compare s1 s3 = Lt.
Proof.
  induction s1 as [|a s1 IH]; intros [|b s2] [|c s3]; simpl; try done.
  destruct (Ascii.compare a b) eqn:Hab; try done;
    destruct (Ascii.compare b c) eqn:Hbc; try done; intros H1 H2.
  - apply Ascii.compare_eq_iff in Hab, Hbc. subst.
    assert (Ascii.compare c c = Eq) as ->.
    { unfold Ascii.compare. apply N.compare_refl. }
    eauto.
  - apply Ascii.compare_eq_iff in Hab. subst. by rewrite Hbc.
  - apply Ascii.compare_eq_iff in Hbc. subst. by rewrite Hab.
  - by rewrite (ascii_compare_lt_trans _ _ _ Hab Hbc).
Qed.

Lemma string_compare_refl s : String.compare s s = Eq.
Proof.
  induction s as [|a s IH]; simpl; [done|].
  assert (Ascii.compare a a = Eq) as ->; [|done].
  unfold Ascii.compare. apply N.compare_refl.
Qed.

Lemma string_leb_iff s1 s2 :
  String.leb s1 s2 = true <-> String.compare s1 s2 = Lt \/ s1 = s2.
Proof.
  unfold String.leb. split.
  - destruct (String.compare s1 s2) eqn:H; try done; intros _.
    + right. by apply String.compare_eq_iff.
    + by left.
  - intros [-> | ->]; [done|]. by rewrite string_compare_refl.
Qed.

Lemma string_leb_trans s1 s2 s3 :
  String.leb s1 s2 = true -> String.leb s2 s3 = true -> String.leb s1 s3 = true.
Proof.
  rewrite !string_leb_iff. intros [H1 | ->] [H2 | ->]; eauto.
  left. eapply string_compare_lt_trans; eauto.
Qed.

Global Instance key_le_trans : Transitive key_le.
Proof. intros a b c. unfold key_le. apply string_leb_trans. Qed.

Global Instance key_le_total : Total key_le.
Proof. intros a b. unfold key_le. apply String.leb_total. Qed.

Lemma insert_by_key_Permutation x l : insert_by_key x l ≡ₚ x :: l.
Proof.
  induction l as [|y l IH]; simpl; [done|].
  case_match; [done|]. rewrite IH. apply Permutation_swap.
Qed.

Lemma sorted_Permutation l : sorted l ≡ₚ l.
Proof.
  induction l as [|x l IH]; simpl; [done|].
  by rewrite insert_by_key_Permutation, IH.
Qed.

Lemma insert_by_key_StronglySorted x l :
  StronglySorted key_le l -> StronglySorted key_le (insert_by_key x l).
Proof.
  induction 1 as [|y l Hl IH Hy]; simpl.
  - repeat constructor.
  - destruct (String.leb (sort_key x) (sort_key y)) eqn:Hxy.
    + constructor; [by constructor|].
      constructor; [done|].
      eapply Forall_impl; [exact Hy|]. intros z Hz. by etrans.
    + constructor; [done|].
      rewrite insert_by_key_Permutation. constructor; [|done].
      destruct (key_le_total x y) as [H|H]; [|done].
      unfold key_le in H. congruence.
Qed.

Lemma sorted_StronglySorted l : StronglySorted key_le (sorted l).
Proof.
  induction l as [|x l IH]; simpl; [constructor|].
  by apply insert_by_key_StronglySorted.
Qed.

(** ** Paths *)

Lemma relative_to_app (base p : Path) : relative_to (base ++ p) base = inr p.
Proof.
  induction base as [|b base IH]; simpl; [done|].
  by rewrite String.eqb_refl.
Qed.

Lemma parent_snoc (p : Path) (n : string) : parent (p ++ [n]) = p.
Proof. unfold parent. apply removelast_last. Qed.

(** ** Ignore filter *)

Lemma should_ignore_with_spec (patterns : list string) (path : Path) :
  Forall (λ pattern, parts_of pattern ≠ []) patterns ->
  ∃ b : bool,
    should_ignore_with patterns path = inr b
    ∧ (b = true <->
       ∃ pattern, pattern ∈ patterns
                  ∧ (pattern ∈ path ∨ Path_match path pattern = inr true)).
Proof.
  induction 1 as [|pattern patterns Hne _ IH]; simpl.
  - exists false. split; [done|]. split; [done|].
    intros (pattern & Hin & _). by apply elem_of_nil in Hin.
  - case_bool_decide as Hseg.
    { exists true. split; [done|]. split; [|done]. intros _.
      exists pattern. split; [left|]; auto. }
    unfold Path_match in *.
    destruct (parts_of pattern) as [|pp pps] eqn:Hparts; [done|].
    destruct (match_parts (rev path) (rev (pp :: pps))) eqn:Hm.
    { exists true. split; [done|]. split; [|done]. intros _.
      exists pattern. split; [left|]. rewrite Hparts, Hm. by right. }
    destruct IH as (b & Hb & Hiff). exists b. split; [done|].
    rewrite Hiff. split.
    + intros (q & Hq & Hor). exists q. split; [by right|done].
    + intros (q & Hq & Hor). apply elem_of_cons in Hq as [-> | Hq].
      * destruct Hor as [?|Hor]; [done|].
        rewrite Hparts, Hm in Hor. done.
      * by exists q.
Qed.

Lemma IGNORE_PATTERNS_nonempty :
  Forall (λ pattern, parts_of pattern ≠ []) IGNORE_PATTERNS.
Proof. unfold IGNORE_PATTERNS. repeat constructor; by vm_compute. Qed.

Lemma should_ignore_total (path : Path) : _should_ignore path = inr (ignored path).
Proof.
  destruct (should_ignore_with_spec IGNORE_PATTERNS path IGNORE_PATTERNS_nonempty)
    as (b & Hb & _).
  unfold ignored, _should_ignore. by rewrite Hb.
Qed.

(** C8. For every path, [_should_ignore] returns a boolean (it raises
    nothing), and that boolean is true exactly when some configured
    pattern is one of the path's segments, at whatever depth, or matches
    the path as a glob. *)
Theorem should_ignore_iff_some_pattern_matches (path : Path) :
  ∃ b : bool,
    _should_ignore path = inr b
    ∧ (b = true <->
       ∃ pattern, pattern ∈ IGNORE_PATTERNS
                  ∧ (pattern ∈ path ∨ Path_match path pattern = inr true)).
Proof. apply should_ignore_with_spec, IGNORE_PATTERNS_nonempty. Qed.

Example ignore_nested_git :
  _should_ignore ["omega"; "plugin.x"; "lib"; ".git"; "config"] = inr true.
Proof. reflexivity. Qed.

Example ignore_pyc :
  _should_ignore ["omega"; "plugin.x"; "lib"; "mod.pyc"] = inr true.
Proof. reflexivity. Qed.

Example keep_py :
  _should_ignore ["omega"; "plugin.x"; "lib"; "mod.py"] = inr false.
Proof. reflexivity. Qed.

(** ** Reasoning about the monad *)

Ltac unfold_monad :=
  unfold final, print, note, lift, pdiv_opt, try_except in *;
  unfold raise, gets, modify in *;
  unfold mbind, M_bind, mret, M_ret in *.

Global Instance same_locals_preorder : PreOrder same_locals.
Proof.
  split.
  - by intros s.
  - intros s1 s2 s3 (?&?&?&?) (?&?&?&?). unfold same_locals. naive_solver congruence.
Qed.

Global Instance grows_preorder : PreOrder grows.
Proof.
  split.
  - by intros s.
  - intros s1 s2 s3 (?&?&?) (?&?&?). unfold grows.
    split_and!; [by etrans | by etrans | auto].
Qed.

Section Preserves.
Context (R : relation State) `{!PreOrder R}.

Lemma preserves_ret {A} (a : A) : preserves R (mret a).
Proof. by intros s. Qed.

Lemma preserves_raise {A} (e : Exn) : preserves R (raise (A := A) e).
Proof. by intros s. Qed.

Lemma preserves_lift {A} (r : Exn + A) : preserves R (lift r).
Proof. destruct r; by intros s. Qed.

Lemma preserves_gets {A} (f : State -> A) : preserves R (gets f).
Proof. by intros s. Qed.

Lemma preserves_modify (f : State -> State) :
  (∀ s, R s (f s)) -> preserves R (modify f).
Proof. intros H s. apply H. Qed.

Lemma preserves_bind {A B} (m : M A) (f : A -> M B) :
  preserves R m -> (∀ a, preserves R (f a)) -> preserves R (m ≫= f).
Proof.
  intros Hm Hf s. specialize (Hm s). unfold_monad.
  destruct (m s) as [[e|a] s1]; simpl in *; [done|].
  etrans; [exact Hm|]. apply Hf.
Qed.

Lemma preserves_try_except {A} (body : M A) (handler : Exn -> M A) :
  preserves R body -> (∀ e, preserves R (handler e)) ->
  preserves R (try_except body handler).
Proof.
  intros Hm Hf s. specialize (Hm s). unfold_monad.
  destruct (body s) as [[e|a] s1]; simpl in *; [|done].
  etrans; [exact Hm|]. apply Hf.
Qed.

Lemma preserves_for_each {A} (f : A -> M unit) (l : list A) :
  (∀ x, preserves R (f x)) -> preserves R (for_each f l).
Proof.
  intros Hf. induction l as [|x l IH]; simpl.
  - apply preserves_ret.
  - apply preserves_bind; auto.
Qed.
End Preserves.

Lemma with_stdout_same_locals m s : same_locals s (with_stdout m s).
Proof. done. Qed.

Lemma with_stdout_grows m s : grows s (with_stdout m s).
Proof. split_and!; simpl; [by apply prefix_app_r | done | done]. Qed.

Lemma write_file_same_locals p data s : same_locals s (write_file p data s).
Proof. done. Qed.

Lemma write_file_grows p data s : grows s (write_file p data s).
Proof.
  split_and!; simpl; [done | by apply prefix_app_r |].
  intros q Hq. destruct (decide (p = q)) as [->|Hne].
  - rewrite lookup_insert_eq. eauto.
  - by rewrite lookup_insert_ne.
Qed.

Lemma update_file_same_locals p data s : same_locals s (update_file p data s).
Proof. done. Qed.

Lemma update_file_grows p data s : grows s (update_file p data s).
Proof.
  split_and!; simpl; [done | done |].
  intros q Hq. destruct (decide (p = q)) as [->|Hne].
  - rewrite lookup_insert_eq. eauto.
  - by rewrite lookup_insert_ne.
Qed.

Ltac pres_bind := apply preserves_bind; [apply _ | | ].

(** ** Asset publisher: frame *)

Lemma copy_walk_preserves (R : relation State) `{!PreOrder R} d dest_dir :
  (∀ p data s, R s (write_file p data s)) ->
  ∀ assets i, preserves R (copy_walk d dest_dir i assets).
Proof.
  intros Hw assets. induction assets as [|asset rest IH]; intros i; simpl.
  - by apply preserves_ret.
  - pres_bind; [|by intros; apply IH].
    unfold copy_asset. destruct (inside asset).
    + destruct (node_at d asset) as [[data|]|]; [| |by apply preserves_ret].
      * case_bool_decide; [by apply preserves_raise|].
        apply preserves_modify. intros s. apply Hw.
      * by apply preserves_raise.
    + destruct (outside d i) as [|e|dest data];
        [by apply preserves_ret | by apply preserves_raise |].
      apply preserves_modify. intros s. apply Hw.
Qed.

Lemma copy_assets_preserves (R : relation State) `{!PreOrder R} self d m :
  (∀ p data s, R s (write_file p data s)) ->
  preserves R (_copy_assets self d m).
Proof.
  intros Hw. unfold _copy_assets. pres_bind.
  - unfold pdiv_opt. destruct (get m "id"); [by apply preserves_ret|by apply preserves_raise].
  - intros dest. by apply copy_walk_preserves.
Qed.

(** ** Archiver *)

Lemma archive_name_rooted (release : Path) (name : string) (rel : Path) :
  relative_to ((release ++ [name]) ++ rel) (parent (release ++ [name]))
  = inr (name :: rel).
Proof.
  rewrite parent_snoc, <- app_assoc. apply relative_to_app.
Qed.

Lemma archive_members_file self d rel data rest :
  omap (archive_member self d) ((rel, File data) :: rest)
  = if ignored ((release_path self ++ [entry_name d]) ++ rel)
    then omap (archive_member self d) rest
    else (entry_name d :: rel, data) :: omap (archive_member self d) rest.
Proof.
  change (omap (archive_member self d) ((rel, File data) :: rest))
    with (match archive_member self d (rel, File data) with
          | Some y => y :: omap (archive_member self d) rest
          | None => omap (archive_member self d) rest
          end).
  unfold archive_member at 1. cbn [snd fst].
  rewrite <- app_assoc. cbn [app]. by destruct (ignored _).
Qed.

Lemma archive_members_dir self d rel rest :
  omap (archive_member self d) ((rel, Dir) :: rest)
  = omap (archive_member self d) rest.
Proof. done. Qed.

Lemma zip_walk_spec self d zip_file : ∀ listing i written s base,
  fs s = <[zip_file := ZipArchive written]> base ->
  ∃ ms, walk_outcome self d zip_file listing written base s
          (zip_walk (faults d) (release_path self ++ [entry_name d]) zip_file
             i listing written s) ms.
Proof.
  induction listing as [|[rel node] rest IH]; intros i written s base Hfs.
  - exists []. unfold walk_outcome. cbn [zip_walk]. unfold_monad. cbn [fst snd].
    rewrite app_nil_r. done.
  - cbn [zip_walk]. destruct node as [data|].
    2:{ destruct (IH (S i) written s base Hfs) as (ms & H). exists ms.
        unfold walk_outcome in *. by rewrite archive_members_dir. }
    rewrite should_ignore_total, archive_name_rooted.
    unfold walk_outcome. rewrite archive_members_file.
    destruct (ignored ((release_path self ++ [entry_name d]) ++ rel)) eqn:Hig;
      unfold zf_write; unfold_monad; cbn [negb fst snd].
    { destruct (IH (S i) written s base Hfs) as (ms & H). by exists ms. }
    case_bool_decide as Hflt; cbn [fst snd].
    + exists []. rewrite app_nil_r.
      split_and!; try done.
      * apply prefix_nil.
      * intros Hno. by destruct (Hno i).
    + destruct (IH (S i) (written ++ [(entry_name d :: rel, data)])
                  (update_file zip_file
                     (ZipArchive (written ++ [(entry_name d :: rel, data)])) s)
                  base)
        as (ms & Hloc & Hout & Hop & Hfs' & Hpre & Hall & Hok).
      { cbn [fs update_file]. rewrite Hfs. apply insert_insert_eq. }
      exists ((entry_name d :: rel, data) :: ms). split_and!.
      * etrans; [|exact Hloc]. apply update_file_same_locals.
      * exact Hout.
      * exact Hop.
      * etrans; [exact Hfs'|]. by rewrite <- app_assoc.
      * by apply prefix_cons.
      * intros Hr. by rewrite (Hall Hr).
      * done.
Qed.

Lemma create_zip_none self d addon_path version s :
  _create_zip self d addon_path None version s = (inl TypeError, s).
Proof. done. Qed.

(** Every outcome of archiving a package whose manifest has an id. *)
Lemma create_zip_some self d i version s :
  let zip_file := archive_path self i version in
  let rs := _create_zip self d (release_path self ++ [entry_name d])
              (Some i) version s in
  if bool_decide (zip_fault (faults d) = Some FailMkdir)
  then rs = (inl OSError, s)
  else if bool_decide (is_Some (fs s !! zip_file)) && negb (force self)
  then rs = (inr tt, with_stdout (SkippingExisting i (fmt version)) s)
  else if bool_decide (zip_fault (faults d) = Some FailOpen)
  then rs = (inl OSError, s)
  else same_locals s rs.2 ∧ opened rs.2 = opened s ++ [zip_file]
       ∧ ∃ ms, fs rs.2 = <[zip_file := ZipArchive ms]> (fs s)
           ∧ ms `prefix_of` archive_members self d
           ∧ (rs.1 = inr tt ->
              ms = archive_members self d
              ∧ stdout rs.2 = stdout s ++ [CreatedZip i (fmt version)])
           ∧ (∀ e, rs.1 = inl e -> stdout rs.2 = stdout s)
           ∧ ((∀ n, zip_fault (faults d) ≠ Some (FailWrite n)) -> rs.1 = inr tt).
Proof.
  intros zip_file rs. subst rs. unfold _create_zip.
  unfold_monad. cbn [fst snd fmt].
  fold (archive_path self i version). fold zip_file.
  case_bool_decide as Hmk; [done|].
  destruct (bool_decide (is_Some (fs s !! zip_file)) && negb (force self));
    [done|].
  case_bool_decide as Hop; [done|].
  destruct (zip_walk_spec self d zip_file (tree d) 0 []
              (write_file zip_file (ZipArchive []) s) (fs s) eq_refl)
    as (ms & Hloc & Hout & Hopn & Hfs & Hpre & Hall & Hok).
  destruct (zip_walk (faults d) (release_path self ++ [entry_name d]) zip_file
              0 (tree d) [] (write_file zip_file (ZipArchive []) s))
    as [[e|[]] s1]; cbn [fst snd] in *.
  - split; [by etrans; [|exact Hloc]|]. split; [done|].
    exists ms. split_and!; try done; intros Hno; by specialize (Hok Hno).
  - split; [by etrans; [|exact Hloc]|]. split; [done|].
    exists ms. split_and!; try done;
      intros _; split; [by apply Hall|]; cbn [stdout with_stdout]; by rewrite Hout.
Qed.

Lemma zip_walk_preserves (R : relation State) `{!PreOrder R} flt addon_path zip_file :
  (∀ p data s, R s (update_file p data s)) ->
  ∀ listing i written, preserves R (zip_walk flt addon_path zip_file i listing written).
Proof.
  intros Hu listing. induction listing as [|[rel node] rest IH]; intros i written.
  - cbn [zip_walk]. by apply preserves_ret.
  - cbn [zip_walk]. destruct node as [data|]; [|apply IH].
    pres_bind; [by apply preserves_lift|]. intros ign.
    destruct ign; cbn [negb]; [apply IH|].
    pres_bind; [by apply preserves_lift|]. intros n.
    pres_bind; [|intros; apply IH].
    unfold zf_write. case_bool_decide; [by apply preserves_raise|].
    pres_bind; [|intros; by apply preserves_ret].
    apply preserves_modify. intros s. apply Hu.
Qed.

Lemma create_zip_preserves (R : relation State) `{!PreOrder R}
    self d addon_path addon_id version :
  (∀ p data s, R s (update_file p data s)) ->
  (∀ p data s, R s (write_file p data s)) ->
  (∀ m s, R s (with_stdout m s)) ->
  preserves R (_create_zip self d addon_path addon_id version).
Proof.
  intros Hu Hw Hp. unfold _create_zip.
  pres_bind. { destruct addon_id; [by apply preserves_ret|by apply preserves_raise]. }
  intros zip_dir. pres_bind.
  { case_bool_decide; [by apply preserves_raise|by apply preserves_ret]. }
  intros _. pres_bind; [by apply preserves_gets|]. intros ex.
  destruct (ex && negb (force self)).
  { apply preserves_modify. intros s. apply Hp. }
  pres_bind.
  { case_bool_decide; [by apply preserves_raise|].
    apply preserves_modify. intros s. apply Hw. }
  intros _. pres_bind; [by apply zip_walk_preserves|].
  intros _. apply preserves_modify. intros s. apply Hp.
Qed.

(** ** Reconciler: the body of the loop *)

Lemma process_body_unparsed self d e s :
  manifest d = inl e -> process_body self d s = (inl e, s).
Proof.
  unfold manifest, process_body. intros ->. done.
Qed.

(** The body for a manifest that parsed, by what the lookup answers. *)
Lemma process_body_lookup self d m s :
  manifest d = inr m ->
  process_body self d s
  = match root_find (quoted_find self) (root s) (get m "id") with
    | inl ex => (inl ex, with_found_ids (λ ids, {[get m "id"]} ∪ ids) s)
    | inr None =>
        after_decision self d m
          (with_root (append_child m)
             (with_trace (entry_name d) Insert
                (with_found_ids (λ ids, {[get m "id"]} ∪ ids) s)))
    | inr (Some f) =>
        if bool_decide (get (found_element f) "version" = get m "version")
           && negb (force self)
        then (inr tt,
              with_trace (entry_name d) Skip
                (with_found_ids (λ ids, {[get m "id"]} ∪ ids) s))
        else match f with
             | Child i _ =>
                 after_decision self d m
                   (with_root (append_child m)
                      (with_root (remove_child i)
                         (with_trace (entry_name d) Replace
                            (with_found_ids (λ ids, {[get m "id"]} ∪ ids) s))))
             | Elsewhere _ =>
                 (inl ValueError,
                  with_trace (entry_name d) Replace
                    (with_found_ids (λ ids, {[get m "id"]} ∪ ids) s))
             end
    end.
Proof.
  unfold manifest, process_body, after_decision.
  intros ->. unfold_monad. cbn [fst snd root with_found_ids].
  destruct (root_find (quoted_find self) (root s) (get m "id"))
    as [ex|[f|]]; [done| |done].
  destruct (bool_decide (get (found_element f) "version" = get m "version")
            && negb (force self)); [done|].
  by destruct f.
Qed.

Lemma root_find_quote_free quoted catalog addon_id :
  quote_free (fmt addon_id) = true ->
  root_find quoted catalog addon_id
  = inr (match find_addon catalog addon_id with
         | Some (i, e) => Some (Child i e)
         | None => None
         end).
Proof. unfold root_find. by intros ->. Qed.

Lemma process_body_parsed self d m s :
  manifest d = inr m ->
  quote_free (fmt (get m "id")) = true ->
  process_body self d s
  = match reconcile (root s) (get m "id") (get m "version") (force self) with
    | Skip => (inr tt, decided self d m s)
    | _ => after_decision self d m (decided self d m s)
    end.
Proof.
  intros Hm Hq. rewrite (process_body_lookup _ _ _ _ Hm).
  rewrite (root_find_quote_free _ _ _ Hq). unfold reconcile, decided.
  destruct (find_addon (root s) (get m "id")) as [[i e]|]; [|done].
  cbn [found_element].
  by destruct (bool_decide (get e "version" = get m "version") && negb (force self)).
Qed.

Lemma decided_trace self d m s :
  trace (decided self d m s)
  = trace s ++ [(entry_name d,
                 reconcile (root s) (get m "id") (get m "version") (force self))].
Proof.
  unfold decided, reconcile.
  destruct (find_addon (root s) (get m "id")) as [[i e]|]; [|done].
  by destruct (bool_decide (get e "version" = get m "version") && negb (force self)).
Qed.

Lemma decided_frame self d m s :
  fs (decided self d m s) = fs s ∧ opened (decided self d m s) = opened s
  ∧ stdout (decided self d m s) = stdout s
  ∧ changed (decided self d m s) = changed s.
Proof.
  unfold decided.
  destruct (find_addon (root s) (get m "id")) as [[i e]|]; [|done].
  by destruct (bool_decide (get e "version" = get m "version") && negb (force self)).
Qed.

Lemma decided_root self d m s :
  root (decided self d m s)
  = match find_addon (root s) (get m "id") with
    | Some (i, e) =>
        if bool_decide (get e "version" = get m "version") && negb (force self)
        then root s
        else append_child m (remove_child i (root s))
    | None => append_child m (root s)
    end.
Proof.
  unfold decided.
  destruct (find_addon (root s) (get m "id")) as [[i e]|]; [|done].
  by destruct (bool_decide (get e "version" = get m "version") && negb (force self)).
Qed.

Lemma after_decision_spec self d m s :
  let rs := after_decision self d m s in
  root rs.2 = root s ∧ trace rs.2 = trace s ∧ grows s rs.2
  ∧ match rs.1 with
    | inr _ => changed rs.2 = true
    | inl _ => changed rs.2 = changed s
    end.
Proof.
  cbn zeta. unfold after_decision.
  pose proof (create_zip_preserves same_locals self d
                (release_path self ++ [entry_name d]) (get m "id") (get m "version")
                update_file_same_locals write_file_same_locals
                with_stdout_same_locals s) as Hz1.
  pose proof (create_zip_preserves grows self d
                (release_path self ++ [entry_name d]) (get m "id") (get m "version")
                update_file_grows write_file_grows with_stdout_grows s) as Hz2.
  unfold_monad.
  destruct (_create_zip self d (release_path self ++ [entry_name d])
              (get m "id") (get m "version") s) as [[e|[]] s1]; cbn [fst snd] in *.
  { destruct Hz1 as (?&?&?&?). done. }
  pose proof (copy_assets_preserves same_locals self d m write_file_same_locals s1) as Hc1.
  pose proof (copy_assets_preserves grows self d m write_file_grows s1) as Hc2.
  unfold final in *.
  destruct (_copy_assets self d m s1) as [[e|[]] s2]; cbn [fst snd] in *.
  - destruct Hz1 as (?&?&?&?), Hc1 as (?&?&?&?).
    split_and!; [congruence | congruence | by etrans | congruence].
  - destruct Hz1 as (?&?&?&?), Hc1 as (?&?&?&?).
    cbn [root trace with_changed changed].
    split_and!; [congruence | congruence | | done].
    etrans; [exact Hz2|]. exact Hc2.
Qed.

(** ** Looking an entry up *)

Lemma is_addon_with_id_true key e :
  is_addon_with_id key e = true <-> is_entry_for key e.
Proof.
  unfold is_addon_with_id, is_entry_for.
  rewrite andb_true_iff, String.eqb_eq, bool_decide_eq_true. done.
Qed.

Lemma is_addon_with_id_false key e :
  is_addon_with_id key e = false <-> ¬ is_entry_for key e.
Proof.
  rewrite <- is_addon_with_id_true. by destruct (is_addon_with_id key e).
Qed.

Lemma find_from_Some key cs : ∀ i j e,
  find_from key i cs = Some (j, e) ->
  ∃ pre post, cs = pre ++ e :: post ∧ j = i + length pre
              ∧ is_entry_for key e ∧ ∀ x, x ∈ pre -> ¬ is_entry_for key x.
Proof.
  induction cs as [|c cs IH]; intros i j e; cbn [find_from]; [done|].
  destruct (is_addon_with_id key c) eqn:Hc.
  - intros [= <- <-]. exists [], cs. split_and!; [done | cbn; lia | |].
    + by apply is_addon_with_id_true.
    + intros x Hx. by apply elem_of_nil in Hx.
  - intros H. destruct (IH _ _ _ H) as (pre & post & -> & -> & He & Hpre).
    exists (c :: pre), post. split_and!; [done | cbn; lia | done |].
    intros x [->|Hx]%elem_of_cons; [|by apply Hpre].
    by apply is_addon_with_id_false.
Qed.

Lemma find_from_None key cs : ∀ i,
  find_from key i cs = None <-> ∀ x, x ∈ cs -> ¬ is_entry_for key x.
Proof.
  induction cs as [|c cs IH]; intros i; cbn [find_from].
  - split; [|done]. intros _ x Hx. by apply elem_of_nil in Hx.
  - destruct (is_addon_with_id key c) eqn:Hc.
    + split; [done|]. intros H. exfalso. apply (H c); [by left|].
      by apply is_addon_with_id_true.
    + rewrite IH. split.
      * intros H x [->|Hx]%elem_of_cons; [|by apply H].
        by apply is_addon_with_id_false.
      * intros H x Hx. apply H. by right.
Qed.

Lemma find_from_first key pre e post : ∀ i,
  is_entry_for key e -> (∀ x, x ∈ pre -> ¬ is_entry_for key x) ->
  find_from key i (pre ++ e :: post) = Some (i + length pre, e).
Proof.
  induction pre as [|c pre IH]; intros i He Hpre; cbn [app find_from length].
  - apply is_addon_with_id_true in He. rewrite He. do 2 f_equal. lia.
  - assert (is_addon_with_id key c = false) as ->.
    { apply is_addon_with_id_false, Hpre. by left. }
    rewrite IH; [do 2 f_equal; lia | done |].
    intros x Hx. apply Hpre. by right.
Qed.

Lemma find_addon_Some catalog i j e :
  find_addon catalog (Some i) = Some (j, e) <->
  ∃ pre post, children catalog = pre ++ e :: post ∧ j = length pre
              ∧ is_entry_for i e ∧ ∀ x, x ∈ pre -> ¬ is_entry_for i x.
Proof.
  unfold find_addon. cbn [fmt]. split.
  - intros H. destruct (find_from_Some _ _ _ _ _ H) as (pre & post & ?&?&?&?).
    exists pre, post. done.
  - intros (pre & post & -> & -> & He & Hpre).
    by rewrite find_from_first.
Qed.

Lemma find_addon_entry_for catalog i e :
  entry_for catalog i e <-> ∃ j, find_addon catalog (Some i) = Some (j, e).
Proof.
  split.
  - intros (pre & post & ? & ? & ?). exists (length pre).
    apply find_addon_Some. by exists pre, post.
  - intros (j & (pre & post & ? & ? & ? & ?)%find_addon_Some). by exists pre, post.
Qed.

(** ** One iteration of the loop *)

Lemma manifest_is_Some d m : manifest d = inr m -> is_Some (node_at d "addon.xml").
Proof.
  unfold manifest. destruct (node_at d "addon.xml"); [eauto|done].
Qed.

Lemma process_package_parsed self d m s :
  manifest d = inr m ->
  process_package self d s
  = match process_body self d s with
    | (inl e, s') => (inr tt, with_stdout (ErrorProcessing (entry_name d) e) s')
    | (inr a, s') => (inr a, s')
    end.
Proof.
  intros Hm. unfold process_package.
  rewrite bool_decide_eq_true_2 by (by eapply manifest_is_Some). done.
Qed.

(** ** What every iteration guarantees *)

Lemma grows_same s s' :
  stdout s' = stdout s -> opened s' = opened s -> fs s' = fs s -> grows s s'.
Proof. intros Ho Hp Hf. unfold grows. by rewrite Ho, Hp, Hf. Qed.

Lemma iteration_refl s : iteration s s.
Proof.
  split; [done|]. exists []. rewrite app_nil_r. split_and!; [done|done|].
  right; left. by split.
Qed.

Lemma iteration_error s s0 t n e :
  stdout s0 = stdout s -> opened s0 = opened s -> fs s0 = fs s ->
  root s0 = root s -> changed s0 = changed s ->
  trace s0 = trace s ++ t ->
  iteration s (with_stdout (ErrorProcessing n e) s0).
Proof.
  intros Ho Hp Hf Hr Hc Ht.
  split; [etrans; [by apply grows_same|apply with_stdout_grows]|].
  exists t. cbn [trace root fs opened changed stdout with_stdout].
  split; [done|]. split; [done|].
  right; right. apply Exists_app. right. by apply Exists_cons_hd.
Qed.

Lemma after_decision_iteration self d m s sd dec :
  grows s sd ->
  trace sd = trace s ++ [(entry_name d, dec)] ->
  dec ≠ Skip ->
  changed sd = changed s ->
  iteration s
    (match after_decision self d m sd with
     | (inl e, s1) => with_stdout (ErrorProcessing (entry_name d) e) s1
     | (inr _, s1) => s1
     end).
Proof.
  intros Hg Ht Hdec Hch.
  destruct (after_decision_spec self d m sd) as (_ & Htr & Hg' & Hch').
  destruct (after_decision self d m sd) as [[e|[]] s1]; cbn [fst snd] in *.
  - split; [etrans; [exact Hg|]; etrans; [exact Hg'|]; apply with_stdout_grows|].
    exists [(entry_name d, dec)]. cbn [trace with_stdout]. split; [congruence|].
    split; [intros Hall; rewrite Forall_singleton in Hall; by destruct Hdec|].
    right; right. cbn [stdout with_stdout]. apply Exists_app. right.
    by apply Exists_cons_hd.
  - split; [by etrans|].
    exists [(entry_name d, dec)]. split; [congruence|].
    split; [intros Hall; rewrite Forall_singleton in Hall; by destruct Hdec|].
    by left.
Qed.

(** An iteration never raises, and keeps to [iteration], whatever the
    manifest and whatever the lookup answers. *)
Lemma process_package_iteration self d s :
  (process_package self d s).1 = inr tt
  ∧ iteration s (final (process_package self d) s).
Proof.
  unfold final, process_package.
  case_bool_decide as Hex; [|split; [done|apply iteration_refl]].
  unfold try_except.
  destruct (manifest d) as [e|m] eqn:Hm.
  { rewrite (process_body_unparsed _ _ _ _ Hm). split; [done|].
    unfold print, modify. cbn [fst snd].
    apply (iteration_error s s []); try done. by rewrite app_nil_r. }
  rewrite (process_body_lookup _ _ _ _ Hm).
  destruct (root_find (quoted_find self) (root s) (get m "id")) as [ex|[f|]].
  - split; [done|]. unfold print, modify. cbn [fst snd].
    apply (iteration_error s _ []); try done. by rewrite app_nil_r.
  - destruct (bool_decide (get (found_element f) "version" = get m "version")
              && negb (force self)).
    { split; [done|]. cbn [fst snd]. split; [by apply grows_same|].
      exists [(entry_name d, Skip)]. split_and!; [done|done|].
      right; left. split; [done|]. by rewrite Forall_singleton. }
    destruct f as [i e|e].
    + pose proof (after_decision_iteration self d m s
                    (with_root (append_child m)
                       (with_root (remove_child i)
                          (with_trace (entry_name d) Replace
                             (with_found_ids (λ ids, {[get m "id"]} ∪ ids) s))))
                    Replace) as H.
      destruct (after_decision self d m _) as [[e'|[]] s1];
        (split; [done|]); apply H; try done; by apply grows_same.
    + split; [done|]. unfold print, modify. cbn [fst snd].
      by apply (iteration_error s _ [(entry_name d, Replace)]).
  - pose proof (after_decision_iteration self d m s
                  (with_root (append_child m)
                     (with_trace (entry_name d) Insert
                        (with_found_ids (λ ids, {[get m "id"]} ∪ ids) s)))
                  Insert) as H.
    destruct (after_decision self d m _) as [[e'|[]] s1];
      (split; [done|]); apply H; try done; by apply grows_same.
Qed.

Lemma process_package_total self d s : (process_package self d s).1 = inr tt.
Proof. apply process_package_iteration. Qed.

Lemma process_package_grows self d : preserves grows (process_package self d).
Proof. intros s. apply process_package_iteration. Qed.

(** ** The decision *)

Lemma find_addon_fmt catalog addon_id :
  find_addon catalog addon_id = find_addon catalog (Some (fmt addon_id)).
Proof. done. Qed.

(** The decision taken for an id without apostrophe, in terms of the
    catalog's entries. *)
Lemma reconcile_spec catalog addon_id version frc :
  (reconcile catalog addon_id version frc = Insert <->
   ¬ ∃ e, e ∈ children catalog ∧ is_entry_for (fmt addon_id) e)
  ∧ (reconcile catalog addon_id version frc = Replace <->
     ∃ e, entry_for catalog (fmt addon_id) e
          ∧ (get e "version" ≠ version ∨ frc = true))
  ∧ (reconcile catalog addon_id version frc = Skip <->
     ∃ e, entry_for catalog (fmt addon_id) e
          ∧ get e "version" = version ∧ frc = false).
Proof.
  unfold reconcile. rewrite find_addon_fmt.
  destruct (find_addon catalog (Some (fmt addon_id))) as [[j e]|] eqn:Hfind.
  - assert (entry_for catalog (fmt addon_id) e) as He.
    { apply find_addon_entry_for. eauto. }
    assert (∀ e', entry_for catalog (fmt addon_id) e' -> e' = e) as Huniq.
    { intros e' (j' & Hj')%find_addon_entry_for. congruence. }
    destruct He as (pre & post & Hcs & Hent & Hpre).
    assert (entry_for catalog (fmt addon_id) e) as He by (by exists pre, post).
    split_and!.
    + split; [by case_match|]. intros Hno. exfalso. apply Hno.
      exists e. split; [|done]. rewrite Hcs. apply elem_of_app. right. by left.
    + case_bool_decide as Hv; destruct frc; cbn [andb negb]; split; try done.
      * intros _. exists e. eauto.
      * intros (e' & He' & [Hne|?]); [|done].
        rewrite (Huniq _ He') in Hne. done.
      * intros _. exists e. eauto.
      * intros _. exists e. eauto.
    + case_bool_decide as Hv; destruct frc; cbn [andb negb]; split; try done.
      * intros (e' & _ & _ & ?). done.
      * intros _. exists e. eauto.
      * intros (e' & _ & _ & ?). done.
      * intros (e' & He' & Hv' & _). rewrite (Huniq _ He') in Hv'. done.
  - unfold find_addon in Hfind.
    pose proof (proj1 (find_from_None _ _ _) Hfind) as Hnone.
    clear Hfind. rename Hnone into Hfind. cbn [fmt] in Hfind.
    split_and!.
    + split; [|done]. intros _ (e & Hin & He). by apply (Hfind e).
    + split; [done|]. intros (e & (pre & post & Hcs & He & _) & _).
      exfalso. apply (Hfind e); [|done]. rewrite Hcs.
      apply elem_of_app. right. by left.
    + split; [done|]. intros (e & (pre & post & Hcs & He & _) & _).
      exfalso. apply (Hfind e); [|done]. rewrite Hcs.
      apply elem_of_app. right. by left.
Qed.

Lemma reconcile_Skip_up_to_date self catalog m :
  reconcile catalog (get m "id") (get m "version") (force self) = Skip
  <-> up_to_date self catalog m.
Proof. apply reconcile_spec. Qed.

(** Every way an iteration can go for a package whose id has no
    apostrophe. *)
Lemma process_package_shape self d s :
  manifest_quote_free d = true ->
  (process_package self d s).1 = inr tt
  ∧ (final (process_package self d) s = s
     ∨ (∃ e, manifest d = inl e
             ∧ final (process_package self d) s
               = with_stdout (ErrorProcessing (entry_name d) e) s)
     ∨ (∃ m, manifest d = inr m
             ∧ reconcile (root s) (get m "id") (get m "version") (force self) = Skip
             ∧ final (process_package self d) s = decided self d m s)
     ∨ (∃ m, manifest d = inr m
             ∧ reconcile (root s) (get m "id") (get m "version") (force self) ≠ Skip
             ∧ match (after_decision self d m (decided self d m s)).1 with
               | inr _ =>
                   final (process_package self d) s
                   = (after_decision self d m (decided self d m s)).2
               | inl e =>
                   final (process_package self d) s
                   = with_stdout (ErrorProcessing (entry_name d) e)
                       (after_decision self d m (decided self d m s)).2
               end)).
Proof.
  unfold manifest_quote_free. intros Hq.
  destruct (manifest d) as [e|m] eqn:Hm.
  - unfold process_package.
    case_bool_decide; [|split; [reflexivity|left; reflexivity]].
    unfold_monad. rewrite (process_body_unparsed _ _ _ _ Hm).
    split; [done|]. right; left. by exists e.
  - unfold final. rewrite (process_package_parsed _ _ _ _ Hm),
      (process_body_parsed _ _ _ _ Hm Hq).
    destruct (reconcile (root s) (get m "id") (get m "version") (force self))
      eqn:Hdec.
    + split; [done|]. right; right; left. by exists m.
    + destruct (after_decision self d m (decided self d m s)) as [[e|[]] s1] eqn:Ha;
        (split; [done|]); right; right; right; exists m;
        (split; [done|]); (split; [congruence|]); by rewrite Ha.
    + destruct (after_decision self d m (decided self d m s)) as [[e|[]] s1] eqn:Ha;
        (split; [done|]); right; right; right; exists m;
        (split; [done|]); (split; [congruence|]); by rewrite Ha.
Qed.

Lemma process_package_root_parsed self d m s :
  manifest d = inr m ->
  quote_free (fmt (get m "id")) = true ->
  root (final (process_package self d) s) = root (decided self d m s).
Proof.
  intros Hm Hq. unfold final.
  rewrite (process_package_parsed _ _ _ _ Hm), (process_body_parsed _ _ _ _ Hm Hq).
  destruct (after_decision_spec self d m (decided self d m s)) as (Hr & _).
  destruct (reconcile (root s) (get m "id") (get m "version") (force self));
    [done| |];
    destruct (after_decision self d m (decided self d m s)) as [[?|[]] ?];
    cbn [fst snd root with_stdout] in *; done.
Qed.

Lemma process_package_trace_parsed self d m s :
  manifest d = inr m ->
  quote_free (fmt (get m "id")) = true ->
  trace (final (process_package self d) s)
  = trace s ++ [(entry_name d,
                 reconcile (root s) (get m "id") (get m "version") (force self))].
Proof.
  intros Hm Hq. unfold final.
  rewrite (process_package_parsed _ _ _ _ Hm), (process_body_parsed _ _ _ _ Hm Hq).
  rewrite <- decided_trace.
  destruct (after_decision_spec self d m (decided self d m s)) as (_ & Htr & _).
  destruct (reconcile (root s) (get m "id") (get m "version") (force self));
    [done| |];
    destruct (after_decision self d m (decided self d m s)) as [[?|[]] ?];
    cbn [fst snd trace with_stdout] in *; done.
Qed.

(** C1, amended. For a manifest whose id has no apostrophe (a missing id
    being looked up as the text [None]), the iteration takes exactly one
    decision: [Insert] exactly when the catalog has no [addon] entry with
    that id, [Replace] exactly when it has one and the first such entry's
    version differs from the manifest's or force is set, and [Skip]
    exactly when that entry has the manifest's version and force is
    unset.  On [Skip] the package is passed over with the catalog, the
    files, the set of files opened for writing, the dirty flag and the
    output all unchanged; on [Insert] the manifest becomes the last child
    of the catalog; on [Replace] it does so after the entry found is
    removed. *)
Theorem reconcile_decision (self : Generator) (d : ReleaseEntry)
    (m : Element) (s : State) :
  manifest d = inr m ->
  quote_free (fmt (get m "id")) = true ->
  let key := fmt (get m "id") in
  let s' := final (process_package self d) s in
  ∃ dec,
    trace s' = trace s ++ [(entry_name d, dec)]
    ∧ (dec = Insert <-> ¬ ∃ e, e ∈ children (root s) ∧ is_entry_for key e)
    ∧ (dec = Replace <->
       ∃ e, entry_for (root s) key e
            ∧ (get e "version" ≠ get m "version" ∨ force self = true))
    ∧ (dec = Skip <->
       ∃ e, entry_for (root s) key e
            ∧ get e "version" = get m "version" ∧ force self = false)
    ∧ (dec = Skip ->
       process_package self d s = (inr tt, s')
       ∧ root s' = root s ∧ fs s' = fs s ∧ opened s' = opened s
       ∧ changed s' = changed s ∧ stdout s' = stdout s)
    ∧ (dec = Insert -> children (root s') = children (root s) ++ [m])
    ∧ (dec = Replace ->
       ∃ pre e post,
         children (root s) = pre ++ e :: post
         ∧ entry_for (root s) key e
         ∧ children (root s') = pre ++ post ++ [m]).
Proof.
  intros Hm Hq key s'. subst key s'.
  exists (reconcile (root s) (get m "id") (get m "version") (force self)).
  destruct (reconcile_spec (root s) (get m "id") (get m "version") (force self))
    as (Hins & Hrep & Hskip).
  split; [by apply process_package_trace_parsed|].
  split; [exact Hins|]. split; [exact Hrep|]. split; [exact Hskip|].
  rewrite (process_package_root_parsed _ _ _ _ Hm Hq), decided_root.
  unfold reconcile in *. rewrite find_addon_fmt in *.
  destruct (find_addon (root s) (Some (fmt (get m "id")))) as [[j e]|] eqn:Hfind.
  - destruct (bool_decide (get e "version" = get m "version") && negb (force self))
      eqn:Hc.
    + split_and!; [|done|done]. intros _.
      assert (process_package self d s = (inr tt, decided self d m s)) as Hp.
      { rewrite (process_package_parsed _ _ _ _ Hm),
          (process_body_parsed _ _ _ _ Hm Hq).
        unfold reconcile. by rewrite find_addon_fmt, Hfind, Hc. }
      unfold final. rewrite Hp. cbn [snd].
      destruct (decided_frame self d m s) as (?&?&?&?). done.
    + split_and!; [done|done|]. intros _.
      apply find_addon_Some in Hfind as (pre & post & Hcs & -> & He & Hpre).
      exists pre, e, post. split; [done|]. split; [by exists pre, post|].
      cbn [append_child remove_child set_children children].
      by rewrite Hcs, delete_middle, <- app_assoc.
  - split_and!; done.
Qed.

Lemma reconcile_decision_witness :
  let self := sample_generator false in
  let m := addon_xml "foo" "1.0" in
  let d := sample_package "foo" (XmlDoc m) no_faults in
  let s := with_root (λ _, Elem "addons" [] None [m]) (initial ∅) in
  manifest d = inr m
  ∧ quote_free (fmt (get m "id")) = true
  ∧ ∃ dec,
      trace (final (process_package self d) s) = trace s ++ [(entry_name d, dec)]
      ∧ (dec = Skip <->
         ∃ e, entry_for (root s) (fmt (get m "id")) e
              ∧ get e "version" = get m "version" ∧ force self = false).
Proof.
  split; [reflexivity|]. split; [reflexivity|].
  destruct (reconcile_decision (sample_generator false)
              (sample_package "foo" (XmlDoc (addon_xml "foo" "1.0")) no_faults)
              (addon_xml "foo" "1.0")
              (with_root (λ _, Elem "addons" [] None [addon_xml "foo" "1.0"])
                 (initial ∅))
              eq_refl eq_refl) as (dec & Ht & _ & _ & Hs & _).
  exists dec. split; [exact Ht|exact Hs].
Defined.

(** C1 as stated fails: a manifest without [id] is looked up under the
    text [None]; against a catalog whose one entry has the id [None] and
    the manifest's version it is decided [Skip], though no entry of the
    catalog has the manifest's id. *)
Lemma missing_id_is_looked_up_as_None :
  let self := sample_generator false in
  let m := Elem "addon" [("version", "1.0")] None [] in
  let d := sample_package "foo" (XmlDoc m) no_faults in
  let catalog := Elem "addons" [] None [addon_xml "None" "1.0"] in
  let s' := final (process_package self d) (with_root (λ _, catalog) (initial ∅)) in
  manifest d = inr m
  ∧ get m "id" = None
  ∧ (¬ ∃ e, e ∈ children catalog ∧ get e "id" = get m "id")
  ∧ trace s' = [("foo", Skip)]
  ∧ root s' = catalog.
Proof.
  cbn zeta. split_and!; try reflexivity.
  intros (e & He & Hid). apply list_elem_of_singleton in He as ->. discriminate Hid.
Qed.

(** ** The loop *)

Lemma for_each_total self listing s :
  (for_each (process_package self) listing s).1 = inr tt.
Proof.
  revert s. induction listing as [|d listing IH]; intros s; [done|].
  cbn [for_each]. unfold_monad.
  pose proof (process_package_total self d s) as Hd.
  destruct (process_package self d s) as [[e|[]] s1]; [done|]. apply IH.
Qed.

Lemma for_each_cons self d listing s :
  for_each (process_package self) (d :: listing) s
  = for_each (process_package self) listing (final (process_package self d) s).
Proof.
  cbn [for_each]. unfold_monad.
  pose proof (process_package_total self d s) as Hd.
  by destruct (process_package self d s) as [[e|[]] s1].
Qed.

Lemma for_each_app self before after s :
  for_each (process_package self) (before ++ after) s
  = for_each (process_package self) after
      (final (for_each (process_package self) before) s).
Proof.
  revert s. induction before as [|d before IH]; intros s; [done|].
  cbn [app]. unfold final in *. rewrite !for_each_cons. apply IH.
Qed.

Lemma preserves_for_each_in (R : relation State) `{!PreOrder R} self listing :
  (∀ d, d ∈ listing -> preserves R (process_package self d)) ->
  preserves R (for_each (process_package self) listing).
Proof.
  induction listing as [|d listing IH]; intros H s; [done|].
  unfold final. rewrite for_each_cons.
  etrans; [apply (H d); by left|]. apply IH. intros d' Hd'. apply H. by right.
Qed.




(** ** Invariants of the loop *)

Global Instance skips_write_nothing_preorder : PreOrder skips_write_nothing.
Proof.
  split.
  - intros s. exists []. by rewrite app_nil_r.
  - intros s1 s2 s3 (t1 & Ht1 & H1) (t2 & Ht2 & H2). exists (t1 ++ t2).
    split; [by rewrite Ht2, Ht1, app_assoc|].
    intros [Hs1 Hs2]%Forall_app.
    destruct (H1 Hs1) as (?&?&?), (H2 Hs2) as (?&?&?).
    split_and!; congruence.
Qed.

Global Instance keeps_preorder (P : State -> Prop) : PreOrder (keeps P).
Proof. split; unfold keeps; [by intros s | intros s1 s2 s3; tauto]. Qed.

Lemma process_package_skips_write_nothing self d :
  preserves skips_write_nothing (process_package self d).
Proof.
  intros s.
  destruct (process_package_iteration self d s) as (_ & _ & t & Ht & Hskip & _).
  exists t. split; [done|]. intros Hall.
  destruct (Hskip Hall) as (_ & ? & ? & ?). done.
Qed.

Lemma process_package_dirty_or_excused self d :
  preserves (keeps dirty_or_excused) (process_package self d).
Proof.
  intros s HJ.
  destruct (process_package_iteration self d s)
    as (_ & ([k Hk] & _) & t & Ht & _ & [Hd | [[Hc Hall] | Herr]]).
  - by left.
  - unfold dirty_or_excused. rewrite Hc, Ht, Hk.
    destruct HJ as [?|[?|?]]; [by left | |].
    + right; left. apply Forall_app. by split.
    + right; right. apply Exists_app. by left.
  - by right; right.
Qed.

Lemma entry_id_Some key x : entry_id x = Some key <-> is_entry_for key x.
Proof.
  unfold entry_id, is_entry_for.
  destruct (String.eqb (tag x) "addon") eqn:Htag.
  - apply String.eqb_eq in Htag. split; [by intros ?|by intros [_ ?]].
  - apply String.eqb_neq in Htag. split; [done|by intros [? _]].
Qed.

Lemma entry_ids_snoc_fresh cs m key :
  NoDup (entry_ids cs) ->
  key ∉ entry_ids cs ->
  (∀ k, entry_id m = Some k -> k = key) ->
  NoDup (entry_ids (cs ++ [m])).
Proof.
  intros Hnd Hfresh Hm. unfold entry_ids in *. rewrite omap_app.
  apply NoDup_app. split_and!; [done| |].
  - intros k Hk Hk'. cbn in Hk'.
    destruct (entry_id m) as [k'|] eqn:He; [|by apply elem_of_nil in Hk'].
    apply list_elem_of_singleton in Hk' as ->. rewrite (Hm _ eq_refl) in Hk. done.
  - cbn. destruct (entry_id m); [apply NoDup_singleton|apply NoDup_nil_2].
Qed.

Lemma decided_unique_ids self d m s :
  unique_ids s -> unique_ids (decided self d m s).
Proof.
  unfold unique_ids. intros Hnd. rewrite decided_root.
  assert (∀ k, entry_id m = Some k -> k = fmt (get m "id")) as Hm.
  { intros k [_ Hk]%entry_id_Some. by rewrite Hk. }
  unfold find_addon.
  destruct (find_from (fmt (get m "id")) 0 (children (root s)))
    as [[i e]|] eqn:Hfind.
  - destruct (bool_decide (get e "version" = get m "version") && negb (force self));
      [done|].
    destruct (find_from_Some _ _ _ _ _ Hfind) as (pre & post & Hcs & -> & He & _).
    cbn [append_child remove_child set_children children plus].
    rewrite Hcs, delete_middle.
    rewrite Hcs in Hnd. unfold entry_ids in Hnd.
    rewrite omap_app in Hnd. cbn in Hnd.
    apply entry_id_Some in He. rewrite He in Hnd.
    apply NoDup_app in Hnd as (Hpre & Hdisj & [Hkey Hpost]%NoDup_cons).
    apply entry_ids_snoc_fresh with (key := fmt (get m "id")); [| |done].
    + unfold entry_ids. rewrite omap_app. apply NoDup_app. split_and!; [done| |done].
      intros k Hk Hk'. apply (Hdisj k Hk). by right.
    + unfold entry_ids. rewrite omap_app. intros [Hk|Hk]%elem_of_app; [|done].
      apply (Hdisj _ Hk). by left.
  - cbn [append_child set_children children].
    apply entry_ids_snoc_fresh with (key := fmt (get m "id")); [done| |done].
    intros (x & Hx & Hid)%list_elem_of_omap.
    apply entry_id_Some in Hid.
    by apply (proj1 (find_from_None _ _ _) Hfind x).
Qed.

Lemma process_package_root self d s :
  manifest_quote_free d = true ->
  root (final (process_package self d) s) = root s
  ∨ ∃ m, manifest d = inr m
         ∧ root (final (process_package self d) s) = root (decided self d m s).
Proof.
  intros Hq.
  destruct (process_package_shape self d s Hq)
    as (_ & [-> | [(e & _ & ->) | [(m & Hm & Hskip & ->) | (m & Hm & Hdec & H)]]]).
  - by left.
  - by left.
  - right. by exists m.
  - right. exists m. split; [done|].
    destruct (after_decision_spec self d m (decided self d m s)) as (Hr & _).
    by destruct (after_decision self d m (decided self d m s)).1; rewrite H.
Qed.

Lemma process_package_unique_ids self d :
  manifest_quote_free d = true ->
  preserves (keeps unique_ids) (process_package self d).
Proof.
  intros Hq s Hu. unfold unique_ids.
  destruct (process_package_root self d s Hq) as [-> | (m & _ & ->)]; [done|].
  by apply decided_unique_ids.
Qed.


(** ** The run *)

Lemma load_catalog_eq self s :
  load_catalog self s
  = match fs s !! addons_xml_path self with
    | Some (XmlDoc r) => (inr r, s)
    | Some _ => (inl ParseError, s)
    | None => (inr (Elem "addons" [] None []), s)
    end.
Proof.
  unfold load_catalog. unfold_monad.
  by destruct (fs s !! addons_xml_path self) as [[]|].
Qed.

Lemma generate_addons_xml_eq self listing s :
  _generate_addons_xml self listing s
  = match load_catalog self s with
    | (inl e, s') => (inl e, s')
    | (inr r, s') => persist self (loop_end self listing r s')
    end.
Proof.
  unfold _generate_addons_xml, persist, loop_end, loop_start.
  unfold mbind at 1. unfold M_bind at 1.
  destruct (load_catalog self s) as [[e|r] s']; [done|].
  unfold_monad. cbn [fst snd].
  pose proof (for_each_total self (List.filter is_candidate listing)
                (with_found_ids (λ _, ∅)
                   (with_changed false (with_root (λ _, r) s')))) as Htot.
  destruct (for_each (process_package self) (List.filter is_candidate listing)
              (with_found_ids (λ _, ∅)
                 (with_changed false (with_root (λ _, r) s'))))
    as [[e|[]] s2]; [done|].
  cbn [fst snd]. destruct (changed s2); [|done].
  by case_bool_decide.
Qed.

Lemma loop_skips_write_nothing self listing r s :
  skips_write_nothing (loop_start r s) (loop_end self listing r s).
Proof.
  exact (preserves_for_each skips_write_nothing (process_package self)
           (List.filter is_candidate listing)
           (process_package_skips_write_nothing self) (loop_start r s)).
Qed.

Lemma loop_dirty_or_excused self listing r s :
  trace s = [] -> dirty_or_excused (loop_end self listing r s).
Proof.
  intros Htr.
  apply (preserves_for_each (keeps dirty_or_excused) (process_package self)
           (List.filter is_candidate listing)
           (process_package_dirty_or_excused self) (loop_start r s)).
  right; left. cbn. rewrite Htr. constructor.
Qed.

Lemma loop_unique_ids self listing r s :
  quote_free_ids (List.filter is_candidate listing) ->
  NoDup (entry_ids (children r)) -> unique_ids (loop_end self listing r s).
Proof.
  intros Hq Hr.
  apply (preserves_for_each_in (keeps unique_ids) self
           (List.filter is_candidate listing)).
  - intros d Hd. apply process_package_unique_ids.
    unfold quote_free_ids in Hq. rewrite Forall_forall in Hq. by apply Hq.
  - exact Hr.
Qed.

Lemma Generator_init_eq md5_hexdigest self listing s :
  Generator_init md5_hexdigest self listing s
  = match _generate_addons_xml self listing s with
    | (inl e, s') => (inl e, s')
    | (inr true, s') => _generate_md5 md5_hexdigest self s'
    | (inr false, s') => (inr tt, s')
    end.
Proof.
  unfold Generator_init. unfold mbind at 1. unfold M_bind at 1.
  by destruct (_generate_addons_xml self listing s) as [[e|[]] s'].
Qed.

Lemma generate_md5_frame md5_hexdigest self s :
  trace (_generate_md5 md5_hexdigest self s).2 = trace s.
Proof.
  unfold _generate_md5. unfold_monad. cbn [fst snd].
  destruct (fs s !! addons_xml_path self); [|done].
  by case_bool_decide.
Qed.

(** C6. A run in which every decision was [Skip] writes neither the
    catalog file nor the checksum file: both are as they were, neither was
    opened for writing, and indeed no file at all was written. *)
Theorem run_of_skips_writes_nothing (md5_hexdigest : FileData -> string)
    (self : Generator) (listing : list ReleaseEntry)
    (files : gmap Path FileData) :
  let rs := Generator_init md5_hexdigest self listing (initial files) in
  Forall (λ x, x.2 = Skip) (trace rs.2) ->
  fs rs.2 !! addons_xml_path self = files !! addons_xml_path self
  ∧ fs rs.2 !! md5_path self = files !! md5_path self
  ∧ (addons_xml_path self ∉ opened rs.2)
  ∧ (md5_path self ∉ opened rs.2)
  ∧ fs rs.2 = files ∧ opened rs.2 = [].
Proof.
  intros rs.
  assert (Forall (λ x : string * Decision, x.2 = Skip) (trace rs.2) ->
          fs rs.2 = files ∧ opened rs.2 = []) as Hkey.
  { subst rs. rewrite Generator_init_eq, generate_addons_xml_eq, load_catalog_eq.
    cbn [fs initial].
    assert (∀ r,
      Forall (λ x : string * Decision, x.2 = Skip)
        (trace (loop_end self listing r (initial files))) ->
      fs (loop_end self listing r (initial files)) = files
      ∧ opened (loop_end self listing r (initial files)) = []
      ∧ changed (loop_end self listing r (initial files)) = false) as Hloop.
    { intros r Hall.
      destruct (loop_skips_write_nothing self listing r (initial files))
        as (t & Ht & H).
      apply H. rewrite Ht in Hall. by apply Forall_app in Hall as [_ ?]. }
    assert (∀ r,
      Forall (λ x : string * Decision, x.2 = Skip)
        (trace (match persist self (loop_end self listing r (initial files)) with
                | (inl e, s') => (inl e, s')
                | (inr true, s') => _generate_md5 md5_hexdigest self s'
                | (inr false, s') => (inr tt, s')
                end).2) ->
      fs (match persist self (loop_end self listing r (initial files)) with
          | (inl e, s') => (inl e, s')
          | (inr true, s') => _generate_md5 md5_hexdigest self s'
          | (inr false, s') => (inr tt, s')
          end).2 = files
      ∧ opened (match persist self (loop_end self listing r (initial files)) with
                | (inl e, s') => (inl e, s')
                | (inr true, s') => _generate_md5 md5_hexdigest self s'
                | (inr false, s') => (inr tt, s')
                end).2 = []) as Hrun.
    { intros r. unfold persist.
      destruct (changed (loop_end self listing r (initial files))) eqn:Hch.
      - case_bool_decide.
        + cbn [snd trace with_root]. intros Hall.
          destruct (Hloop r Hall) as (_ & _ & Hf). congruence.
        + rewrite generate_md5_frame. cbn [trace with_stdout write_file with_root].
          intros Hall. destruct (Hloop r Hall) as (_ & _ & Hf). congruence.
      - cbn [snd trace fs opened with_stdout]. intros Hall.
        destruct (Hloop r Hall) as (? & ? & _). done. }
    destruct (files !! addons_xml_path self) as [[r| |]|]; try done; apply Hrun. }
  intros Hall. destruct (Hkey Hall) as [Hfs Hop]. rewrite Hfs, Hop.
  split_and!; try done; apply not_elem_of_nil.
Qed.

Lemma run_of_skips_writes_nothing_witness :
  let self := sample_generator false in
  let files : gmap Path FileData :=
    {[ addons_xml_path self
       := XmlDoc (Elem "addons" [] None [addon_xml "foo" "1.0"]) ]} in
  let listing :=
    [sample_package "foo" (XmlDoc (addon_xml "foo" "1.0")) no_faults] in
  let rs := Generator_init (λ _, "d41d8cd9") self listing (initial files) in
  Forall (λ x, x.2 = Skip) (trace rs.2) ∧ fs rs.2 = files ∧ opened rs.2 = [].
Proof.
  cbn zeta.
  assert (Forall (λ x : string * Decision, x.2 = Skip)
            (trace (Generator_init (λ _, "d41d8cd9") (sample_generator false)
                      [sample_package "foo" (XmlDoc (addon_xml "foo" "1.0")) no_faults]
                      (initial {[ addons_xml_path (sample_generator false)
                                  := XmlDoc (Elem "addons" [] None
                                               [addon_xml "foo" "1.0"]) ]})).2))
    as H.
  { vm_compute. repeat constructor. }
  split; [exact H|].
  exact (proj2 (proj2 (proj2 (proj2
    (run_of_skips_writes_nothing _ _ _ _ H))))).
Defined.


Lemma persist_dirty self s :
  changed s = true ->
  persist_fault self ≠ Some FailWriteCatalog ->
  (persist self s).1 = inr true
  ∧ fs (persist self s).2 !! addons_xml_path self
    = Some (XmlDoc (set_children (root s) (sorted (children (root s))))).
Proof.
  intros Hch Hflt. unfold persist. rewrite Hch.
  rewrite bool_decide_eq_false_2 by done. split; [done|].
  cbn [snd fs with_stdout write_file]. apply lookup_insert_eq.
Qed.

Lemma persist_returns_true self s :
  (persist self s).1 = inr true ->
  changed s = true ∧ persist_fault self ≠ Some FailWriteCatalog.
Proof.
  unfold persist. destruct (changed s); [|done].
  case_bool_decide; [done|]. done.
Qed.

Lemma persist_clean self s :
  changed s = false ->
  persist self s = (inr false, with_stdout (NoChanges (release_path self)) s).
Proof. intros Hch. unfold persist. by rewrite Hch. Qed.

Lemma persist_trace self s : trace (persist self s).2 = trace s.
Proof. unfold persist. destruct (changed s); [|done]. by case_bool_decide. Qed.

Lemma persist_stdout_prefix self s : stdout s `prefix_of` stdout (persist self s).2.
Proof.
  unfold persist. destruct (changed s); [|by apply prefix_app_r].
  case_bool_decide; [done|]. by apply prefix_app_r.
Qed.

Lemma entry_ids_sorted cs : entry_ids (sorted cs) ≡ₚ entry_ids cs.
Proof. unfold entry_ids. by rewrite sorted_Permutation. Qed.

Lemma stdout_prefix_no_error (l l' : list Msg) :
  l `prefix_of` l' ->
  Forall (λ msg, is_error msg = false) l' -> Forall (λ msg, is_error msg = false) l.
Proof. intros [k ->] [? _]%Forall_app. done. Qed.

Lemma persisted_after_loop self listing r files :
  let rs := persist self (loop_end self listing r (initial files)) in
  (Exists (λ x, x.2 ≠ Skip) (trace rs.2) ->
   Forall (λ msg, is_error msg = false) (stdout rs.2) ->
   persist_fault self ≠ Some FailWriteCatalog ->
   rs.1 = inr true)
  ∧ (rs.1 = inr true ->
     ∃ doc, fs rs.2 !! addons_xml_path self = Some (XmlDoc doc)
            ∧ StronglySorted key_le (children doc)
            ∧ (quote_free_ids (List.filter is_candidate listing) ->
               NoDup (entry_ids (children r)) ->
               NoDup (entry_ids (children doc)))).
Proof.
  intros rs. subst rs. split.
  - rewrite persist_trace. intros Hex Hnoerr Hflt.
    pose proof (stdout_prefix_no_error _ _ (persist_stdout_prefix self _) Hnoerr)
      as Hnoerr'.
    destruct (loop_dirty_or_excused self listing r (initial files) eq_refl)
      as [Hd | [Hskip | Herr]].
    + by apply persist_dirty.
    + exfalso. apply Exists_exists in Hex as (x & Hx & Hne).
      rewrite Forall_forall in Hskip. by apply Hne, Hskip.
    + exfalso. apply Exists_exists in Herr as (msg & Hmsg & Herr).
      rewrite Forall_forall in Hnoerr'. by rewrite (Hnoerr' msg Hmsg) in Herr.
  - intros Hret. destruct (persist_returns_true _ _ Hret) as [Hch Hflt].
    destruct (persist_dirty self _ Hch Hflt) as [_ Hfs].
    eexists. split; [exact Hfs|].
    cbn [children set_children]. split; [apply sorted_StronglySorted|].
    intros Hq Hnd. rewrite entry_ids_sorted.
    by apply (loop_unique_ids self listing r (initial files)).
Qed.

(** C2, amended. If a run took an [Insert] or [Replace] decision, reported
    no error and its write of the catalog does not fail, it persists the
    catalog; and whenever a run persists the catalog, the children of the
    persisted document are sorted by their id under the ordinal order of
    strings (a missing id counting as the empty string), and no two
    [addon] children carry the same id provided that held of the catalog
    the run loaded and no package is looked up under an id with an
    apostrophe. *)
Theorem persisted_catalog_sorted_and_unique (self : Generator)
    (listing : list ReleaseEntry) (files : gmap Path FileData) :
  let rs := _generate_addons_xml self listing (initial files) in
  (Exists (λ x, x.2 ≠ Skip) (trace rs.2) ->
   Forall (λ msg, is_error msg = false) (stdout rs.2) ->
   persist_fault self ≠ Some FailWriteCatalog ->
   rs.1 = inr true)
  ∧ (rs.1 = inr true ->
     ∃ doc, fs rs.2 !! addons_xml_path self = Some (XmlDoc doc)
            ∧ StronglySorted key_le (children doc)
            ∧ (quote_free_ids (List.filter is_candidate listing) ->
               NoDup (entry_ids (loaded_entries self files)) ->
               NoDup (entry_ids (children doc)))).
Proof.
  intros rs. subst rs. unfold loaded_entries.
  rewrite generate_addons_xml_eq, load_catalog_eq. cbn [fs initial].
  destruct (files !! addons_xml_path self) as [[r| |]|].
  - apply persisted_after_loop.
  - cbn. split; [|done]. intros Hex. by apply Exists_nil in Hex.
  - cbn. split; [|done]. intros Hex. by apply Exists_nil in Hex.
  - apply (persisted_after_loop self listing (Elem "addons" [] None [])).
Qed.

Lemma persisted_catalog_sorted_and_unique_witness :
  let self := sample_generator false in
  let listing :=
    [sample_package "foo" (XmlDoc (addon_xml "foo" "1.0")) no_faults;
     sample_package "bar" (XmlDoc (addon_xml "bar" "0.1")) no_faults] in
  let rs := _generate_addons_xml self listing (initial ∅) in
  rs.1 = inr true
  ∧ ∃ doc, fs rs.2 !! addons_xml_path self = Some (XmlDoc doc)
           ∧ StronglySorted key_le (children doc)
           ∧ (quote_free_ids (List.filter is_candidate listing) ->
              NoDup (entry_ids (loaded_entries self ∅)) ->
              NoDup (entry_ids (children doc))).
Proof.
  cbn zeta.
  assert ((_generate_addons_xml (sample_generator false)
             [sample_package "foo" (XmlDoc (addon_xml "foo" "1.0")) no_faults;
              sample_package "bar" (XmlDoc (addon_xml "bar" "0.1")) no_faults]
             (initial ∅)).1 = inr true) as H by (vm_compute; reflexivity).
  split; [exact H|].
  exact (proj2 (persisted_catalog_sorted_and_unique _ _ _) H).
Defined.

(** C2 as stated fails: a run that inserts one package into a catalog
    already holding two entries for another id persists both of them. *)
Lemma persisted_catalog_keeps_duplicates :
  let self := sample_generator false in
  let files : gmap Path FileData :=
    {[ addons_xml_path self
       := XmlDoc (Elem "addons" [] None
                    [addon_xml "foo" "1.0"; addon_xml "foo" "0.9"]) ]} in
  let listing :=
    [sample_package "bar" (XmlDoc (addon_xml "bar" "0.1")) no_faults] in
  let rs := _generate_addons_xml self listing (initial files) in
  trace rs.2 = [("bar", Insert)]
  ∧ fs rs.2 !! addons_xml_path self
    = Some (XmlDoc (Elem "addons" [] None
                      [addon_xml "bar" "0.1"; addon_xml "foo" "1.0";
                       addon_xml "foo" "0.9"]))
  ∧ ¬ NoDup (entry_ids [addon_xml "bar" "0.1"; addon_xml "foo" "1.0";
                        addon_xml "foo" "0.9"]).
Proof.
  cbn zeta. split_and!.
  - vm_compute. reflexivity.
  - vm_compute. reflexivity.
  - intros Hnd. apply NoDup_cons in Hnd as [_ Hnd].
    apply NoDup_cons in Hnd as [Hin _]. apply Hin. by left.
Qed.


(** ** The archiver's contract *)

(** C7. When the archive for the id and version already exists and force
    is unset, the archiver writes nothing: the files are as they were and
    no file was opened for writing; unless creating the output directory
    fails it returns normally, having only printed that it skips. *)
Theorem create_zip_existing_is_noop (self : Generator) (d : ReleaseEntry)
    (i : string) (version : option string) (s : State) :
  force self = false ->
  is_Some (fs s !! archive_path self i version) ->
  let rs := _create_zip self d (release_path self ++ [entry_name d])
              (Some i) version s in
  fs rs.2 = fs s ∧ opened rs.2 = opened s
  ∧ (zip_fault (faults d) ≠ Some FailMkdir ->
     rs = (inr tt, with_stdout (SkippingExisting i (fmt version)) s)).
Proof.
  intros Hforce Hex rs. subst rs.
  pose proof (create_zip_some self d i version s) as H. cbn zeta in H.
  rewrite Hforce in H. rewrite (bool_decide_eq_true_2 _ Hex) in H.
  cbn [andb negb] in H.
  case_bool_decide as Hmk; rewrite H; [done|]. done.
Qed.

Lemma create_zip_existing_is_noop_witness :
  let self := sample_generator false in
  let d := sample_package "foo" (XmlDoc (addon_xml "foo" "1.0")) no_faults in
  let s := initial {[ archive_path self "foo" (Some "1.0") := ZipArchive [] ]} in
  let rs := _create_zip self d (release_path self ++ [entry_name d])
              (Some "foo") (Some "1.0") s in
  force self = false
  ∧ is_Some (fs s !! archive_path self "foo" (Some "1.0"))
  ∧ fs rs.2 = fs s ∧ opened rs.2 = opened s.
Proof.
  cbn zeta.
  assert (is_Some (fs (initial {[ archive_path (sample_generator false) "foo"
                                     (Some "1.0") := ZipArchive [] ]})
                   !! archive_path (sample_generator false) "foo" (Some "1.0")))
    as Hex.
  { cbn [fs initial]. rewrite lookup_singleton_eq. eauto. }
  split; [reflexivity|]. split; [exact Hex|].
  pose proof (create_zip_existing_is_noop (sample_generator false)
                (sample_package "foo" (XmlDoc (addon_xml "foo" "1.0")) no_faults)
                "foo" (Some "1.0") _ eq_refl Hex) as H.
  split; [exact (proj1 H) | exact (proj1 (proj2 H))].
Defined.

Lemma archive_members_rooted self d :
  ∀ n data, (n, data) ∈ archive_members self d ->
  ∃ rel, n = entry_name d :: rel
         ∧ (rel, File data) ∈ tree d
         ∧ relative_to (release_path self ++ entry_name d :: rel)
             (release_path self) = inr n.
Proof.
  intros n data ([rel node] & Hin & Hm)%list_elem_of_omap.
  unfold archive_member in Hm. cbn [fst snd] in Hm.
  destruct node as [data'|]; [|done].
  destruct (ignored _); [done|]. injection Hm as <- <-.
  exists rel. split_and!; [done | done |]. apply relative_to_app.
Qed.

(** C4, amended. Whatever the archiver writes into a package's archive,
    each member's name is the file's path relative to the release
    directory: it starts with the package directory's name (not the
    manifest's id) and goes on with the file's path inside the package
    directory. *)
Theorem archive_members_rooted_at_directory_name (self : Generator)
    (d : ReleaseEntry) (addon_id version : option string) (s : State) :
  let rs := _create_zip self d (release_path self ++ [entry_name d])
              addon_id version s in
  fs rs.2 = fs s
  ∨ ∃ zip_file ms,
      fs rs.2 = <[zip_file := ZipArchive ms]> (fs s)
      ∧ rooted_at (entry_name d) ms
      ∧ ∀ n data, (n, data) ∈ ms ->
          ∃ rel, n = entry_name d :: rel
                 ∧ (rel, File data) ∈ tree d
                 ∧ relative_to (release_path self ++ entry_name d :: rel)
                     (release_path self) = inr n.
Proof.
  intros rs. subst rs. destruct addon_id as [i|]; [|by left].
  pose proof (create_zip_some self d i version s) as H. cbn zeta in H.
  case_bool_decide; [rewrite H; by left|].
  destruct (bool_decide (is_Some (fs s !! archive_path self i version))
            && negb (force self)); [rewrite H; by left|].
  case_bool_decide; [rewrite H; by left|].
  destruct H as (_ & _ & ms & Hfs & Hpre & _). right.
  exists (archive_path self i version), ms. split; [done|].
  assert (∀ n data, (n, data) ∈ ms ->
            ∃ rel, n = entry_name d :: rel
                   ∧ (rel, File data) ∈ tree d
                   ∧ relative_to (release_path self ++ entry_name d :: rel)
                       (release_path self) = inr n) as Hms.
  { intros n data Hin. apply archive_members_rooted.
    destruct Hpre as [k ->]. apply elem_of_app. by left. }
  split; [|done].
  intros n data Hin. destruct (Hms n data Hin) as (rel & -> & _). done.
Qed.

(** C4 as stated fails: a package directory named otherwise than its
    manifest's id is archived under the directory's name. *)
Lemma archive_rooted_at_directory_not_id :
  let self := sample_generator false in
  let d := sample_package "checkout" (XmlDoc (addon_xml "plugin.video.demo" "1.0"))
             no_faults in
  let s' := final (process_package self d) (initial ∅) in
  manifest d = inr (addon_xml "plugin.video.demo" "1.0")
  ∧ ∃ ms, fs s' !! archive_path self "plugin.video.demo" (Some "1.0")
          = Some (ZipArchive ms)
          ∧ (["checkout"; "lib"; "main.py"], Text "import xbmc") ∈ ms
          ∧ ¬ rooted_at "plugin.video.demo" ms.
Proof.
  cbn zeta. split; [reflexivity|].
  eexists. split; [vm_compute; reflexivity|].
  assert ((["checkout"; "lib"; "main.py"], Text "import xbmc")
          ∈ [(["checkout"; "addon.xml"],
               XmlDoc (addon_xml "plugin.video.demo" "1.0"));
              (["checkout"; "lib"; "main.py"], Text "import xbmc")]) as Hin.
  { right. left. }
  split; [exact Hin|].
  intros Hroot. specialize (Hroot _ _ Hin). discriminate Hroot.
Qed.


Lemma create_zip_success self d i version s :
  zip_fault (faults d) = None ->
  force self = true ∨ fs s !! archive_path self i version = None ->
  let zs := _create_zip self d (release_path self ++ [entry_name d])
              (Some i) version s in
  zs.1 = inr tt ∧ same_locals s zs.2
  ∧ fs zs.2 = <[archive_path self i version
                := ZipArchive (archive_members self d)]> (fs s)
  ∧ opened zs.2 = opened s ++ [archive_path self i version]
  ∧ stdout zs.2 = stdout s ++ [CreatedZip i (fmt version)].
Proof.
  intros Hflt Hwrite zs. subst zs.
  pose proof (create_zip_some self d i version s) as H. cbn zeta in H.
  rewrite Hflt in H.
  rewrite (bool_decide_eq_false_2 (None = Some FailMkdir)) in H by done.
  rewrite (bool_decide_eq_false_2 (None = Some FailOpen)) in H by done.
  assert (bool_decide (is_Some (fs s !! archive_path self i version))
          && negb (force self) = false) as Hc.
  { destruct Hwrite as [-> | ->]; [apply andb_false_r|].
    rewrite bool_decide_eq_false_2; [done|]. by intros [? ?]. }
  rewrite Hc in H.
  destruct H as (Hloc & Hop & ms & Hfs & _ & Hok & _ & Hr).
  assert ((_create_zip self d (release_path self ++ [entry_name d]) (Some i)
             version s).1 = inr tt) as Hres by (by apply Hr).
  destruct (Hok Hres) as [-> Hout]. done.
Qed.

Lemma after_decision_opened self d m i s :
  get m "id" = Some i ->
  zip_fault (faults d) = None ->
  force self = true ∨ fs s !! archive_path self i (get m "version") = None ->
  ∃ rest, opened (after_decision self d m s).2
          = opened s ++ archive_path self i (get m "version") :: rest.
Proof.
  intros Hid Hflt Hwrite. unfold after_decision. rewrite Hid.
  destruct (create_zip_success self d i (get m "version") s Hflt Hwrite)
    as (Hr & _ & _ & Hop & _).
  unfold_monad.
  destruct (_create_zip self d (release_path self ++ [entry_name d]) (Some i)
              (get m "version") s) as [[e|[]] s1]; [done|].
  cbn [fst snd] in *.
  destruct (copy_assets_preserves grows self d m write_file_grows s1)
    as (_ & [k Hk] & _).
  unfold final in Hk.
  destruct (_copy_assets self d m s1) as [[e|[]] s2]; cbn [fst snd] in *;
    exists k; cbn [opened with_changed]; by rewrite Hk, Hop, <- app_assoc.
Qed.

(** C5, amended. With force set, a package whose manifest carries an id
    without apostrophe that has an entry in the catalog is decided
    [Replace] whatever the entry's version; and the archiver, given no
    I/O failure, then opens the archive for that id and version for
    writing and leaves it holding the package's files, whether or not
    such a file existed before. *)
Theorem forced_package_is_replaced_and_rearchived (self : Generator)
    (d : ReleaseEntry) (m e : Element) (i : string) (s : State) :
  force self = true ->
  manifest d = inr m ->
  get m "id" = Some i ->
  quote_free i = true ->
  entry_for (root s) i e ->
  zip_fault (faults d) = None ->
  trace (process_body self d s).2 = trace s ++ [(entry_name d, Replace)]
  ∧ (∃ rest, opened (process_body self d s).2
             = opened s ++ archive_path self i (get m "version") :: rest)
  ∧ ∀ s0,
      let zs := _create_zip self d (release_path self ++ [entry_name d])
                  (get m "id") (get m "version") s0 in
      zs.1 = inr tt
      ∧ fs zs.2 !! archive_path self i (get m "version")
        = Some (ZipArchive (archive_members self d))
      ∧ opened zs.2 = opened s0 ++ [archive_path self i (get m "version")].
Proof.
  intros Hforce Hm Hid Hq He Hflt.
  assert (quote_free (fmt (get m "id")) = true) as Hq' by (by rewrite Hid).
  assert (reconcile (root s) (get m "id") (get m "version") (force self) = Replace)
    as Hdec.
  { apply find_addon_entry_for in He as (j & Hj).
    unfold reconcile. rewrite Hid, Hj, Hforce. by rewrite andb_false_r. }
  rewrite (process_body_parsed _ _ _ _ Hm Hq'), Hdec.
  destruct (after_decision_spec self d m (decided self d m s)) as (_ & Htr & _).
  destruct (decided_frame self d m s) as (_ & Hop & _).
  split_and!.
  - by rewrite Htr, decided_trace, Hdec.
  - rewrite <- Hop. apply after_decision_opened; auto.
  - intros s0 zs. subst zs. rewrite Hid.
    destruct (create_zip_success self d i (get m "version") s0 Hflt (or_introl Hforce))
      as (Hr & _ & Hfs & Hop' & _).
    split_and!; [done | | done]. rewrite Hfs. apply lookup_insert_eq.
Qed.

Lemma forced_package_is_replaced_and_rearchived_witness :
  let self := sample_generator true in
  let m := addon_xml "foo" "1.0" in
  let d := sample_package "foo" (XmlDoc m) no_faults in
  let s := with_root (λ _, Elem "addons" [] None [m])
             (initial {[ archive_path self "foo" (Some "1.0") := ZipArchive [] ]}) in
  force self = true ∧ manifest d = inr m ∧ get m "id" = Some "foo"
  ∧ quote_free "foo" = true
  ∧ entry_for (root s) "foo" m ∧ zip_fault (faults d) = None
  ∧ trace (process_body self d s).2 = trace s ++ [(entry_name d, Replace)].
Proof.
  cbn zeta.
  assert (entry_for
            (root (with_root (λ _, Elem "addons" [] None [addon_xml "foo" "1.0"])
                     (initial {[ archive_path (sample_generator true) "foo"
                                   (Some "1.0") := ZipArchive [] ]})))
            "foo" (addon_xml "foo" "1.0")) as He.
  { exists [], []. split_and!; [reflexivity | by split |].
    intros x Hx. by apply elem_of_nil in Hx. }
  pose proof (forced_package_is_replaced_and_rearchived (sample_generator true)
                (sample_package "foo" (XmlDoc (addon_xml "foo" "1.0")) no_faults)
                (addon_xml "foo" "1.0") (addon_xml "foo" "1.0") "foo" _
                eq_refl eq_refl eq_refl eq_refl He eq_refl) as H.
  split_and!; [reflexivity | reflexivity | reflexivity | reflexivity | exact He
              | reflexivity | exact (proj1 H)].
Defined.

(** C5 as stated fails: with force set, a package whose manifest has no
    [id] is decided [Replace] against the entry whose id is the text
    [None], but building the archive path raises and no archive is
    written. *)
Lemma forced_package_without_id_is_not_archived :
  let self := sample_generator true in
  let m := Elem "addon" [("version", "1.0")] None [] in
  let d := sample_package "foo" (XmlDoc m) no_faults in
  let s := with_root (λ _, Elem "addons" [] None [addon_xml "None" "1.0"])
             (initial ∅) in
  let rs := process_package self d s in
  force self = true
  ∧ manifest d = inr m
  ∧ trace rs.2 = [("foo", Replace)]
  ∧ stdout rs.2 = [ErrorProcessing "foo" TypeError]
  ∧ opened rs.2 = []
  ∧ fs rs.2 = fs s.
Proof. cbn zeta. split_and!; reflexivity. Qed.


(** ** Manifests that lack an attribute *)

Lemma decided_children_snoc self d m s :
  reconcile (root s) (get m "id") (get m "version") (force self) ≠ Skip ->
  ∃ cs, children (root (decided self d m s)) = cs ++ [m].
Proof.
  rewrite decided_root. unfold reconcile.
  destruct (find_addon (root s) (get m "id")) as [[j e]|].
  - destruct (bool_decide (get e "version" = get m "version") && negb (force self));
      [done|].
    intros _. by eexists.
  - intros _. by eexists.
Qed.

Lemma process_package_not_skipped self d m s :
  manifest d = inr m ->
  quote_free (fmt (get m "id")) = true ->
  reconcile (root s) (get m "id") (get m "version") (force self) ≠ Skip ->
  process_body self d s = after_decision self d m (decided self d m s).
Proof.
  intros Hm Hq Hdec. rewrite (process_body_parsed _ _ _ _ Hm Hq).
  by destruct (reconcile (root s) (get m "id") (get m "version") (force self)).
Qed.

(** C3, amended. A package whose manifest lacks [id] and that is not
    skipped has its entry appended to the catalog in memory and then fails
    when the archive path is built: the [TypeError] is reported for that
    package, nothing is written and the dirty flag is not set.  A package
    whose manifest lacks only [version], with an id without apostrophe,
    is not rejected: unless skipped it is archived, given no I/O failure,
    under the name made from its id and [None].  Either way the loop goes
    on with the packages that remain. *)
Theorem manifest_missing_id_or_version (self : Generator) (d : ReleaseEntry)
    (m : Element) (s : State) :
  manifest d = inr m ->
  ¬ up_to_date self (root s) m ->
  (get m "id" = None ->
   (process_package self d s).1 = inr tt
   ∧ stdout (process_package self d s).2
     = stdout s ++ [ErrorProcessing (entry_name d) TypeError]
   ∧ fs (process_package self d s).2 = fs s
   ∧ opened (process_package self d s).2 = opened s
   ∧ changed (process_package self d s).2 = changed s
   ∧ ∃ cs, children (root (process_package self d s).2) = cs ++ [m])
  ∧ (∀ i, get m "id" = Some i -> quote_free i = true ->
          get m "version" = None ->
          zip_fault (faults d) = None ->
          force self = true ∨ fs s !! archive_path self i None = None ->
          archive_path self i None = pdiv (pdiv (zips_path self) i) (i ++ "-None.zip")
          ∧ ∃ rest, opened (process_body self d s).2
                    = opened s ++ archive_path self i None :: rest)
  ∧ (∀ before after s0,
       final (for_each (process_package self) before) s0 = s ->
       for_each (process_package self) (before ++ d :: after) s0
       = for_each (process_package self) after
           (final (process_package self d) s)).
Proof.
  intros Hm Hnot.
  assert (reconcile (root s) (get m "id") (get m "version") (force self) ≠ Skip)
    as Hdec by (by rewrite reconcile_Skip_up_to_date).
  split_and!.
  - intros Hid.
    assert (quote_free (fmt (get m "id")) = true) as Hq by (by rewrite Hid).
    rewrite (process_package_parsed _ _ _ _ Hm),
      (process_package_not_skipped _ _ _ _ Hm Hq Hdec).
    unfold after_decision. rewrite Hid. unfold_monad.
    rewrite create_zip_none. cbn [fst snd stdout fs opened changed root with_stdout].
    destruct (decided_frame self d m s) as (-> & -> & -> & ->).
    split_and!; try done.
    by apply decided_children_snoc.
  - intros i Hid Hq Hv Hflt Hwrite. split; [done|].
    assert (quote_free (fmt (get m "id")) = true) as Hq' by (by rewrite Hid).
    rewrite (process_package_not_skipped _ _ _ _ Hm Hq' Hdec).
    destruct (decided_frame self d m s) as (Hfs & Hop & _).
    rewrite <- Hop, <- Hv. apply after_decision_opened; [done | done |].
    by rewrite Hfs, Hv.
  - intros before after s0 Hs. by rewrite for_each_app, Hs, for_each_cons.
Qed.

Lemma manifest_missing_id_or_version_witness :
  let self := sample_generator false in
  let m := Elem "addon" [("version", "1.0")] None [] in
  let d := sample_package "foo" (XmlDoc m) no_faults in
  manifest d = inr m
  ∧ ¬ up_to_date self (root (initial ∅)) m
  ∧ get m "id" = None
  ∧ stdout (process_package self d (initial ∅)).2
    = stdout (initial ∅) ++ [ErrorProcessing (entry_name d) TypeError]
  ∧ fs (process_package self d (initial ∅)).2 = fs (initial ∅).
Proof.
  cbn zeta.
  assert (¬ up_to_date (sample_generator false) (root (initial ∅))
              (Elem "addon" [("version", "1.0")] None [])) as Hnot.
  { intros (e & (pre & post & Hcs & _) & _). by destruct pre. }
  pose proof (proj1 (manifest_missing_id_or_version (sample_generator false)
                (sample_package "foo"
                   (XmlDoc (Elem "addon" [("version", "1.0")] None [])) no_faults)
                (Elem "addon" [("version", "1.0")] None []) (initial ∅)
                eq_refl Hnot) eq_refl) as H.
  split_and!; [reflexivity | exact Hnot | reflexivity
              | exact (proj1 (proj2 H)) | exact (proj1 (proj2 (proj2 H)))].
Defined.

(** C3 as stated fails: a manifest without [version] is processed like any
    other; no error is reported, an archive named after [None] is written
    and the catalog is marked dirty. *)
Lemma missing_version_is_not_an_error :
  let self := sample_generator false in
  let m := Elem "addon" [("id", "foo")] None [] in
  let d := sample_package "foo" (XmlDoc m) no_faults in
  let rs := process_package self d (initial ∅) in
  manifest d = inr m ∧ get m "version" = None
  ∧ stdout rs.2 = [CreatedZip "foo" "None"]
  ∧ Forall (λ msg, is_error msg = false) (stdout rs.2)
  ∧ trace rs.2 = [("foo", Insert)]
  ∧ changed rs.2 = true
  ∧ opened rs.2 = [ ["omega"; "zips"; "foo"; "foo-None.zip"];
                    ["omega"; "zips"; "foo"; "addon.xml"] ].
Proof.
  cbn zeta. split_and!; try (vm_compute; reflexivity).
  vm_compute. repeat constructor.
Qed.


(** ** A package that fails after the decision *)

Lemma body_raises_not_skipped self d m s e s1 :
  manifest d = inr m ->
  quote_free (fmt (get m "id")) = true ->
  process_body self d s = (inl e, s1) ->
  reconcile (root s) (get m "id") (get m "version") (force self) ≠ Skip
  ∧ after_decision self d m (decided self d m s) = (inl e, s1).
Proof.
  intros Hm Hq. rewrite (process_body_parsed _ _ _ _ Hm Hq).
  by destruct (reconcile (root s) (get m "id") (get m "version") (force self)).
Qed.

Lemma decided_keeps_member self d m s x :
  ¬ is_entry_for (fmt (get m "id")) x ->
  x ∈ children (root s) -> x ∈ children (root (decided self d m s)).
Proof.
  intros Hx Hin. rewrite decided_root. unfold find_addon.
  destruct (find_from (fmt (get m "id")) 0 (children (root s)))
    as [[j e]|] eqn:Hfind.
  - destruct (bool_decide (get e "version" = get m "version") && negb (force self));
      [done|].
    destruct (find_from_Some _ _ _ _ _ Hfind) as (pre & post & Hcs & -> & He & _).
    cbn [append_child remove_child set_children children plus].
    rewrite Hcs, delete_middle. rewrite Hcs in Hin.
    apply elem_of_app. left.
    apply elem_of_app in Hin as [Hin|Hin]; [apply elem_of_app; by left|].
    apply elem_of_cons in Hin as [->|Hin]; [done|].
    apply elem_of_app. by right.
  - cbn [append_child set_children children]. apply elem_of_app. by left.
Qed.

Lemma process_package_keeps_member self d x :
  manifest_quote_free d = true ->
  (∀ m, manifest d = inr m -> ¬ is_entry_for (fmt (get m "id")) x) ->
  preserves (keeps (λ st, x ∈ children (root st))) (process_package self d).
Proof.
  intros Hq Hd s Hin.
  destruct (process_package_root self d s Hq) as [-> | (m & Hm & ->)]; [done|].
  apply decided_keeps_member; auto.
Qed.

Lemma create_zip_returns_archive self d i version s :
  (_create_zip self d (release_path self ++ [entry_name d]) (Some i) version s).1
  = inr tt ->
  is_Some (fs (_create_zip self d (release_path self ++ [entry_name d])
                 (Some i) version s).2 !! archive_path self i version).
Proof.
  pose proof (create_zip_some self d i version s) as H. cbn zeta in H.
  case_bool_decide; [by rewrite H|].
  destruct (bool_decide (is_Some (fs s !! archive_path self i version))
            && negb (force self)) eqn:Hc.
  { rewrite H. intros _. cbn [snd fs with_stdout].
    apply andb_true_iff in Hc as [Hex _]. by apply bool_decide_eq_true in Hex. }
  case_bool_decide; [by rewrite H|].
  destruct H as (_ & _ & ms & -> & _). intros _.
  rewrite lookup_insert_eq. eauto.
Qed.

Lemma create_zip_raises_frame self d i version s e :
  (_create_zip self d (release_path self ++ [entry_name d]) (Some i) version s).1
  = inl e ->
  stdout (_create_zip self d (release_path self ++ [entry_name d])
            (Some i) version s).2 = stdout s
  ∧ ∀ p, p ≠ archive_path self i version ->
         fs (_create_zip self d (release_path self ++ [entry_name d])
               (Some i) version s).2 !! p = fs s !! p.
Proof.
  pose proof (create_zip_some self d i version s) as H. cbn zeta in H.
  case_bool_decide; [by rewrite H|].
  destruct (bool_decide (is_Some (fs s !! archive_path self i version))
            && negb (force self)); [by rewrite H|].
  case_bool_decide; [by rewrite H|].
  destruct H as (_ & _ & ms & -> & _ & _ & Hout & _). intros He.
  split; [by eapply Hout|]. intros p Hp. by rewrite lookup_insert_ne.
Qed.

(** C10, amended. When archiving or asset publishing raises for a package
    whose id has no apostrophe, its manifest is already the last child of
    the catalog in memory and stays there, and the package does not mark
    the catalog dirty.  The entry remains through the rest of the loop as
    long as no later package carries the same id (nor an id with an
    apostrophe), and is then written with the catalog whenever the
    catalog is dirty at the end and writing it does not fail.  If it was
    archiving that raised, nothing was printed for the package and no
    file but its archive can have changed; if archiving returned and
    publishing raised, the package's archive is on disk. *)
Theorem failed_package_entry_is_kept (self : Generator) (d : ReleaseEntry)
    (m : Element) (s s1 : State) (e : Exn) :
  manifest d = inr m ->
  quote_free (fmt (get m "id")) = true ->
  process_body self d s = (inl e, s1) ->
  (∃ cs, children (root s1) = cs ++ [m])
  ∧ changed s1 = changed s
  ∧ (∀ after,
       quote_free_ids after ->
       (∀ q mq, q ∈ after -> manifest q = inr mq ->
                ¬ is_entry_for (fmt (get mq "id")) m) ->
       let s2 := final (for_each (process_package self) after)
                   (with_stdout (ErrorProcessing (entry_name d) e) s1) in
       m ∈ children (root s2)
       ∧ (changed s2 = true ->
          persist_fault self ≠ Some FailWriteCatalog ->
          ∃ doc, fs (persist self s2).2 !! addons_xml_path self = Some (XmlDoc doc)
                 ∧ m ∈ children doc))
  ∧ (∀ i, get m "id" = Some i ->
       ∃ s0, fs s0 = fs s ∧ stdout s0 = stdout s ∧ opened s0 = opened s
             ∧ let zs := _create_zip self d (release_path self ++ [entry_name d])
                           (Some i) (get m "version") s0 in
               match zs.1 with
               | inl _ =>
                   s1 = zs.2 ∧ stdout s1 = stdout s
                   ∧ ∀ p, p ≠ archive_path self i (get m "version") ->
                          fs s1 !! p = fs s !! p
               | inr _ => is_Some (fs s1 !! archive_path self i (get m "version"))
               end).
Proof.
  intros Hm Hq Hbody.
  destruct (body_raises_not_skipped _ _ _ _ _ _ Hm Hq Hbody) as [Hdec Hafter].
  destruct (after_decision_spec self d m (decided self d m s))
    as (Hroot & _ & _ & Hch).
  rewrite Hafter in Hroot, Hch. cbn [fst snd] in Hroot, Hch.
  destruct (decided_frame self d m s) as (Hfs & Hopn & Hout & Hch').
  assert (∃ cs, children (root s1) = cs ++ [m]) as Hlast.
  { rewrite Hroot. by apply decided_children_snoc. }
  split_and!; [done | congruence | |].
  - intros after Hqs Hafter_ids s2.
    assert (m ∈ children (root s2)) as Hin.
    { apply (preserves_for_each_in (keeps (λ st, m ∈ children (root st)))
               self after).
      - intros q Hin. apply process_package_keeps_member.
        + unfold quote_free_ids in Hqs. rewrite Forall_forall in Hqs. by apply Hqs.
        + intros mq. by apply Hafter_ids.
      - destruct Hlast as [cs Hcs]. cbn [root with_stdout]. rewrite Hcs.
        apply elem_of_app. right. by left. }
    split; [done|]. intros Hdirty Hflt.
    destruct (persist_dirty self s2 Hdirty Hflt) as [_ Hdoc].
    eexists. split; [exact Hdoc|]. cbn [children set_children].
    by rewrite sorted_Permutation.
  - intros i Hid. exists (decided self d m s).
    split; [done|]. split; [done|]. split; [done|]. cbn zeta.
    unfold after_decision in Hafter. rewrite Hid in Hafter.
    unfold mbind at 1 in Hafter. unfold M_bind at 1 in Hafter.
    pose proof (create_zip_returns_archive self d i (get m "version")
                  (decided self d m s)) as Hret.
    pose proof (create_zip_raises_frame self d i (get m "version")
                  (decided self d m s)) as Hraise.
    destruct (_create_zip self d (release_path self ++ [entry_name d]) (Some i)
                (get m "version") (decided self d m s)) as [[e'|[]] sz];
      cbn [fst snd] in *.
    + injection Hafter as <- <-.
      destruct (Hraise e' eq_refl) as [Ho Hf].
      split_and!; [done | congruence |]. intros p Hp. rewrite Hf by done.
      by rewrite Hfs.
    + unfold_monad.
      destruct (copy_assets_preserves grows self d m write_file_grows sz)
        as (_ & _ & Hgrow).
      unfold final in Hgrow.
      destruct (_copy_assets self d m sz) as [[e'|[]] sc]; [|done].
      cbn [fst snd] in *. injection Hafter as <- <-. by apply Hgrow, Hret.
Qed.

Lemma failed_package_entry_is_kept_witness :
  let self := sample_generator false in
  let m := addon_xml_with_asset "foo" "1.0" "lib" in
  let d := sample_package "foo" (XmlDoc m) no_faults in
  let s1 := (process_body self d (initial ∅)).2 in
  manifest d = inr m
  ∧ quote_free (fmt (get m "id")) = true
  ∧ process_body self d (initial ∅) = (inl OSError, s1)
  ∧ (∃ cs, children (root s1) = cs ++ [m])
  ∧ changed s1 = changed (initial ∅).
Proof.
  cbn zeta.
  assert (process_body (sample_generator false)
            (sample_package "foo" (XmlDoc (addon_xml_with_asset "foo" "1.0" "lib"))
               no_faults) (initial ∅)
          = (inl OSError,
             (process_body (sample_generator false)
                (sample_package "foo"
                   (XmlDoc (addon_xml_with_asset "foo" "1.0" "lib")) no_faults)
                (initial ∅)).2)) as Hbody.
  { rewrite (surjective_pairing (process_body _ _ _)) at 1.
    f_equal; vm_compute; reflexivity. }
  pose proof (failed_package_entry_is_kept (sample_generator false)
                (sample_package "foo"
                   (XmlDoc (addon_xml_with_asset "foo" "1.0" "lib")) no_faults)
                (addon_xml_with_asset "foo" "1.0" "lib") (initial ∅) _ OSError
                eq_refl eq_refl Hbody) as H.
  split_and!; [reflexivity | reflexivity | exact Hbody | exact (proj1 H)
              | exact (proj1 (proj2 H))].
Defined.

(** C10 as stated fails: when it is asset publishing that raises, the
    package's archive has been written by then. *)
Lemma failed_publishing_leaves_new_archive :
  let self := sample_generator false in
  let m := addon_xml_with_asset "foo" "1.0" "lib" in
  let d := sample_package "foo" (XmlDoc m) no_faults in
  let rs := process_package self d (initial ∅) in
  (process_body self d (initial ∅)).1 = inl OSError
  ∧ stdout rs.2 = [CreatedZip "foo" "1.0"; ErrorProcessing "foo" OSError]
  ∧ children (root rs.2) = [m]
  ∧ changed rs.2 = false
  ∧ fs (initial ∅) !! archive_path self "foo" (Some "1.0") = None
  ∧ fs rs.2 !! archive_path self "foo" (Some "1.0")
    = Some (ZipArchive [ (["foo"; "addon.xml"], XmlDoc m);
                         (["foo"; "lib"; "main.py"], Text "import xbmc") ])
  ∧ archive_path self "foo" (Some "1.0") ∈ opened rs.2.
Proof.
  cbn zeta. split_and!; try (vm_compute; reflexivity).
  vm_compute. left.
Qed.


(** * Properties beyond the specification *)

(** ** The sort of the catalog *)

Lemma insert_by_key_with_key k x l :
  with_key k (insert_by_key x l) = with_key k (x :: l).
Proof.
  unfold with_key. induction l as [|y l IH]; cbn [insert_by_key]; [done|].
  destruct (String.leb (sort_key x) (sort_key y)) eqn:Hxy; [done|].
  rewrite (filter_cons _ y), IH, !filter_cons.
  destruct (decide (sort_key y = k)) as [Hy|Hy];
    destruct (decide (sort_key x = k)) as [Hx|Hx]; try done.
  exfalso. rewrite Hy, Hx in Hxy.
  pose proof (proj2 (string_leb_iff k k) (or_intror eq_refl)). congruence.
Qed.

Lemma insert_by_key_head x l :
  Forall (key_le x) l -> insert_by_key x l = x :: l.
Proof.
  destruct l as [|y l]; [done|]. intros [Hxy _]%Forall_cons.
  cbn [insert_by_key]. unfold key_le in Hxy. by rewrite Hxy.
Qed.

(** X1. The sort applied to the catalog before it is written is a stable
    sort: its result is ordered by key, holds the same children, keeps
    the children of equal key in their order, and leaves an ordered list
    as it is. *)
Theorem sorted_is_stable_sort (l : list Element) :
  StronglySorted key_le (sorted l)
  ∧ sorted l ≡ₚ l
  ∧ (∀ k, with_key k (sorted l) = with_key k l)
  ∧ (StronglySorted key_le l -> sorted l = l).
Proof.
  split_and!.
  - apply sorted_StronglySorted.
  - apply sorted_Permutation.
  - intros k. induction l as [|x l IH]; [done|].
    cbn [sorted foldr]. fold (sorted l).
    rewrite insert_by_key_with_key. unfold with_key in *.
    by rewrite !filter_cons, IH.
  - induction 1 as [|x l Hl IH Hx]; [done|].
    cbn [sorted foldr]. fold (sorted l). rewrite IH.
    by apply insert_by_key_head.
Qed.

Lemma sorted_is_stable_sort_witness :
  let l := [addon_xml "bar" "0.1"; addon_xml "foo" "1.0"] in
  StronglySorted key_le l ∧ sorted l = l.
Proof.
  cbn zeta.
  assert (StronglySorted key_le [addon_xml "bar" "0.1"; addon_xml "foo" "1.0"])
    as H.
  { repeat constructor. }
  split; [exact H|].
  exact (proj2 (proj2 (proj2 (sorted_is_stable_sort _))) H).
Defined.


(** ** The catalog after one package *)

Lemma filter_no_entry key cs :
  (∀ x, x ∈ cs -> ¬ is_entry_for key x) -> filter (is_entry_for key) cs = [].
Proof.
  induction cs as [|x cs IH]; intros H; [done|].
  rewrite filter_cons_False by (apply H; by left).
  apply IH. intros y Hy. apply H. by right.
Qed.

Lemma entry_for_head_filter catalog i e :
  entry_for catalog i e
  <-> head (filter (is_entry_for i) (children catalog)) = Some e.
Proof.
  unfold entry_for. generalize (children catalog). intros cs. split.
  - intros (pre & post & -> & He & Hpre).
    rewrite filter_app, filter_cons_True by done.
    by rewrite (filter_no_entry _ _ Hpre).
  - induction cs as [|x cs IH]; [done|]. rewrite filter_cons.
    destruct (decide (is_entry_for i x)) as [Hx|Hx].
    + intros [= ->]. exists [], cs. split_and!; [done | done |].
      intros y Hy. by apply elem_of_nil in Hy.
    + intros (pre & post & -> & He & Hpre)%IH.
      exists (x :: pre), post. split_and!; [done | done |].
      intros y [->|Hy]%elem_of_cons; [done|by apply Hpre].
Qed.

Lemma first_entry_split key cs j e :
  find_from key 0 cs = Some (j, e) ->
  ∃ pre post, cs = pre ++ e :: post ∧ j = length pre ∧ is_entry_for key e
              ∧ filter (is_entry_for key) pre = [].
Proof.
  intros (pre & post & -> & -> & He & Hpre)%find_from_Some.
  exists pre, post. split_and!; [done | done | done |].
  by apply filter_no_entry.
Qed.

Lemma unique_ids_no_second key pre e post :
  NoDup (entry_ids (pre ++ e :: post)) -> is_entry_for key e ->
  filter (is_entry_for key) post = [].
Proof.
  intros Hnd He. unfold entry_ids in Hnd. rewrite omap_app in Hnd.
  apply NoDup_app in Hnd as (_ & _ & Hnd). cbn in Hnd.
  apply entry_id_Some in He. rewrite He in Hnd.
  apply NoDup_cons in Hnd as [Hkey _].
  induction post as [|x post IH]; [done|].
  rewrite filter_cons. destruct (decide (is_entry_for key x)) as [Hx|Hx].
  - exfalso. apply Hkey. apply entry_id_Some in Hx. cbn. rewrite Hx. by left.
  - apply IH. intros Hin. apply Hkey. cbn. destruct (entry_id x); [by right|done].
Qed.

(** X2. A package that is inserted or replaced is afterwards the entry the
    catalog has for its id, whether or not archiving and publishing then
    fail: given a manifest whose root is an [addon] element with an id
    without apostrophe, and a catalog without duplicate ids, looking the
    id up again finds that very manifest, and the catalog still has no
    duplicate ids. *)
Theorem processed_manifest_is_found_again (self : Generator) (d : ReleaseEntry)
    (m : Element) (i : string) (s : State) :
  manifest d = inr m ->
  tag m = "addon" ->
  get m "id" = Some i ->
  quote_free i = true ->
  unique_ids s ->
  ¬ up_to_date self (root s) m ->
  let s' := final (process_package self d) s in
  entry_for (root s') i m
  ∧ (∃ j, root_find (quoted_find self) (root s') (get m "id")
          = inr (Some (Child j m)))
  ∧ unique_ids s'.
Proof.
  intros Hm Htag Hid Hq Hu Hnot s'. subst s'.
  assert (quote_free (fmt (get m "id")) = true) as Hq' by (by rewrite Hid).
  assert (reconcile (root s) (get m "id") (get m "version") (force self) ≠ Skip)
    as Hdec by (by rewrite reconcile_Skip_up_to_date).
  assert (is_entry_for i m) as Hent by done.
  assert (entry_for (root (final (process_package self d) s)) i m) as Hfor.
  { rewrite (process_package_root_parsed _ _ _ _ Hm Hq').
    apply entry_for_head_filter. rewrite decided_root.
    unfold reconcile in Hdec. unfold find_addon in *. rewrite Hid in *.
    cbn [fmt] in *.
    destruct (find_from i 0 (children (root s))) as [[j e]|] eqn:Hfind.
    - destruct (bool_decide (get e "version" = get m "version")
                && negb (force self)); [done|].
      destruct (first_entry_split _ _ _ _ Hfind)
        as (pre & post & Hcs & -> & He & Hpre).
      cbn [append_child remove_child set_children children].
      rewrite Hcs, delete_middle, !filter_app, Hpre.
      unfold unique_ids in Hu. rewrite Hcs in Hu.
      rewrite (unique_ids_no_second _ _ _ _ Hu He).
      by rewrite filter_cons_True.
    - cbn [append_child set_children children]. rewrite filter_app.
      assert (filter (is_entry_for i) (children (root s)) = []) as ->.
      { apply filter_no_entry. exact (proj1 (find_from_None _ _ _) Hfind). }
      by rewrite filter_cons_True. }
  split_and!; [done | |].
  - apply find_addon_entry_for in Hfor as [j Hj]. exists j.
    rewrite (root_find_quote_free _ _ _ Hq'), Hid. by rewrite Hj.
  - apply process_package_unique_ids; [|done].
    unfold manifest_quote_free. by rewrite Hm.
Qed.

Lemma processed_manifest_is_found_again_witness :
  let self := sample_generator false in
  let m := addon_xml "foo" "2.0" in
  let d := sample_package "foo" (XmlDoc m) no_faults in
  let s := with_root (λ _, Elem "addons" [] None
                             [addon_xml "bar" "0.1"; addon_xml "foo" "1.0"])
             (initial ∅) in
  manifest d = inr m ∧ tag m = "addon" ∧ get m "id" = Some "foo"
  ∧ quote_free "foo" = true
  ∧ unique_ids s
  ∧ ¬ up_to_date self (root s) m
  ∧ entry_for (root (final (process_package self d) s)) "foo" m.
Proof.
  cbn zeta.
  assert (unique_ids (with_root (λ _, Elem "addons" [] None
                                        [addon_xml "bar" "0.1"; addon_xml "foo" "1.0"])
                        (initial ∅))) as Hu.
  { unfold unique_ids. apply (bool_decide_unpack _). vm_compute. exact I. }
  assert (¬ up_to_date (sample_generator false)
              (root (with_root (λ _, Elem "addons" [] None
                                       [addon_xml "bar" "0.1"; addon_xml "foo" "1.0"])
                       (initial ∅)))
              (addon_xml "foo" "2.0")) as Hdec.
  { rewrite <- reconcile_Skip_up_to_date. done. }
  split_and!; [reflexivity | reflexivity | reflexivity | reflexivity | exact Hu
              | exact Hdec |].
  exact (proj1 (processed_manifest_is_found_again (sample_generator false)
                  (sample_package "foo" (XmlDoc (addon_xml "foo" "2.0")) no_faults)
                  (addon_xml "foo" "2.0") "foo" _ eq_refl eq_refl eq_refl eq_refl
                  Hu Hdec)).
Defined.


Lemma decided_other_entries self d m s i' :
  fmt (get m "id") ≠ i' ->
  filter (is_entry_for i') (children (root (decided self d m s)))
  = filter (is_entry_for i') (children (root s)).
Proof.
  intros Hne. rewrite decided_root. unfold find_addon.
  assert (¬ is_entry_for i' m) as Hm.
  { intros [_ Hid]. apply Hne. by rewrite Hid. }
  destruct (find_from (fmt (get m "id")) 0 (children (root s)))
    as [[j e]|] eqn:Hfind.
  - destruct (bool_decide (get e "version" = get m "version") && negb (force self));
      [done|].
    destruct (first_entry_split _ _ _ _ Hfind) as (pre & post & Hcs & -> & He & _).
    cbn [append_child remove_child set_children children].
    rewrite Hcs, delete_middle, !filter_app.
    rewrite (filter_cons_False _ e), (filter_cons_False _ m), app_nil_r; [done..|].
    intros [_ He']. destruct He as [_ He]. congruence.
  - cbn [append_child set_children children].
    by rewrite filter_app, (filter_cons_False _ m), app_nil_r.
Qed.

(** X3. Processing a package whose id has no apostrophe touches no entry
    of another id: for every id other than the one the package's manifest
    carries (a missing id counting as the text [None]), the catalog's
    entries for that id, and so the entry a lookup finds, are the same
    before and after, whatever the decision and whether or not the
    package fails. *)
Theorem other_ids_are_untouched (self : Generator) (d : ReleaseEntry)
    (s : State) (i' : string) :
  manifest_quote_free d = true ->
  (∀ m, manifest d = inr m -> fmt (get m "id") ≠ i') ->
  let s' := final (process_package self d) s in
  filter (is_entry_for i') (children (root s'))
  = filter (is_entry_for i') (children (root s))
  ∧ ∀ e, entry_for (root s') i' e <-> entry_for (root s) i' e.
Proof.
  intros Hq Hd s'. subst s'.
  assert (filter (is_entry_for i') (children (root (final (process_package self d) s)))
          = filter (is_entry_for i') (children (root s))) as Heq.
  { destruct (process_package_root self d s Hq) as [-> | (m & Hm & ->)]; [done|].
    apply decided_other_entries. by apply Hd. }
  split; [done|]. intros e. by rewrite !entry_for_head_filter, Heq.
Qed.

Lemma other_ids_are_untouched_witness :
  let self := sample_generator false in
  let d := sample_package "foo" (XmlDoc (addon_xml "foo" "2.0")) no_faults in
  let s := with_root (λ _, Elem "addons" [] None
                             [addon_xml "bar" "0.1"; addon_xml "foo" "1.0"])
             (initial ∅) in
  manifest_quote_free d = true
  ∧ (∀ m, manifest d = inr m -> fmt (get m "id") ≠ "bar")
  ∧ filter (is_entry_for "bar") (children (root (final (process_package self d) s)))
    = filter (is_entry_for "bar") (children (root s)).
Proof.
  cbn zeta. split; [reflexivity|].
  assert (∀ m, manifest (sample_package "foo" (XmlDoc (addon_xml "foo" "2.0"))
                           no_faults) = inr m -> fmt (get m "id") ≠ "bar") as H.
  { intros m [= <-]. discriminate. }
  split; [exact H|].
  exact (proj1 (other_ids_are_untouched (sample_generator false)
                  (sample_package "foo" (XmlDoc (addon_xml "foo" "2.0")) no_faults)
                  _ "bar" eq_refl H)).
Defined.

(** X4. For a package whose id has no apostrophe, the number of children
    of the catalog follows the decision the iteration notes: an [Insert]
    adds exactly one, a [Replace] and a [Skip] leave the number as it
    was, whether or not the package then fails. *)
Theorem catalog_size_follows_decision (self : Generator) (d : ReleaseEntry)
    (m : Element) (s : State) :
  manifest d = inr m ->
  quote_free (fmt (get m "id")) = true ->
  ∃ dec,
    trace (final (process_package self d) s) = trace s ++ [(entry_name d, dec)]
    ∧ length (children (root (final (process_package self d) s)))
      = match dec with
        | Insert => S (length (children (root s)))
        | _ => length (children (root s))
        end.
Proof.
  intros Hm Hq.
  exists (reconcile (root s) (get m "id") (get m "version") (force self)).
  split; [by apply process_package_trace_parsed|].
  rewrite (process_package_root_parsed _ _ _ _ Hm Hq), decided_root.
  unfold reconcile, find_addon.
  destruct (find_from (fmt (get m "id")) 0 (children (root s)))
    as [[j e]|] eqn:Hfind.
  - destruct (bool_decide (get e "version" = get m "version") && negb (force self));
      [done|].
    destruct (first_entry_split _ _ _ _ Hfind) as (pre & post & Hcs & -> & _).
    cbn [append_child remove_child set_children children].
    rewrite Hcs, delete_middle, !length_app. cbn. lia.
  - cbn [append_child set_children children]. rewrite length_app. cbn. lia.
Qed.

Lemma catalog_size_follows_decision_witness :
  let self := sample_generator false in
  let m := addon_xml "foo" "2.0" in
  let d := sample_package "foo" (XmlDoc m) no_faults in
  let s := with_root (λ _, Elem "addons" [] None
                             [addon_xml "bar" "0.1"; addon_xml "foo" "1.0"])
             (initial ∅) in
  manifest d = inr m
  ∧ quote_free (fmt (get m "id")) = true
  ∧ ∃ dec,
      trace (final (process_package self d) s) = trace s ++ [(entry_name d, dec)]
      ∧ length (children (root (final (process_package self d) s)))
        = match dec with
          | Insert => S (length (children (root s)))
          | _ => length (children (root s))
          end.
Proof.
  cbn zeta. split; [reflexivity|]. split; [reflexivity|].
  exact (catalog_size_follows_decision (sample_generator false)
           (sample_package "foo" (XmlDoc (addon_xml "foo" "2.0")) no_faults)
           (addon_xml "foo" "2.0")
           (with_root (λ _, Elem "addons" [] None
                              [addon_xml "bar" "0.1"; addon_xml "foo" "1.0"])
              (initial ∅)) eq_refl eq_refl).
Defined.


(** ** The archive of a package *)

Lemma archive_members_elem self d n data :
  (n, data) ∈ archive_members self d
  <-> ∃ rel, n = entry_name d :: rel
             ∧ (rel, File data) ∈ tree d
             ∧ _should_ignore (release_path self ++ entry_name d :: rel) = inr false.
Proof.
  unfold archive_members. rewrite list_elem_of_omap. split.
  - intros ([rel node] & Hin & Hm). unfold archive_member in Hm.
    cbn [fst snd] in Hm. destruct node as [data'|]; [|done].
    destruct (ignored _) eqn:Hig; [done|]. injection Hm as <- <-.
    exists rel. split_and!; [done | done |]. by rewrite should_ignore_total, Hig.
  - intros (rel & -> & Hin & Hig). exists (rel, File data). split; [done|].
    unfold archive_member. cbn [fst snd].
    rewrite should_ignore_total in Hig. injection Hig as ->. done.
Qed.

(** X5. When the archiver runs to the end, the archive holds exactly the
    listed files of the package directory that the ignore filter keeps,
    the filter being applied to the file's whole path: a file is a member
    if and only if it is listed, is a regular file and is not ignored, and
    it is stored under the directory's name followed by its path inside
    the directory. *)
Theorem archive_holds_exactly_the_kept_files (self : Generator)
    (d : ReleaseEntry) (i : string) (version : option string) (s : State) :
  zip_fault (faults d) = None ->
  force self = true ∨ fs s !! archive_path self i version = None ->
  let zs := _create_zip self d (release_path self ++ [entry_name d])
              (Some i) version s in
  zs.1 = inr tt
  ∧ ∃ ms, fs zs.2 !! archive_path self i version = Some (ZipArchive ms)
          ∧ ∀ n data,
              (n, data) ∈ ms
              <-> ∃ rel, n = entry_name d :: rel
                         ∧ (rel, File data) ∈ tree d
                         ∧ _should_ignore
                             (release_path self ++ entry_name d :: rel)
                           = inr false.
Proof.
  intros Hflt Hwrite zs. subst zs.
  destruct (create_zip_success self d i version s Hflt Hwrite)
    as (Hr & _ & Hfs & _).
  split; [done|]. exists (archive_members self d).
  split; [rewrite Hfs; apply lookup_insert_eq|].
  intros n data. apply archive_members_elem.
Qed.

Lemma archive_holds_exactly_the_kept_files_witness :
  let self := sample_generator false in
  let d := sample_package "foo" (XmlDoc (addon_xml "foo" "1.0")) no_faults in
  let zs := _create_zip self d (release_path self ++ [entry_name d])
              (Some "foo") (Some "1.0") (initial ∅) in
  zip_fault (faults d) = None
  ∧ (force self = true
     ∨ fs (initial ∅) !! archive_path self "foo" (Some "1.0") = None)
  ∧ zs.1 = inr tt.
Proof.
  cbn zeta.
  assert (force (sample_generator false) = true
          ∨ fs (initial ∅) !! archive_path (sample_generator false) "foo"
                               (Some "1.0") = None) as H by (right; reflexivity).
  split_and!; [reflexivity | exact H |].
  exact (proj1 (archive_holds_exactly_the_kept_files (sample_generator false)
                  (sample_package "foo" (XmlDoc (addon_xml "foo" "1.0")) no_faults)
                  "foo" (Some "1.0") (initial ∅) eq_refl H)).
Defined.

Lemma reserved_segment_is_ignored (path : Path) (pattern : string) :
  pattern ∈ IGNORE_PATTERNS -> pattern ∈ path -> _should_ignore path = inr true.
Proof.
  intros Hpat Hseg.
  destruct (should_ignore_with_spec IGNORE_PATTERNS path IGNORE_PATTERNS_nonempty)
    as (b & Hb & Hiff).
  unfold _should_ignore. rewrite Hb. f_equal. apply Hiff. exists pattern. auto.
Qed.

(** X6. The filter looks at the whole path of a file, the release
    directory and the package directory included: when one of these is
    named like a configured pattern, every file of the package is ignored
    and the archive is written empty. *)
Theorem reserved_release_path_empties_the_archive (self : Generator)
    (d : ReleaseEntry) (i pattern : string) (version : option string)
    (s : State) :
  pattern ∈ IGNORE_PATTERNS ->
  pattern ∈ release_path self ++ [entry_name d] ->
  zip_fault (faults d) = None ->
  force self = true ∨ fs s !! archive_path self i version = None ->
  let zs := _create_zip self d (release_path self ++ [entry_name d])
              (Some i) version s in
  zs.1 = inr tt
  ∧ fs zs.2 !! archive_path self i version = Some (ZipArchive []).
Proof.
  intros Hpat Hseg Hflt Hwrite zs. subst zs.
  destruct (create_zip_success self d i version s Hflt Hwrite)
    as (Hr & _ & Hfs & _).
  split; [done|]. rewrite Hfs, lookup_insert_eq. do 2 f_equal.
  destruct (archive_members self d) as [|[n data] ms] eqn:Hms; [done|].
  exfalso.
  assert ((n, data) ∈ archive_members self d) as Hin by (rewrite Hms; left).
  apply archive_members_elem in Hin as (rel & _ & _ & Hig).
  rewrite (reserved_segment_is_ignored _ pattern) in Hig; [done | done |].
  rewrite (app_assoc _ [entry_name d] rel). apply elem_of_app. by left.
Qed.

Lemma reserved_release_path_empties_the_archive_witness :
  let self := sample_generator_at ["venv"; "omega"] false in
  let d := sample_package "foo" (XmlDoc (addon_xml "foo" "1.0")) no_faults in
  let zs := _create_zip self d (release_path self ++ [entry_name d])
              (Some "foo") (Some "1.0") (initial ∅) in
  "venv" ∈ IGNORE_PATTERNS
  ∧ "venv" ∈ release_path self ++ [entry_name d]
  ∧ fs zs.2 !! archive_path self "foo" (Some "1.0") = Some (ZipArchive []).
Proof.
  cbn zeta.
  assert ("venv" ∈ IGNORE_PATTERNS) as H1.
  { apply (bool_decide_unpack _). vm_compute. exact I. }
  assert ("venv" ∈ release_path (sample_generator_at ["venv"; "omega"] false)
                   ++ [entry_name (sample_package "foo"
                                     (XmlDoc (addon_xml "foo" "1.0")) no_faults)])
    as H2 by left.
  assert (force (sample_generator_at ["venv"; "omega"] false) = true
          ∨ fs (initial ∅)
              !! archive_path (sample_generator_at ["venv"; "omega"] false)
                   "foo" (Some "1.0") = None) as H4 by (right; reflexivity).
  split_and!; [exact H1 | exact H2 |].
  exact (proj2 (reserved_release_path_empties_the_archive _ _ "foo" "venv"
                  (Some "1.0") (initial ∅) H1 H2 eq_refl H4)).
Defined.

(** X7. An archive once opened is never rewritten without force: after a
    first call that got as far as opening the archive, whether it then
    completed or a write failed, a later call for the same id and version
    with force unset only prints that it skips, so that a truncated
    archive stays as it is. *)
Theorem opened_archive_is_not_repaired (self : Generator)
    (d d' : ReleaseEntry) (i : string) (version : option string) (s : State) :
  force self = false ->
  fs s !! archive_path self i version = None ->
  zip_fault (faults d) ≠ Some FailMkdir ->
  zip_fault (faults d) ≠ Some FailOpen ->
  zip_fault (faults d') ≠ Some FailMkdir ->
  let zs := _create_zip self d (release_path self ++ [entry_name d])
              (Some i) version s in
  let zs' := _create_zip self d' (release_path self ++ [entry_name d'])
               (Some i) version zs.2 in
  zs' = (inr tt, with_stdout (SkippingExisting i (fmt version)) zs.2)
  ∧ ∃ ms, fs zs'.2 !! archive_path self i version = Some (ZipArchive ms)
          ∧ ms `prefix_of` archive_members self d
          ∧ (zs.1 = inr tt -> ms = archive_members self d).
Proof.
  intros Hforce Hnew Hmk Hop Hmk' zs zs'. subst zs zs'.
  pose proof (create_zip_some self d i version s) as H1. cbn zeta in H1.
  rewrite (bool_decide_eq_false_2 _ Hmk), (bool_decide_eq_false_2 _ Hop) in H1.
  rewrite Hnew in H1.
  rewrite (bool_decide_eq_false_2 (is_Some None)) in H1 by (by intros [? ?]).
  cbn [andb] in H1.
  destruct H1 as (_ & _ & ms & Hfs & Hpre & Hok & _).
  assert (fs (_create_zip self d (release_path self ++ [entry_name d]) (Some i)
                version s).2 !! archive_path self i version
          = Some (ZipArchive ms)) as Hlook.
  { rewrite Hfs. apply lookup_insert_eq. }
  pose proof (create_zip_some self d' i version
                (_create_zip self d (release_path self ++ [entry_name d])
                   (Some i) version s).2) as H2.
  cbn zeta in H2.
  rewrite (bool_decide_eq_false_2 _ Hmk'), Hlook, Hforce in H2.
  rewrite (bool_decide_eq_true_2 (is_Some (Some (ZipArchive ms)))) in H2 by eauto.
  cbn [andb negb] in H2. rewrite H2. split; [done|].
  exists ms. cbn [snd fs with_stdout]. split_and!; [done | done |].
  intros Hr. by apply Hok.
Qed.

Lemma opened_archive_is_not_repaired_witness :
  let self := sample_generator false in
  let d := sample_package "foo" (XmlDoc (addon_xml "foo" "1.0"))
             {| zip_fault := Some (FailWrite 2); copy_fault := None |} in
  let d' := sample_package "foo" (XmlDoc (addon_xml "foo" "1.0")) no_faults in
  let zs := _create_zip self d (release_path self ++ [entry_name d])
              (Some "foo") (Some "1.0") (initial ∅) in
  let zs' := _create_zip self d' (release_path self ++ [entry_name d'])
               (Some "foo") (Some "1.0") zs.2 in
  zs.1 = inl OSError
  ∧ zs' = (inr tt, with_stdout (SkippingExisting "foo" "1.0") zs.2)
  ∧ fs zs'.2 !! archive_path self "foo" (Some "1.0")
    = Some (ZipArchive [(["foo"; "addon.xml"], XmlDoc (addon_xml "foo" "1.0"))]).
Proof.
  cbn zeta. split_and!; [vm_compute; reflexivity | | vm_compute; reflexivity].
  assert (zip_fault (faults (sample_package "foo" (XmlDoc (addon_xml "foo" "1.0"))
                               {| zip_fault := Some (FailWrite 2);
                                  copy_fault := None |})) ≠ Some FailMkdir)
    as H3 by done.
  assert (zip_fault (faults (sample_package "foo" (XmlDoc (addon_xml "foo" "1.0"))
                               {| zip_fault := Some (FailWrite 2);
                                  copy_fault := None |})) ≠ Some FailOpen)
    as H4 by done.
  assert (zip_fault (faults (sample_package "foo" (XmlDoc (addon_xml "foo" "1.0"))
                               no_faults)) ≠ Some FailMkdir) as H5 by done.
  exact (proj1 (opened_archive_is_not_repaired (sample_generator false) _ _
                  "foo" (Some "1.0") (initial ∅) eq_refl eq_refl H3 H4 H5)).
Defined.


(** ** Published assets *)











(** ** The run as a whole *)

Lemma md5_path_is_not_catalog self : md5_path self ≠ addons_xml_path self.
Proof.
  unfold md5_path, addons_xml_path, pdiv. intros H%app_inv_head. done.
Qed.

Lemma generate_md5_written md5_hexdigest self s data :
  fs s !! addons_xml_path self = Some data ->
  persist_fault self ≠ Some FailWriteChecksum ->
  _generate_md5 md5_hexdigest self s
  = (inr tt, with_stdout (Updated (md5_path self))
               (write_file (md5_path self) (Text (md5_hexdigest data)) s)).
Proof.
  intros Hdoc Hflt. unfold _generate_md5. unfold_monad. cbn [fst snd].
  rewrite Hdoc. by rewrite bool_decide_eq_false_2.
Qed.

Lemma generate_md5_returns md5_hexdigest self s :
  (_generate_md5 md5_hexdigest self s).1 = inr tt ->
  persist_fault self ≠ Some FailWriteChecksum.
Proof.
  unfold _generate_md5. unfold_monad. cbn [fst snd].
  destruct (fs s !! addons_xml_path self); [|done].
  by case_bool_decide.
Qed.

(** X9. After the catalog has been rewritten, the run returns normally
    exactly when writing the checksum file does not fail; and then the
    checksum file holds the digest of exactly the catalog file that is on
    disk, and is the one file written after the catalog. *)
Theorem checksum_matches_the_written_catalog (md5_hexdigest : FileData -> string)
    (self : Generator) (listing : list ReleaseEntry)
    (files : gmap Path FileData) :
  (_generate_addons_xml self listing (initial files)).1 = inr true ->
  let rs := Generator_init md5_hexdigest self listing (initial files) in
  (rs.1 = inr tt <-> persist_fault self ≠ Some FailWriteChecksum)
  ∧ (rs.1 = inr tt ->
     ∃ doc, fs rs.2 !! addons_xml_path self = Some (XmlDoc doc)
            ∧ fs rs.2 !! md5_path self = Some (Text (md5_hexdigest (XmlDoc doc)))
            ∧ opened rs.2
              = opened (_generate_addons_xml self listing (initial files)).2
                ++ [md5_path self]).
Proof.
  intros Hgen rs. subst rs. rewrite Generator_init_eq.
  assert (∃ doc, fs (_generate_addons_xml self listing (initial files)).2
                 !! addons_xml_path self = Some (XmlDoc doc)) as [doc Hdoc].
  { revert Hgen. rewrite generate_addons_xml_eq.
    destruct (load_catalog self (initial files)) as [[e|r] s']; [done|].
    intros Hret. destruct (persist_returns_true _ _ Hret) as [Hch Hflt].
    destruct (persist_dirty self _ Hch Hflt) as [_ Hfs]. eauto. }
  destruct (_generate_addons_xml self listing (initial files)) as [[e|[]] s1];
    cbn [fst snd] in *; try done.
  assert (persist_fault self ≠ Some FailWriteChecksum ->
          (_generate_md5 md5_hexdigest self s1).1 = inr tt
          ∧ ∃ doc0, fs (_generate_md5 md5_hexdigest self s1).2
                      !! addons_xml_path self = Some (XmlDoc doc0)
                    ∧ fs (_generate_md5 md5_hexdigest self s1).2 !! md5_path self
                      = Some (Text (md5_hexdigest (XmlDoc doc0)))
                    ∧ opened (_generate_md5 md5_hexdigest self s1).2
                      = opened s1 ++ [md5_path self]) as Hok.
  { intros Hflt. rewrite (generate_md5_written _ _ _ _ Hdoc Hflt).
    cbn [fst snd fs opened with_stdout write_file]. split; [done|].
    exists doc. split_and!; [|apply lookup_insert_eq|done].
    rewrite lookup_insert_ne; [done|apply md5_path_is_not_catalog]. }
  split.
  - split; [apply generate_md5_returns|]. intros Hflt. by apply Hok.
  - intros Hret. apply Hok. by eapply generate_md5_returns.
Qed.

Lemma checksum_matches_the_written_catalog_witness :
  let self := sample_generator false in
  let listing :=
    [sample_package "foo" (XmlDoc (addon_xml "foo" "1.0")) no_faults] in
  let rs := Generator_init (λ _, "d41d8cd9") self listing (initial ∅) in
  (_generate_addons_xml self listing (initial ∅)).1 = inr true
  ∧ (rs.1 = inr tt <-> persist_fault self ≠ Some FailWriteChecksum).
Proof.
  cbn zeta.
  assert ((_generate_addons_xml (sample_generator false)
             [sample_package "foo" (XmlDoc (addon_xml "foo" "1.0")) no_faults]
             (initial ∅)).1 = inr true) as H by (vm_compute; reflexivity).
  split; [exact H|].
  exact (proj1 (checksum_matches_the_written_catalog _ _ _ _ H)).
Defined.

(** X10. From the load of the catalog on, a catalog file that does not
    parse ends the run at once, unlike a package manifest that does not
    parse: [_generate_addons_xml] raises the parse error before any
    package is looked at, having printed nothing and written no file, and
    the constructor passes the error on without writing the checksum. *)
Theorem unreadable_catalog_aborts_the_run (md5_hexdigest : FileData -> string)
    (self : Generator) (listing : list ReleaseEntry)
    (files : gmap Path FileData) (data : FileData) :
  files !! addons_xml_path self = Some data ->
  (∀ r, data ≠ XmlDoc r) ->
  _generate_addons_xml self listing (initial files)
  = (inl ParseError, initial files)
  ∧ Generator_init md5_hexdigest self listing (initial files)
    = (inl ParseError, initial files).
Proof.
  intros Hfile Hbad.
  assert (_generate_addons_xml self listing (initial files)
          = (inl ParseError, initial files)) as Hgen.
  { rewrite generate_addons_xml_eq, load_catalog_eq.
    cbn [fs initial]. rewrite Hfile.
    destruct data as [r| |]; [by destruct (Hbad r)|done|done]. }
  split; [done|]. by rewrite Generator_init_eq, Hgen.
Qed.

Lemma unreadable_catalog_aborts_the_run_witness :
  let self := sample_generator false in
  let files : gmap Path FileData := {[ addons_xml_path self := Text "<addons" ]} in
  let listing :=
    [sample_package "foo" (XmlDoc (addon_xml "foo" "1.0")) no_faults] in
  files !! addons_xml_path self = Some (Text "<addons")
  ∧ (∀ r, Text "<addons" ≠ XmlDoc r)
  ∧ _generate_addons_xml self listing (initial files)
    = (inl ParseError, initial files).
Proof.
  cbn zeta.
  assert (({[ addons_xml_path (sample_generator false) := Text "<addons" ]}
             : gmap Path FileData) !! addons_xml_path (sample_generator false)
          = Some (Text "<addons")) as H1 by apply lookup_singleton_eq.
  assert (∀ r, Text "<addons" ≠ XmlDoc r) as H2 by done.
  split_and!; [exact H1 | exact H2 |].
  exact (proj1 (unreadable_catalog_aborts_the_run (λ _, "d41d8cd9") _ _ _ _ H1 H2)).
Defined.

Lemma process_package_trace self d s :
  manifest_quote_free d = true ->
  trace (final (process_package self d) s)
  = trace s
    ++ match manifest d with
       | inr m => [(entry_name d,
                    reconcile (root s) (get m "id") (get m "version") (force self))]
       | inl _ => []
       end.
Proof.
  unfold manifest_quote_free. intros Hq.
  destruct (manifest d) as [e|m] eqn:Hm.
  - rewrite app_nil_r. unfold final, process_package.
    case_bool_decide; [|done].
    unfold_monad. by rewrite (process_body_unparsed _ _ _ _ Hm).
  - by apply process_package_trace_parsed.
Qed.

Lemma for_each_trace_names self listing : ∀ s,
  quote_free_ids listing ->
  (trace (final (for_each (process_package self) listing) s)).*1
  = (trace s).*1 ++ (entry_name <$> filter (λ d, parses d = true) listing).
Proof.
  induction listing as [|d listing IH]; intros s Hq.
  - cbn. by rewrite app_nil_r.
  - apply Forall_cons in Hq as [Hd Hq].
    unfold final. rewrite for_each_cons. fold (final (for_each (process_package self) listing)
                                                  (final (process_package self d) s)).
    rewrite (IH _ Hq), (process_package_trace _ _ _ Hd), filter_cons. unfold parses.
    destruct (manifest d) as [e|m].
    + rewrite decide_False by done. by rewrite app_nil_r.
    + rewrite decide_True by done. rewrite fmap_app, <- app_assoc. done.
Qed.

(** X11. When no package is looked up under an id with an apostrophe, the
    packages a run decides about are exactly the listed entries that are
    directories, are not named [zips], are not hidden and have a manifest
    that parses: each of them gets one decision, in the order of the
    listing, and no other entry gets any. *)
Theorem decisions_are_for_the_candidates (self : Generator)
    (listing : list ReleaseEntry) (files : gmap Path FileData) :
  (∀ data, files !! addons_xml_path self = Some data -> ∃ r, data = XmlDoc r) ->
  quote_free_ids (List.filter is_candidate listing) ->
  (trace (_generate_addons_xml self listing (initial files)).2).*1
  = entry_name
    <$> filter (λ d, parses d = true) (List.filter is_candidate listing).
Proof.
  intros Hcat Hq. rewrite generate_addons_xml_eq, load_catalog_eq. cbn [fs initial].
  assert (∀ r, (trace (persist self (loop_end self listing r (initial files))).2).*1
               = entry_name <$> filter (λ d, parses d = true)
                                  (List.filter is_candidate listing)) as Hloop.
  { intros r. rewrite persist_trace.
    unfold loop_end. by rewrite for_each_trace_names. }
  destruct (files !! addons_xml_path self) as [data|] eqn:Hfile; [|apply Hloop].
  destruct (Hcat data eq_refl) as [r ->]. apply Hloop.
Qed.

Lemma decisions_are_for_the_candidates_witness :
  let self := sample_generator false in
  let listing :=
    [sample_package "zips" (XmlDoc (addon_xml "zips" "1.0")) no_faults;
     sample_package ".git" (XmlDoc (addon_xml "git" "1.0")) no_faults;
     sample_package "foo" (XmlDoc (addon_xml "foo" "1.0")) no_faults;
     sample_package "broken" (Text "<addon") no_faults] in
  (∀ data, (∅ : gmap Path FileData) !! addons_xml_path self = Some data ->
           ∃ r, data = XmlDoc r)
  ∧ quote_free_ids (List.filter is_candidate listing)
  ∧ (trace (_generate_addons_xml self listing (initial ∅)).2).*1 = ["foo"].
Proof.
  cbn zeta.
  assert (∀ data, (∅ : gmap Path FileData) !! addons_xml_path (sample_generator false)
                  = Some data -> ∃ r, data = XmlDoc r) as H.
  { intros data Hd. by rewrite lookup_empty in Hd. }
  assert (quote_free_ids
            (List.filter is_candidate
               [sample_package "zips" (XmlDoc (addon_xml "zips" "1.0")) no_faults;
                sample_package ".git" (XmlDoc (addon_xml "git" "1.0")) no_faults;
                sample_package "foo" (XmlDoc (addon_xml "foo" "1.0")) no_faults;
                sample_package "broken" (Text "<addon") no_faults])) as Hq.
  { repeat constructor. }
  split; [exact H|]. split; [exact Hq|].
  exact (decisions_are_for_the_candidates (sample_generator false) _ ∅ H Hq).
Defined.


(** ** The ignore filter in closed form *)

Lemma fnmatchcase_literal pat : ∀ name,
  literal pat = true -> (fnmatchcase name pat = true <-> name = pat).
Proof.
  unfold fnmatchcase.
  induction pat as [|c pat IH]; intros name Hlit; cbn [fnmatchcase_aux].
  - destruct name; split; done.
  - cbn [literal] in Hlit.
    apply andb_true_iff in Hlit as [[Hs Hq]%andb_true_iff Hlit].
    apply negb_true_iff in Hs, Hq. rewrite Hs, Hq.
    destruct name as [|c' name]; [split; done|].
    rewrite andb_true_iff, Ascii.eqb_eq, IH by done.
    split; [by intros [-> ->]|by intros [= -> ->]].
Qed.

Lemma fnmatchcase_star_literal lit : ∀ name,
  literal lit = true ->
  (fnmatchcase name (String "*" lit) = true <-> ends_with lit name).
Proof.
  intros name Hlit. unfold fnmatchcase. cbn [fnmatchcase_aux].
  change (Ascii.eqb "*" "*") with true. cbn iota.
  pose proof (λ n, fnmatchcase_literal lit n Hlit) as Hl. unfold fnmatchcase in Hl.
  induction name as [|c name IH].
  - rewrite orb_false_r, Hl. split.
    + intros <-. by exists EmptyString.
    + intros [stem Hstem]. destruct stem; [done|discriminate].
  - rewrite orb_true_iff, Hl, IH. split.
    + intros [<- | [stem ->]]; [by exists EmptyString|by exists (String c stem)].
    + intros [[|c' stem] Hstem]; [by left|].
      right. injection Hstem as -> ->. by exists stem.
Qed.

Lemma Path_match_one path pattern :
  parts_of pattern = [pattern] ->
  Path_match path pattern
  = inr (match last path with
         | Some name => fnmatchcase name pattern
         | None => false
         end).
Proof.
  unfold Path_match. intros ->. f_equal. cbn [rev app].
  destruct path as [|x l _] using rev_ind; [done|].
  rewrite rev_unit, last_snoc. cbn [match_parts].
  by destruct (rev l); rewrite andb_true_r.
Qed.

Lemma Path_match_one_true path pattern :
  parts_of pattern = [pattern] ->
  Path_match path pattern = inr true
  <-> ∃ name, last path = Some name ∧ fnmatchcase name pattern = true.
Proof.
  intros Hone. rewrite (Path_match_one _ _ Hone).
  destruct (last path) as [name|].
  - split; [intros H; exists name; split; [done|congruence]|].
    intros (name' & [= <-] & ->). done.
  - split; [congruence|]. intros (name' & ? & _). done.
Qed.

Lemma last_elem_of {A} (l : list A) x : last l = Some x -> x ∈ l.
Proof.
  intros H. apply last_Some in H as [l' ->]. apply elem_of_app. right. by left.
Qed.

(** X12. The filter in closed form: a path is ignored exactly when one of
    its segments, at whatever depth, is literally one of the ten
    configured patterns, or its last segment ends in [.pyc] or [.pyo]. *)
Theorem ignore_filter_closed_form (path : Path) :
  _should_ignore path = inr true
  <-> (∃ seg, seg ∈ path ∧ seg ∈ IGNORE_PATTERNS)
      ∨ (∃ name, last path = Some name
                 ∧ (ends_with ".pyc" name ∨ ends_with ".pyo" name)).
Proof.
  destruct (should_ignore_with_spec IGNORE_PATTERNS path IGNORE_PATTERNS_nonempty)
    as (b & Hb & Hiff).
  unfold _should_ignore. rewrite Hb.
  assert (inr b = inr true <-> b = true) as -> by (split; congruence).
  rewrite Hiff. clear b Hb Hiff. split.
  - intros (pattern & Hpat & [Hseg | Hmatch]); [left; eauto|].
    unfold IGNORE_PATTERNS in Hpat.
    repeat (apply elem_of_cons in Hpat as [-> | Hpat]);
      [..|by apply elem_of_nil in Hpat];
      apply Path_match_one_true in Hmatch as (name & Hlast & Hmatch);
      try reflexivity.
    1-8: left; apply fnmatchcase_literal in Hmatch; [|reflexivity];
         subst name; eexists; split; [by apply last_elem_of|];
         apply (bool_decide_unpack _); vm_compute; exact I.
    + right. exists name. split; [done|]. left.
      by apply (fnmatchcase_star_literal ".pyc").
    + right. exists name. split; [done|]. right.
      by apply (fnmatchcase_star_literal ".pyo").
  - intros [(seg & Hseg & Hpat) | (name & Hlast & [Hend | Hend])].
    + exists seg. auto.
    + exists "*.pyc". split; [apply (bool_decide_unpack _); vm_compute; exact I|].
      right. apply Path_match_one_true; [reflexivity|]. exists name.
      split; [done|]. by apply (fnmatchcase_star_literal ".pyc").
    + exists "*.pyo". split; [apply (bool_decide_unpack _); vm_compute; exact I|].
      right. apply Path_match_one_true; [reflexivity|]. exists name.
      split; [done|]. by apply (fnmatchcase_star_literal ".pyo").
Qed.


(** ** Cleaning compiled files *)

Lemma is_file_in_true t k : is_file_in t k = true <-> ∃ data, t !! k = Some (File data).
Proof.
  unfold is_file_in. destruct (t !! k) as [[data|]|]; split; try done; eauto.
  - intros [? [=]].
  - intros [? [=]].
Qed.

Lemma is_dir_in_true t k : is_dir_in t k = true <-> t !! k = Some Dir.
Proof. unfold is_dir_in. by destruct (t !! k) as [[data|]|]. Qed.

Lemma cache_name_has_no_compiled_suffix q :
  path_name q = "__pycache__" -> compiled_suffix (path_suffix q) = false.
Proof. unfold path_suffix. intros ->. reflexivity. Qed.

Lemma removes_prefix t q k : removes t q k -> q `prefix_of` k.
Proof. intros [(_ & _ & ?) | [-> _]]; done. Qed.

(** The tree once the paths [seen] have been looked at. *)
Lemma clean_step_lookup t seen q tc out :
  (∀ k n, tc !! k = Some n <-> t !! k = Some n ∧ ∀ q', q' ∈ seen -> ¬ removes t q' k) ->
  ∀ k n, (clean_step (tc, out) q).1 !! k = Some n
         <-> t !! k = Some n ∧ ∀ q', q' ∈ seen ++ [q] -> ¬ removes t q' k.
Proof.
  intros Hinv k n. unfold clean_step. cbn [fst snd].
  assert (∀ P : Path -> Prop,
            (∀ q', q' ∈ seen ++ [q] -> P q') <-> (∀ q', q' ∈ seen -> P q') ∧ P q)
    as Hsnoc.
  { intros P. split.
    - intros H. split; [intros q' Hq'; apply H, elem_of_app; by left|].
      apply H, elem_of_app. right. by left.
    - intros [H1 H2] q' [Hq'|Hq']%elem_of_app; [by apply H1|].
      by apply list_elem_of_singleton in Hq' as ->. }
  rewrite Hsnoc.
  destruct (String.eqb (path_name q) "__pycache__" && is_dir_in tc q) eqn:Hc1.
  - apply andb_true_iff in Hc1 as [Hname%String.eqb_eq Hdir%is_dir_in_true].
    apply Hinv in Hdir as [Hdir _]. cbn [fst].
    unfold rmtree. rewrite map_lookup_filter_Some, Hinv. cbn [fst].
    split.
    + intros [[Hk Hseen] Hpre]. split_and!; [done | done |].
      intros Hrem. by apply Hpre, (removes_prefix t).
    + intros (Hk & Hseen & Hq). split_and!; [done | done |].
      intros Hpre. apply Hq. by left.
  - destruct (compiled_suffix (path_suffix q) && is_file_in tc q) eqn:Hc2.
    + apply andb_true_iff in Hc2 as [Hsuf Hfile].
      apply is_file_in_true in Hfile as [data Hfile].
      apply Hinv in Hfile as [Hfile _]. cbn [fst].
      rewrite lookup_delete_Some, Hinv. split.
      * intros [Hne [Hk Hseen]]. split_and!; [done | done |].
        intros [(_ & Hd & _) | [-> _]]; [congruence|done].
      * intros (Hk & Hseen & Hq). split_and!; [|done|done].
        intros ->. apply Hq. right. split; [done|]. split; [done|].
        apply is_file_in_true. eauto.
    + cbn [fst]. rewrite Hinv. split; [|by intros (? & ? & _)].
      intros [Hk Hseen]. split_and!; [done | done |].
      intros [(Hname & Hd & Hpre) | [-> [Hsuf Hfile]]].
      * rewrite Hname, String.eqb_refl in Hc1. cbn [andb] in Hc1.
        assert (tc !! q = Some Dir) as Htc; [|by rewrite <- is_dir_in_true, Hc1 in Htc].
        apply Hinv. split; [done|]. intros q' Hq' Hrem.
        apply (Hseen q' Hq').
        destruct Hrem as [(Hn' & Hd' & Hpre') | [-> [_ Hf]]].
        -- left. split_and!; [done | done | by etrans].
        -- apply is_file_in_true in Hf as [? Hf]. congruence.
      * rewrite Hsuf in Hc2. cbn [andb] in Hc2.
        assert (tc !! k = Some n) as Htc by (by apply Hinv).
        apply is_file_in_true in Hfile as [data Hfile].
        assert (n = File data) as -> by congruence.
        assert (is_file_in tc k = true) by (apply is_file_in_true; eauto).
        congruence.
Qed.

Lemma clean_fold_lookup t : ∀ walk seen tc out,
  (∀ k n, tc !! k = Some n <-> t !! k = Some n ∧ ∀ q', q' ∈ seen -> ¬ removes t q' k) ->
  ∀ k n, (foldl clean_step (tc, out) walk).1 !! k = Some n
         <-> t !! k = Some n ∧ ∀ q', q' ∈ seen ++ walk -> ¬ removes t q' k.
Proof.
  induction walk as [|q walk IH]; intros seen tc out Hinv k n.
  - cbn [foldl fst]. by rewrite app_nil_r.
  - cbn [foldl]. rewrite (cons_middle q seen walk), app_assoc.
    destruct (clean_step (tc, out) q) as [tc' out'] eqn:Hstep.
    apply IH. intros k' n'.
    pose proof (clean_step_lookup t seen q tc out Hinv k' n') as H.
    by rewrite Hstep in H.
Qed.

Lemma clean_binaries_lookup walk t k n :
  (_clean_binaries walk t).1 !! k = Some n
  <-> t !! k = Some n ∧ ∀ q, q ∈ walk -> ¬ removes t q k.
Proof.
  unfold _clean_binaries.
  apply (clean_fold_lookup t walk [] t []).
  intros k' n'. split; [|by intros [? _]].
  intros H. split; [done|]. intros q' Hq'. by apply elem_of_nil in Hq'.
Qed.

(** X13. When the walk visits every path of the tree, what
    [_clean_binaries] leaves is the tree without the directories named
    [__pycache__], without everything below them, and without the regular
    files whose suffix is [.pyc] or [.pyo]; every other path stays, with
    its content. *)
Theorem clean_binaries_leaves_the_rest (walk : list Path)
    (t : gmap Path Node) :
  (∀ k, is_Some (t !! k) -> k ∈ walk) ->
  ∀ k n,
    (_clean_binaries walk t).1 !! k = Some n
    <-> t !! k = Some n ∧ ¬ in_cache_dir t k ∧ ¬ compiled_file t k.
Proof.
  intros Hcover k n. rewrite clean_binaries_lookup. split.
  - intros [Hk Hwalk]. split_and!; [done | |].
    + intros (q & Hpre & Hname & Hd).
      apply (Hwalk q); [apply Hcover; eauto|]. by left.
    + intros Hc. apply (Hwalk k); [apply Hcover; eauto|]. by right.
  - intros (Hk & Hcache & Hcomp). split; [done|].
    intros q _ [(Hname & Hd & Hpre) | [-> Hc]]; [|done].
    apply Hcache. by exists q.
Qed.

Lemma clean_binaries_leaves_the_rest_witness :
  let t : gmap Path Node :=
    list_to_map [ (["omega"; "foo"], Dir);
                  (["omega"; "foo"; "main.py"], File (Text "import xbmc"));
                  (["omega"; "foo"; "main.pyc"], File (Text "")) ] in
  let walk := [["omega"; "foo"]; ["omega"; "foo"; "main.py"];
               ["omega"; "foo"; "main.pyc"]] in
  (∀ k, is_Some (t !! k) -> k ∈ walk)
  ∧ ((_clean_binaries walk t).1 !! ["omega"; "foo"; "main.py"]
     = Some (File (Text "import xbmc"))
     <-> t !! ["omega"; "foo"; "main.py"] = Some (File (Text "import xbmc"))
         ∧ ¬ in_cache_dir t ["omega"; "foo"; "main.py"]
         ∧ ¬ compiled_file t ["omega"; "foo"; "main.py"]).
Proof.
  cbn zeta.
  assert (∀ k, is_Some ((list_to_map
                           [ (["omega"; "foo"], Dir);
                             (["omega"; "foo"; "main.py"], File (Text "import xbmc"));
                             (["omega"; "foo"; "main.pyc"], File (Text "")) ]
                         : gmap Path Node) !! k) ->
               k ∈ [["omega"; "foo"]; ["omega"; "foo"; "main.py"];
                    ["omega"; "foo"; "main.pyc"]]) as Hcover.
  { intros k [n Hk]. apply elem_of_list_to_map_2 in Hk.
    apply (list_elem_of_fmap_2 fst) in Hk. exact Hk. }
  split; [exact Hcover|].
  exact (clean_binaries_leaves_the_rest _ _ Hcover _ _).
Defined.

Lemma from_last_dot_Some s : ∀ suf,
  from_last_dot s = Some suf -> ends_with suf s.
Proof.
  induction s as [|c s IH]; intros suf; cbn [from_last_dot]; [done|].
  destruct (from_last_dot s) as [suf'|].
  - intros [= <-]. destruct (IH suf' eq_refl) as [stem ->].
    by exists (String c stem).
  - destruct (Ascii.eqb c "."); [|intros [=]]. intros [= <-]. by exists EmptyString.
Qed.

Lemma compiled_suffix_name p :
  compiled_suffix (path_suffix p) = true ->
  ∃ name, last p = Some name ∧ (ends_with ".pyc" name ∨ ends_with ".pyo" name).
Proof.
  unfold path_suffix, path_name. cbv zeta.
  destruct (last p) as [name|]; cbn [default from_option id]; [|intros [=]].
  destruct (from_last_dot name) as [suf|] eqn:Hsuf; [|intros [=]].
  apply from_last_dot_Some in Hsuf.
  destruct (Nat.ltb (String.length suf) (String.length name)
            && Nat.ltb 1 (String.length suf)); [|intros [=]].
  unfold compiled_suffix. intros H. exists name. split; [done|].
  apply orb_true_iff in H as [H|H]; apply String.eqb_eq in H; subst suf; auto.
Qed.

Lemma compiled_name_is_ignored path name :
  last path = Some name ->
  ends_with ".pyc" name ∨ ends_with ".pyo" name ->
  _should_ignore path = inr true.
Proof.
  intros Hlast Hend.
  destruct (should_ignore_with_spec IGNORE_PATTERNS path IGNORE_PATTERNS_nonempty)
    as (b & Hb & Hiff).
  unfold _should_ignore. rewrite Hb. f_equal. apply Hiff.
  destruct Hend as [Hend|Hend].
  - exists "*.pyc". split; [apply (bool_decide_unpack _); vm_compute; exact I|].
    right. apply Path_match_one_true; [reflexivity|]. exists name.
    split; [done|]. by apply (fnmatchcase_star_literal ".pyc").
  - exists "*.pyo". split; [apply (bool_decide_unpack _); vm_compute; exact I|].
    right. apply Path_match_one_true; [reflexivity|]. exists name.
    split; [done|]. by apply (fnmatchcase_star_literal ".pyo").
Qed.

(** X14. Cleaning only removes what the archiver would leave out anyway:
    every path that [_clean_binaries] removes from the tree is a path the
    ignore filter excludes. *)
Theorem cleaning_removes_only_ignored_paths (walk : list Path)
    (t : gmap Path Node) (k : Path) :
  is_Some (t !! k) ->
  (_clean_binaries walk t).1 !! k = None ->
  _should_ignore k = inr true.
Proof.
  intros [n Hk] Hgone.
  assert (¬ ∀ q, q ∈ walk -> ¬ removes t q k) as Hnot.
  { intros Hall.
    assert ((_clean_binaries walk t).1 !! k = Some n) as H
      by (apply clean_binaries_lookup; done).
    congruence. }
  destruct (_should_ignore k) as [e|[]] eqn:Hig; [|done|].
  - pose proof (should_ignore_total k). congruence.
  - exfalso. apply Hnot. intros q _ [(Hname & Hd & Hpre) | [-> [Hsuf _]]].
    + assert ("__pycache__" ∈ k) as Hseg.
      { destruct Hpre as [rest ->]. apply elem_of_app. left.
        unfold path_name in Hname.
        destruct (last q) as [x|] eqn:Hlast; [|done]. cbn in Hname. subst x.
        by apply last_elem_of. }
      rewrite (reserved_segment_is_ignored k "__pycache__") in Hig; [done| |done].
      apply (bool_decide_unpack _). vm_compute. exact I.
    + destruct (compiled_suffix_name _ Hsuf) as (name & Hlast & Hend).
      by rewrite (compiled_name_is_ignored k name Hlast Hend) in Hig.
Qed.

Lemma cleaning_removes_only_ignored_paths_witness :
  let t : gmap Path Node :=
    list_to_map [ (["omega"; "foo"; "main.pyc"], File (Text "")) ] in
  let walk := [["omega"; "foo"; "main.pyc"]] in
  is_Some (t !! ["omega"; "foo"; "main.pyc"])
  ∧ (_clean_binaries walk t).1 !! ["omega"; "foo"; "main.pyc"] = None
  ∧ _should_ignore ["omega"; "foo"; "main.pyc"] = inr true.
Proof.
  cbn zeta.
  assert (is_Some ((list_to_map [ (["omega"; "foo"; "main.pyc"], File (Text "")) ]
                    : gmap Path Node) !! ["omega"; "foo"; "main.pyc"])) as H1.
  { eexists. vm_compute. reflexivity. }
  assert ((_clean_binaries [["omega"; "foo"; "main.pyc"]]
             (list_to_map [ (["omega"; "foo"; "main.pyc"], File (Text "")) ])).1
          !! ["omega"; "foo"; "main.pyc"] = None) as H2 by (vm_compute; reflexivity).
  split_and!; [exact H1 | exact H2 |].
  exact (cleaning_removes_only_ignored_paths _ _ _ H1 H2).
Defined.


(** ** Running twice *)

Global Instance skips_keep_root_preorder : PreOrder skips_keep_root.
Proof.
  split.
  - intros s. exists []. by rewrite app_nil_r.
  - intros s1 s2 s3 (t1 & Ht1 & H1) (t2 & Ht2 & H2). exists (t1 ++ t2).
    split; [by rewrite Ht2, Ht1, app_assoc|].
    intros [Hs1 Hs2]%Forall_app. by rewrite (H2 Hs2), (H1 Hs1).
Qed.

Lemma reconcile_Skip_keeps_root self d m s :
  reconcile (root s) (get m "id") (get m "version") (force self) = Skip ->
  root (decided self d m s) = root s.
Proof.
  rewrite decided_root. unfold reconcile.
  destruct (find_addon (root s) (get m "id")) as [[i e]|]; [|done].
  by destruct (bool_decide (get e "version" = get m "version") && negb (force self)).
Qed.

Lemma process_package_skips_keep_root self d :
  preserves skips_keep_root (process_package self d).
Proof.
  intros s.
  destruct (process_package_iteration self d s) as (_ & _ & t & Ht & Hskip & _).
  exists t. split; [done|]. intros Hall. by destruct (Hskip Hall).
Qed.

Lemma is_entry_for_inj k k' e : is_entry_for k e -> is_entry_for k' e -> k = k'.
Proof. intros [_ H] [_ H']. congruence. Qed.

Lemma unique_entry cs k e e' :
  NoDup (entry_ids cs) -> e ∈ cs -> e' ∈ cs ->
  is_entry_for k e -> is_entry_for k e' -> e = e'.
Proof.
  intros Hnd He He' Hk Hk'. induction cs as [|x cs IH]; [by apply elem_of_nil in He|].
  unfold entry_ids in Hnd. cbn in Hnd.
  assert (∀ y, y ∈ cs -> is_entry_for k y -> k ∈ omap entry_id cs) as Hin.
  { intros y Hy Hyk. apply list_elem_of_omap. exists y. split; [done|].
    by apply entry_id_Some. }
  apply elem_of_cons in He as [->|He], He' as [->|He']; [done| | |].
  - exfalso. apply entry_id_Some in Hk. rewrite Hk in Hnd.
    apply NoDup_cons in Hnd as [Hnot _]. apply Hnot. by eapply Hin.
  - exfalso. apply entry_id_Some in Hk'. rewrite Hk' in Hnd.
    apply NoDup_cons in Hnd as [Hnot _]. apply Hnot. by eapply Hin.
  - apply IH; [|done|done]. unfold entry_ids.
    destruct (entry_id x); [by apply NoDup_cons in Hnd as [_ ?]|done].
Qed.

Lemma settled_in_Permutation cs cs' d :
  cs ≡ₚ cs' -> settled_in cs d -> settled_in cs' d.
Proof.
  intros Hp H m Hm. destruct (H m Hm) as (e & He & ?). exists e.
  split; [by rewrite <- Hp|done].
Qed.

(** A package that is settled and not forced is skipped. *)
Lemma settled_package_is_skipped self d s :
  force self = false ->
  manifest_quote_free d = true ->
  unique_ids s ->
  settled_in (children (root s)) d ->
  (is_Some (node_at d "addon.xml") -> parses d = true) ->
  process_package self d s
  = (inr tt, match manifest d with
             | inr m => decided self d m s
             | inl _ => s
             end)
  ∧ match manifest d with
    | inr m => reconcile (root s) (get m "id") (get m "version") (force self) = Skip
    | inl _ => True
    end.
Proof.
  intros Hforce Hq Hu Hset Hparse. unfold parses in Hparse.
  unfold manifest_quote_free in Hq.
  destruct (manifest d) as [e|m] eqn:Hm.
  - split; [|done]. unfold process_package.
    case_bool_decide as Hfile; [|done]. by specialize (Hparse Hfile).
  - destruct (Hset m Hm) as (e & He & Hent & Hv).
    assert (reconcile (root s) (get m "id") (get m "version") (force self) = Skip)
      as Hskip.
    { unfold reconcile, find_addon.
      destruct (find_from (fmt (get m "id")) 0 (children (root s)))
        as [[j e']|] eqn:Hfind.
      - destruct (find_from_Some _ _ _ _ _ Hfind) as (pre & post & Hcs & _ & He' & _).
        assert (e' = e) as ->.
        { apply (unique_entry (children (root s)) (fmt (get m "id"))); try done.
          rewrite Hcs. apply elem_of_app. right. by left. }
        rewrite Hforce, (bool_decide_eq_true_2 _ Hv). done.
      - exfalso. by apply (proj1 (find_from_None _ _ _) Hfind e). }
    split; [|done].
    by rewrite (process_package_parsed _ _ _ _ Hm),
      (process_body_parsed _ _ _ _ Hm Hq), Hskip.
Qed.

Lemma settled_loop_only_skips self : ∀ ds s,
  force self = false ->
  quote_free_ids ds ->
  unique_ids s ->
  (∀ d, d ∈ ds -> settled_in (children (root s)) d) ->
  (∀ d, d ∈ ds -> is_Some (node_at d "addon.xml") -> parses d = true) ->
  (for_each (process_package self) ds s).1 = inr tt
  ∧ root (final (for_each (process_package self) ds) s) = root s
  ∧ fs (final (for_each (process_package self) ds) s) = fs s
  ∧ opened (final (for_each (process_package self) ds) s) = opened s
  ∧ changed (final (for_each (process_package self) ds) s) = changed s
  ∧ stdout (final (for_each (process_package self) ds) s) = stdout s
  ∧ ∃ t, trace (final (for_each (process_package self) ds) s) = trace s ++ t
         ∧ Forall (λ x, x.2 = Skip) t.
Proof.
  induction ds as [|d ds IH]; intros s Hforce Hq Hu Hset Hparse.
  - split_and!; try done. exists []. by rewrite app_nil_r.
  - apply Forall_cons in Hq as [Hqd Hq].
    unfold final. rewrite for_each_cons. unfold final.
    destruct (settled_package_is_skipped self d s Hforce Hqd Hu)
      as [Hstep Hskip]; [apply Hset; by left | apply Hparse; by left |].
    rewrite Hstep. cbn [snd].
    assert (∃ t0, root (match manifest d with
                        | inr m => decided self d m s | inl _ => s end) = root s
                  ∧ fs (match manifest d with
                        | inr m => decided self d m s | inl _ => s end) = fs s
                  ∧ opened (match manifest d with
                            | inr m => decided self d m s | inl _ => s end)
                    = opened s
                  ∧ changed (match manifest d with
                             | inr m => decided self d m s | inl _ => s end)
                    = changed s
                  ∧ stdout (match manifest d with
                            | inr m => decided self d m s | inl _ => s end)
                    = stdout s
                  ∧ trace (match manifest d with
                           | inr m => decided self d m s | inl _ => s end)
                    = trace s ++ t0
                  ∧ Forall (λ x : string * Decision, x.2 = Skip) t0)
      as (t0 & Hr & Hf & Ho & Hc & Hs & Ht & Ht0).
    { destruct (manifest d) as [e|m].
      - exists []. rewrite app_nil_r. done.
      - exists [(entry_name d, Skip)].
        destruct (decided_frame self d m s) as (?&?&?&?).
        rewrite decided_trace, Hskip, (reconcile_Skip_keeps_root _ _ _ _ Hskip).
        split_and!; try done. by rewrite Forall_singleton. }
    set (s1 := match manifest d with
               | inr m => decided self d m s | inl _ => s end) in *.
    destruct (IH s1 Hforce Hq)
      as (Hres & Hr' & Hf' & Ho' & Hc' & Hs' & t & Ht' & Hall).
    + unfold unique_ids. by rewrite Hr.
    + intros d' Hd'. rewrite Hr. apply Hset. by right.
    + intros d' Hd'. apply Hparse. by right.
    + unfold final in *.
      split_and!; [done | congruence | congruence | congruence | congruence
                  | congruence |].
      exists (t0 ++ t). split; [by rewrite Ht', Ht, app_assoc|].
      by apply Forall_app.
Qed.


Lemma process_package_settles_itself self d m s :
  manifest d = inr m ->
  quote_free (fmt (get m "id")) = true ->
  tag m = "addon" ->
  is_Some (get m "id") ->
  settled_in (children (root (final (process_package self d) s))) d.
Proof.
  intros Hm Hq Htag [i Hid] m' Hm'.
  assert (m' = m) as -> by congruence.
  rewrite (process_package_root_parsed _ _ _ _ Hm Hq).
  destruct (reconcile (root s) (get m "id") (get m "version") (force self))
    eqn:Hdec.
  - rewrite (reconcile_Skip_keeps_root _ _ _ _ Hdec).
    unfold reconcile, find_addon in Hdec.
    destruct (find_from (fmt (get m "id")) 0 (children (root s)))
      as [[j e]|] eqn:Hfind; [|done].
    destruct (find_from_Some _ _ _ _ _ Hfind) as (pre & post & Hcs & _ & He & _).
    exists e. split_and!; [rewrite Hcs; apply elem_of_app; right; by left|done|].
    destruct (bool_decide (get e "version" = get m "version")) eqn:Hv; [|done].
    by apply bool_decide_eq_true in Hv.
  - destruct (decided_children_snoc self d m s) as [cs Hcs]; [congruence|].
    exists m. rewrite Hcs, Hid.
    split_and!; [apply elem_of_app; right; by left|done|done].
  - destruct (decided_children_snoc self d m s) as [cs Hcs]; [congruence|].
    exists m. rewrite Hcs, Hid.
    split_and!; [apply elem_of_app; right; by left|done|done].
Qed.

Lemma process_package_reports_unparsed self d s :
  is_Some (node_at d "addon.xml") ->
  Forall (λ msg, is_error msg = false) (stdout (final (process_package self d) s)) ->
  parses d = true.
Proof.
  intros Hfile Hnoerr. unfold parses.
  destruct (manifest d) as [e|m] eqn:Hm; [|done]. exfalso.
  revert Hnoerr. unfold final, process_package.
  rewrite bool_decide_eq_true_2 by done. unfold_monad.
  rewrite (process_body_unparsed _ _ _ _ Hm). cbn [snd stdout with_stdout].
  intros [_ Herr]%Forall_app. by rewrite Forall_singleton in Herr.
Qed.

Lemma process_package_keeps_settled self d x s :
  manifest_quote_free d = true ->
  (∀ k k', manifest_key d = Some k -> manifest_key x = Some k' -> k ≠ k') ->
  settled_in (children (root s)) x ->
  settled_in (children (root (final (process_package self d) s))) x.
Proof.
  intros Hq Hkeys Hset m Hm. destruct (Hset m Hm) as (e & He & Hent & Hv).
  exists e. split_and!; [|done|done].
  apply (process_package_keeps_member self d e Hq); [|done].
  intros md Hmd Hent'.
  apply (Hkeys (fmt (get md "id")) (fmt (get m "id"))).
  - unfold manifest_key. by rewrite Hmd.
  - unfold manifest_key. by rewrite Hm.
  - by eapply is_entry_for_inj.
Qed.

Lemma loop_settles self : ∀ ds kept s,
  distinct_addons ds ->
  quote_free_ids ds ->
  (∀ x k, x ∈ kept -> manifest_key x = Some k -> k ∉ omap manifest_key ds) ->
  (∀ x, x ∈ kept -> settled_in (children (root s)) x) ->
  Forall (λ msg, is_error msg = false)
    (stdout (final (for_each (process_package self) ds) s)) ->
  (∀ x, x ∈ kept ++ ds ->
        settled_in (children (root (final (for_each (process_package self) ds) s))) x)
  ∧ (∀ d, d ∈ ds -> is_Some (node_at d "addon.xml") -> parses d = true).
Proof.
  induction ds as [|d ds IH]; intros kept s [Hwf Hnd] Hq Hdisj Hset Hnoerr.
  - rewrite app_nil_r. split; [done|]. intros d Hd. by apply elem_of_nil in Hd.
  - apply Forall_cons in Hq as [Hqd Hq].
    revert Hnoerr. unfold final. rewrite for_each_cons.
    fold (final (for_each (process_package self) ds)
            (final (process_package self d) s)).
    intros Hnoerr.
    assert (Forall (λ msg, is_error msg = false)
              (stdout (final (process_package self d) s))) as Hnoerr1.
    { eapply stdout_prefix_no_error; [|exact Hnoerr].
      apply (preserves_for_each grows (process_package self) ds
               (process_package_grows self)). }
    cbn [omap list_omap] in Hnd.
    fold (omap manifest_key ds) in Hnd.
    destruct (IH (kept ++ [d]) (final (process_package self d) s)) as [Hall Hp].
    + split; [intros d' m Hd'; apply Hwf; by right|].
      destruct (manifest_key d); [by apply NoDup_cons in Hnd as [_ ?]|done].
    + done.
    + intros x k [Hx|Hx]%elem_of_app Hk.
      * intros Hin. apply (Hdisj x k Hx Hk). cbn [omap list_omap].
        fold (omap manifest_key ds). destruct (manifest_key d); [by right|done].
      * apply list_elem_of_singleton in Hx as ->. rewrite Hk in Hnd.
        by apply NoDup_cons in Hnd as [? _].
    + intros x [Hx|Hx]%elem_of_app.
      * apply process_package_keeps_settled; [done| |by apply Hset].
        intros k k' Hk Hk' <-. apply (Hdisj x k Hx Hk').
        cbn [omap list_omap]. rewrite Hk. by left.
      * apply list_elem_of_singleton in Hx as ->. intros m Hm.
        destruct (Hwf d m) as [Htag Hid]; [by left|done|].
        assert (quote_free (fmt (get m "id")) = true) as Hqm.
        { unfold manifest_quote_free in Hqd. by rewrite Hm in Hqd. }
        by apply (process_package_settles_itself self d m s Hm Hqm Htag Hid).
    + done.
    + split.
      * intros x Hx. apply Hall. rewrite <- app_assoc. exact Hx.
      * intros d' [->|Hd']%elem_of_cons Hfile; [|by apply Hp].
        by eapply process_package_reports_unparsed.
Qed.


Lemma settled_run md5_hexdigest self listing files r :
  force self = false ->
  quote_free_ids (List.filter is_candidate listing) ->
  load_catalog self (initial files) = (inr r, initial files) ->
  NoDup (entry_ids (children r)) ->
  (∀ d, d ∈ List.filter is_candidate listing -> settled_in (children r) d) ->
  (∀ d, d ∈ List.filter is_candidate listing ->
        is_Some (node_at d "addon.xml") -> parses d = true) ->
  (Generator_init md5_hexdigest self listing (initial files)).1 = inr tt
  ∧ fs (Generator_init md5_hexdigest self listing (initial files)).2 = files
  ∧ opened (Generator_init md5_hexdigest self listing (initial files)).2 = []
  ∧ stdout (Generator_init md5_hexdigest self listing (initial files)).2
    = [NoChanges (release_path self)]
  ∧ Forall (λ x, x.2 = Skip)
      (trace (Generator_init md5_hexdigest self listing (initial files)).2).
Proof.
  intros Hforce Hq Hload Hnd Hset Hparse.
  rewrite Generator_init_eq, generate_addons_xml_eq, Hload.
  destruct (settled_loop_only_skips self (List.filter is_candidate listing)
              (loop_start r (initial files)) Hforce Hq)
    as (_ & _ & Hf & Ho & Hc & Hs & t & Ht & Hall); [done|done|done|].
  fold (loop_end self listing r (initial files)) in Hf, Ho, Hc, Hs, Ht.
  rewrite persist_clean by (rewrite Hc; done).
  cbn [fst snd fs opened stdout trace with_stdout].
  rewrite Hf, Ho, Hs, Ht. done.
Qed.

Lemma load_catalog_agree self files files2 r :
  files2 !! addons_xml_path self = files !! addons_xml_path self ->
  load_catalog self (initial files) = (inr r, initial files) ->
  load_catalog self (initial files2) = (inr r, initial files2).
Proof.
  rewrite !load_catalog_eq. cbn [fs initial]. intros ->.
  destruct (files !! addons_xml_path self) as [[r0| |]|]; intros [= <-]; done.
Qed.

(** What a run that returned without reporting an error leaves: a catalog
    file, or none, from which the next run loads a catalog that lists
    every package at its version. *)
Lemma first_run_settles md5_hexdigest self listing files r :
  load_catalog self (initial files) = (inr r, initial files) ->
  distinct_addons (List.filter is_candidate listing) ->
  quote_free_ids (List.filter is_candidate listing) ->
  (Generator_init md5_hexdigest self listing (initial files)).1 = inr tt ->
  Forall (λ msg, is_error msg = false)
    (stdout (Generator_init md5_hexdigest self listing (initial files)).2) ->
  ∃ r',
    load_catalog self
      (initial (fs (Generator_init md5_hexdigest self listing (initial files)).2))
    = (inr r',
       initial (fs (Generator_init md5_hexdigest self listing (initial files)).2))
    ∧ (NoDup (entry_ids (children r)) -> NoDup (entry_ids (children r')))
    ∧ (∀ d, d ∈ List.filter is_candidate listing -> settled_in (children r') d)
    ∧ (∀ d, d ∈ List.filter is_candidate listing ->
            is_Some (node_at d "addon.xml") -> parses d = true).
Proof.
  intros Hload Hdist Hq.
  rewrite Generator_init_eq, generate_addons_xml_eq, Hload.
  pose proof (loop_unique_ids self listing r (initial files) Hq) as Hu.
  pose proof (loop_settles self (List.filter is_candidate listing) []
                (loop_start r (initial files)) Hdist Hq) as Hsettle.
  fold (loop_end self listing r (initial files)) in Hsettle.
  destruct (changed (loop_end self listing r (initial files))) eqn:Hch.
  - unfold persist. rewrite Hch.
    case_bool_decide as Hflt; [done|].
    intros Hret. pose proof (generate_md5_returns _ _ _ Hret) as Hflt'.
    revert Hret.
    erewrite generate_md5_written;
      [|cbn [fs with_stdout write_file with_root]; apply lookup_insert_eq|done].
    cbn [fst snd fs stdout with_stdout write_file with_root].
    intros _ Hnoerr. apply Forall_app in Hnoerr as [Hnoerr _].
    apply Forall_app in Hnoerr as [Hnoerr _].
    destruct Hsettle as [Hall Hp]; [ | |done|].
    { intros x k Hx. by apply elem_of_nil in Hx. }
    { intros x Hx. by apply elem_of_nil in Hx. }
    exists (set_children (root (loop_end self listing r (initial files)))
              (sorted (children (root (loop_end self listing r (initial files)))))).
    split_and!.
    + rewrite load_catalog_eq. cbn [fs initial].
      rewrite lookup_insert_ne by apply md5_path_is_not_catalog.
      by rewrite lookup_insert_eq.
    + intros Hnd. cbn [children set_children]. rewrite entry_ids_sorted.
      by apply Hu.
    + intros d Hd. cbn [children set_children].
      eapply settled_in_Permutation; [symmetry; apply sorted_Permutation|].
      by apply Hall.
    + done.
  - rewrite persist_clean by done.
    cbn [fst snd fs stdout with_stdout].
    intros _ Hnoerr. apply Forall_app in Hnoerr as [Hnoerr _].
    destruct Hsettle as [Hall Hp]; [ | |done|].
    { intros x k Hx. by apply elem_of_nil in Hx. }
    { intros x Hx. by apply elem_of_nil in Hx. }
    assert (Forall (λ x, x.2 = Skip)
              (trace (loop_end self listing r (initial files)))) as Hskips.
    { destruct (loop_dirty_or_excused self listing r (initial files) eq_refl)
        as [Hd|[Hs|He]]; [congruence|done|].
      exfalso. apply Exists_exists in He as (msg & Hin & Herr).
      rewrite Forall_forall in Hnoerr. specialize (Hnoerr msg Hin). congruence. }
    destruct (loop_skips_write_nothing self listing r (initial files))
      as (t & Ht & Hfs).
    cbn [trace loop_start with_found_ids with_changed with_root initial app] in Ht.
    rewrite Ht in Hskips. destruct (Hfs Hskips) as (Hf & _ & _).
    destruct (preserves_for_each_in skips_keep_root self
                (List.filter is_candidate listing)
                (λ d _, process_package_skips_keep_root self d)
                (loop_start r (initial files))) as (t' & Ht' & Hroot).
    fold (loop_end self listing r (initial files)) in Ht', Hroot.
    cbn [trace loop_start with_found_ids with_changed with_root initial app] in Ht'.
    assert (t' = t) as -> by congruence.
    specialize (Hroot Hskips).
    cbn [root loop_start with_found_ids with_changed with_root] in Hroot.
    cbn [fs loop_start with_found_ids with_changed with_root initial] in Hf.
    exists r. rewrite Hf. rewrite Hroot in Hall. done.
Qed.

Lemma returned_run_loaded md5_hexdigest self listing files :
  (Generator_init md5_hexdigest self listing (initial files)).1 = inr tt ->
  ∃ r, load_catalog self (initial files) = (inr r, initial files).
Proof.
  rewrite Generator_init_eq, generate_addons_xml_eq, load_catalog_eq.
  cbn [fs initial].
  destruct (files !! addons_xml_path self) as [[r| |]|]; intros Hret.
  - by exists r.
  - discriminate Hret.
  - discriminate Hret.
  - by exists (Elem "addons" [] None []).
Qed.

Lemma load_catalog_loaded_entries self files r :
  load_catalog self (initial files) = (inr r, initial files) ->
  loaded_entries self files = children r.
Proof.
  rewrite load_catalog_eq. unfold loaded_entries. cbn [fs initial].
  destruct (files !! addons_xml_path self) as [[r0| |]|]; intros [= <-]; done.
Qed.

(** X15. The catalog pass of a second run changes nothing.  Let a first
    pass of [_generate_addons_xml] and [_generate_md5] return without
    reporting an error, over packages that are [addon] manifests with
    pairwise distinct ids without apostrophe, from a catalog that held no
    id twice.  Then a second pass over the same package directories,
    without [force], from any files that hold the catalog file the first
    pass left (whatever became of the other files in between), decides
    [Skip] for every package, opens no file, leaves every file as it is
    and prints only that there are no changes. *)
Theorem second_run_only_skips (md5_hexdigest : FileData -> string)
    (self : Generator) (listing : list ReleaseEntry)
    (files files2 : gmap Path FileData) :
  force self = false ->
  distinct_addons (List.filter is_candidate listing) ->
  quote_free_ids (List.filter is_candidate listing) ->
  NoDup (entry_ids (loaded_entries self files)) ->
  (Generator_init md5_hexdigest self listing (initial files)).1 = inr tt ->
  Forall (λ msg, is_error msg = false)
    (stdout (Generator_init md5_hexdigest self listing (initial files)).2) ->
  files2 !! addons_xml_path self
  = fs (Generator_init md5_hexdigest self listing (initial files)).2
      !! addons_xml_path self ->
  (Generator_init md5_hexdigest self listing (initial files2)).1 = inr tt
  ∧ fs (Generator_init md5_hexdigest self listing (initial files2)).2 = files2
  ∧ opened (Generator_init md5_hexdigest self listing (initial files2)).2 = []
  ∧ stdout (Generator_init md5_hexdigest self listing (initial files2)).2
    = [NoChanges (release_path self)]
  ∧ Forall (λ x, x.2 = Skip)
      (trace (Generator_init md5_hexdigest self listing (initial files2)).2).
Proof.
  intros Hforce Hdist Hq Hnd Hret Hnoerr Hsame.
  destruct (returned_run_loaded _ _ _ _ Hret) as [r Hload].
  rewrite (load_catalog_loaded_entries _ _ _ Hload) in Hnd.
  destruct (first_run_settles md5_hexdigest self listing files r
              Hload Hdist Hq Hret Hnoerr) as (r' & Hload' & Hnd' & Hset & Hparse).
  apply (settled_run md5_hexdigest self listing files2 r' Hforce Hq);
    [|by apply Hnd'|done|done].
  by apply (load_catalog_agree self _ files2 r' Hsame).
Qed.

Lemma second_run_only_skips_witness :
  let self := sample_generator false in
  let listing :=
    [sample_package "foo" (XmlDoc (addon_xml "foo" "1.0")) no_faults] in
  let rs := Generator_init (λ _, "d41d8cd9") self listing (initial ∅) in
  let rs' := Generator_init (λ _, "d41d8cd9") self listing (initial (fs rs.2)) in
  force self = false
  ∧ distinct_addons (List.filter is_candidate listing)
  ∧ quote_free_ids (List.filter is_candidate listing)
  ∧ NoDup (entry_ids (loaded_entries self ∅))
  ∧ rs.1 = inr tt
  ∧ Forall (λ msg, is_error msg = false) (stdout rs.2)
  ∧ fs rs.2 !! addons_xml_path self = fs rs.2 !! addons_xml_path self
  ∧ rs'.1 = inr tt
  ∧ fs rs'.2 = fs rs.2.
Proof.
  cbn zeta.
  assert (distinct_addons
            (List.filter is_candidate
               [sample_package "foo" (XmlDoc (addon_xml "foo" "1.0")) no_faults]))
    as H2.
  { split.
    - intros d m Hd Hm.
      change (d ∈ [sample_package "foo" (XmlDoc (addon_xml "foo" "1.0")) no_faults])
        in Hd.
      apply list_elem_of_singleton in Hd as ->. injection Hm as <-.
      split; [reflexivity|by eexists].
    - apply (NoDup_singleton "foo"). }
  assert (quote_free_ids
            (List.filter is_candidate
               [sample_package "foo" (XmlDoc (addon_xml "foo" "1.0")) no_faults]))
    as Hq by (repeat constructor).
  assert (NoDup (entry_ids (loaded_entries (sample_generator false) ∅))) as H3
    by apply NoDup_nil_2.
  assert ((Generator_init (λ _, "d41d8cd9") (sample_generator false)
             [sample_package "foo" (XmlDoc (addon_xml "foo" "1.0")) no_faults]
             (initial ∅)).1 = inr tt) as H4 by (vm_compute; reflexivity).
  assert (Forall (λ msg, is_error msg = false)
            (stdout (Generator_init (λ _, "d41d8cd9") (sample_generator false)
               [sample_package "foo" (XmlDoc (addon_xml "foo" "1.0")) no_faults]
               (initial ∅)).2)) as H5.
  { apply (bool_decide_unpack _). vm_compute. exact I. }
  pose proof (second_run_only_skips (λ _, "d41d8cd9") (sample_generator false)
                [sample_package "foo" (XmlDoc (addon_xml "foo" "1.0")) no_faults]
                ∅ _ eq_refl H2 Hq H3 H4 H5 eq_refl) as H.
  split_and!; [reflexivity | exact H2 | exact Hq | exact H3 | exact H4 | exact H5
              | reflexivity | exact (proj1 H) | exact (proj1 (proj2 H))].
Defined.

(** X16. After a pass of [_generate_addons_xml] and [_generate_md5] that
    returned without reporting an error, over packages that are [addon]
    manifests with pairwise distinct ids without apostrophe, the catalog
    on disk lists every package directory whose manifest parses: it holds
    an [addon] entry with the id and the version of that manifest. *)
Theorem catalog_lists_every_package (md5_hexdigest : FileData -> string)
    (self : Generator) (listing : list ReleaseEntry)
    (files : gmap Path FileData) (d : ReleaseEntry) (m : Element) :
  distinct_addons (List.filter is_candidate listing) ->
  quote_free_ids (List.filter is_candidate listing) ->
  (Generator_init md5_hexdigest self listing (initial files)).1 = inr tt ->
  Forall (λ msg, is_error msg = false)
    (stdout (Generator_init md5_hexdigest self listing (initial files)).2) ->
  d ∈ listing ->
  is_candidate d = true ->
  manifest d = inr m ->
  ∃ e, e ∈ loaded_entries self
             (fs (Generator_init md5_hexdigest self listing (initial files)).2)
       ∧ tag e = "addon"
       ∧ get e "id" = get m "id"
       ∧ get e "version" = get m "version".
Proof.
  intros Hdist Hq Hret Hnoerr Hd Hcand Hm.
  destruct (returned_run_loaded _ _ _ _ Hret) as [r Hload].
  destruct (first_run_settles md5_hexdigest self listing files r
              Hload Hdist Hq Hret Hnoerr) as (r' & Hload' & _ & Hset & _).
  assert (d ∈ List.filter is_candidate listing) as Hd'.
  { apply list_elem_of_In, filter_In. split; [by apply list_elem_of_In|done]. }
  destruct (Hset d Hd' m Hm) as (e & He & [Htag Hid] & Hv).
  destruct (proj1 Hdist d m Hd' Hm) as [_ [i Hi]].
  exists e. rewrite (load_catalog_loaded_entries _ _ _ Hload').
  split_and!; [done|done| |done].
  rewrite Hid, Hi. done.
Qed.

Lemma catalog_lists_every_package_witness :
  let self := sample_generator false in
  let d := sample_package "foo" (XmlDoc (addon_xml "foo" "1.0")) no_faults in
  let rs := Generator_init (λ _, "d41d8cd9") self [d] (initial ∅) in
  distinct_addons (List.filter is_candidate [d])
  ∧ quote_free_ids (List.filter is_candidate [d])
  ∧ rs.1 = inr tt
  ∧ Forall (λ msg, is_error msg = false) (stdout rs.2)
  ∧ d ∈ [d]
  ∧ is_candidate d = true
  ∧ manifest d = inr (addon_xml "foo" "1.0")
  ∧ ∃ e, e ∈ loaded_entries self (fs rs.2)
         ∧ tag e = "addon"
         ∧ get e "id" = get (addon_xml "foo" "1.0") "id"
         ∧ get e "version" = get (addon_xml "foo" "1.0") "version".
Proof.
  cbn zeta.
  assert (distinct_addons
            (List.filter is_candidate
               [sample_package "foo" (XmlDoc (addon_xml "foo" "1.0")) no_faults]))
    as H1.
  { split.
    - intros d m Hd Hm.
      change (d ∈ [sample_package "foo" (XmlDoc (addon_xml "foo" "1.0")) no_faults])
        in Hd.
      apply list_elem_of_singleton in Hd as ->. injection Hm as <-.
      split; [reflexivity|by eexists].
    - apply (NoDup_singleton "foo"). }
  assert (quote_free_ids
            (List.filter is_candidate
               [sample_package "foo" (XmlDoc (addon_xml "foo" "1.0")) no_faults]))
    as Hq by (repeat constructor).
  assert ((Generator_init (λ _, "d41d8cd9") (sample_generator false)
             [sample_package "foo" (XmlDoc (addon_xml "foo" "1.0")) no_faults]
             (initial ∅)).1 = inr tt) as H2 by (vm_compute; reflexivity).
  assert (Forall (λ msg, is_error msg = false)
            (stdout (Generator_init (λ _, "d41d8cd9") (sample_generator false)
               [sample_package "foo" (XmlDoc (addon_xml "foo" "1.0")) no_faults]
               (initial ∅)).2)) as H3.
  { apply (bool_decide_unpack _). vm_compute. exact I. }
  assert (sample_package "foo" (XmlDoc (addon_xml "foo" "1.0")) no_faults
          ∈ [sample_package "foo" (XmlDoc (addon_xml "foo" "1.0")) no_faults])
    as H4 by apply list_elem_of_here.
  split_and!; [exact H1 | exact Hq | exact H2 | exact H3 | exact H4 | reflexivity
              | reflexivity |].
  exact (catalog_lists_every_package (λ _, "d41d8cd9") (sample_generator false)
           _ ∅ _ (addon_xml "foo" "1.0") H1 Hq H2 H3 H4 eq_refl eq_refl).
Defined.


Lemma clean_step_nothing_to_do (t : gmap Path Node) (msgs : list CleanMsg)
    (p : Path) :
  ¬ in_cache_dir t p -> ¬ compiled_file t p ->
  clean_step (t, msgs) p = (t, msgs).
Proof.
  intros Hcache Hcomp. unfold clean_step. cbn [fst snd].
  destruct (String.eqb (path_name p) "__pycache__") eqn:Hname;
    cbn [andb].
  - apply String.eqb_eq in Hname.
    destruct (is_dir_in t p) eqn:Hdir.
    + exfalso. apply Hcache. exists p. split_and!; [reflexivity|exact Hname|].
      unfold is_dir_in in Hdir.
      destruct (t !! p) as [[data|]|] eqn:Hp;
        [discriminate Hdir|exact Hp|discriminate Hdir].
    + destruct (compiled_suffix (path_suffix p)) eqn:Hsuf; cbn [andb]; [|done].
      destruct (is_file_in t p) eqn:Hfile; [|done].
      by destruct Hcomp.
  - destruct (compiled_suffix (path_suffix p)) eqn:Hsuf; cbn [andb]; [|done].
    destruct (is_file_in t p) eqn:Hfile; [|done].
    by destruct Hcomp.
Qed.

Lemma clean_fold_nothing_to_do (t : gmap Path Node) :
  (∀ p, ¬ in_cache_dir t p) -> (∀ p, ¬ compiled_file t p) ->
  ∀ walk msgs, foldl clean_step (t, msgs) walk = (t, msgs).
Proof.
  intros Hcache Hcomp. induction walk as [|p walk IH]; intros msgs; [done|].
  cbn [foldl]. by rewrite clean_step_nothing_to_do.
Qed.

(** X17. Cleaning is idempotent: once [_clean_binaries] has walked every
    path of a tree, cleaning what it left, along any walk, removes nothing
    and prints nothing. *)
Theorem clean_binaries_is_idempotent (walk walk' : list Path)
    (t : gmap Path Node) :
  (∀ k, is_Some (t !! k) -> k ∈ walk) ->
  _clean_binaries walk' (_clean_binaries walk t).1
  = ((_clean_binaries walk t).1, []).
Proof.
  intros Hcover. unfold _clean_binaries at 1.
  apply clean_fold_nothing_to_do.
  - intros p (q & Hpre & Hname & Hq).
    apply clean_binaries_lookup in Hq as [Hq Hwalk].
    apply (Hwalk q); [apply Hcover; eauto|]. left. done.
  - intros p [Hsuf Hfile]. unfold is_file_in in Hfile.
    destruct ((_clean_binaries walk t).1 !! p) as [[data|]|] eqn:Hp; [|done|done].
    apply clean_binaries_lookup in Hp as [Hp Hwalk].
    apply (Hwalk p); [apply Hcover; eauto|]. right. split; [done|].
    split; [done|]. unfold is_file_in. by rewrite Hp.
Qed.

Lemma clean_binaries_is_idempotent_witness :
  let t : gmap Path Node :=
    list_to_map [ (["omega"; "foo"], Dir);
                  (["omega"; "foo"; "__pycache__"], Dir);
                  (["omega"; "foo"; "__pycache__"; "main.cpython-311.pyc"],
                   File (Text ""));
                  (["omega"; "foo"; "main.py"], File (Text "import xbmc")) ] in
  let walk := [["omega"; "foo"]; ["omega"; "foo"; "__pycache__"];
               ["omega"; "foo"; "__pycache__"; "main.cpython-311.pyc"];
               ["omega"; "foo"; "main.py"]] in
  (∀ k, is_Some (t !! k) -> k ∈ walk)
  ∧ _clean_binaries [["omega"; "foo"]; ["omega"; "foo"; "main.py"]]
      (_clean_binaries walk t).1
    = ((_clean_binaries walk t).1, []).
Proof.
  cbn zeta.
  assert (∀ k, is_Some ((list_to_map
                           [ (["omega"; "foo"], Dir);
                             (["omega"; "foo"; "__pycache__"], Dir);
                             (["omega"; "foo"; "__pycache__"; "main.cpython-311.pyc"],
                              File (Text ""));
                             (["omega"; "foo"; "main.py"], File (Text "import xbmc")) ]
                         : gmap Path Node) !! k) ->
               k ∈ [["omega"; "foo"]; ["omega"; "foo"; "__pycache__"];
                    ["omega"; "foo"; "__pycache__"; "main.cpython-311.pyc"];
                    ["omega"; "foo"; "main.py"]]) as Hcover.
  { intros k [n Hk]. apply elem_of_list_to_map_2 in Hk.
    apply (list_elem_of_fmap_2 fst) in Hk. exact Hk. }
  split; [exact Hcover|].
  exact (clean_binaries_is_idempotent _ _ _ Hcover).
Defined.


(** ** Cleaning and the catalog pass *)

Lemma path_name_two (rel : Path) (a b : string) :
  path_name (rel ++ [a; b]) = b.
Proof.
  unfold path_name. change [a; b] with ([a] ++ [b]).
  by rewrite app_assoc, last_snoc.
Qed.

Lemma below_release_prefix (rel q : Path) (a b : string) :
  (∃ q', q' ≠ [] ∧ q = rel ++ q') ->
  q `prefix_of` rel ++ [a; b] ->
  path_name q = a ∨ q = rel ++ [a; b].
Proof.
  intros (q' & Hne & ->) [rest Hrest].
  rewrite <- app_assoc in Hrest. apply app_inv_head in Hrest.
  destruct q' as [|x [|y [|z q']]]; [done| | |].
  - injection Hrest as <- _. left. unfold path_name. by rewrite last_snoc.
  - injection Hrest as <- <- _. by right.
  - discriminate Hrest.
Qed.

Lemma clean_binaries_keeps_output (walk : list Path) (t : gmap Path Node)
    (rel : Path) (name : string) :
  (∀ q, q ∈ walk -> ∃ q', q' ≠ [] ∧ q = rel ++ q') ->
  compiled_suffix (path_suffix (rel ++ ["zips"; name])) = false ->
  name ≠ "__pycache__" ->
  (_clean_binaries walk t).1 !! (rel ++ ["zips"; name]) = t !! (rel ++ ["zips"; name]).
Proof.
  intros Hwalk Hsuf Hname. apply option_eq. intros n.
  rewrite clean_binaries_lookup. split; [by intros [? _]|].
  intros Hk. split; [done|].
  intros q Hq [(Hcache & _ & Hpre) | [-> [Hc _]]].
  - destruct (below_release_prefix rel q "zips" name (Hwalk q Hq) Hpre)
      as [Hn | ->].
    + rewrite Hn in Hcache. discriminate Hcache.
    + rewrite path_name_two in Hcache. by apply Hname.
  - by rewrite Hsuf in Hc.
Qed.

(** X18. Cleaning never touches the catalog or its checksum: whatever
    lies below the release directory, and whatever paths below it the walk
    visits, after [_clean_binaries] the catalog file and the checksum file
    are there, or absent, exactly as before. *)
Theorem cleaning_keeps_catalog_and_checksum (self : Generator)
    (walk : list Path) (t : gmap Path Node) :
  (∀ q, q ∈ walk -> ∃ q', q' ≠ [] ∧ q = release_path self ++ q') ->
  (_clean_binaries walk t).1 !! addons_xml_path self = t !! addons_xml_path self
  ∧ (_clean_binaries walk t).1 !! md5_path self = t !! md5_path self.
Proof.
  intros Hwalk.
  assert (addons_xml_path self = release_path self ++ ["zips"; "addons.xml"])
    as -> by (unfold addons_xml_path, zips_path, pdiv; cbn; by rewrite <- app_assoc).
  assert (md5_path self = release_path self ++ ["zips"; "addons.xml.md5"])
    as -> by (unfold md5_path, zips_path, pdiv; cbn; by rewrite <- app_assoc).
  split; apply clean_binaries_keeps_output; try done.
  - unfold path_suffix. by rewrite path_name_two.
  - unfold path_suffix. by rewrite path_name_two.
Qed.

Lemma cleaning_keeps_catalog_and_checksum_witness :
  let self := sample_generator false in
  let t : gmap Path Node :=
    list_to_map [ (["omega"; "zips"], Dir);
                  (["omega"; "zips"; "addons.xml"],
                   File (XmlDoc (Elem "addons" [] None [])));
                  (["omega"; "zips"; "__pycache__"], Dir);
                  (["omega"; "zips"; "__pycache__"; "x.pyc"], File (Text "")) ] in
  let walk := [["omega"; "zips"]; ["omega"; "zips"; "addons.xml"];
               ["omega"; "zips"; "__pycache__"];
               ["omega"; "zips"; "__pycache__"; "x.pyc"]] in
  (∀ q, q ∈ walk -> ∃ q', q' ≠ [] ∧ q = release_path self ++ q')
  ∧ (_clean_binaries walk t).1 !! addons_xml_path self = t !! addons_xml_path self.
Proof.
  cbn zeta.
  assert (∀ q, q ∈ [["omega"; "zips"]; ["omega"; "zips"; "addons.xml"];
                    ["omega"; "zips"; "__pycache__"];
                    ["omega"; "zips"; "__pycache__"; "x.pyc"]] ->
               ∃ q', q' ≠ [] ∧ q = release_path (sample_generator false) ++ q')
    as Hwalk.
  { intros q Hq. repeat (apply elem_of_cons in Hq as [->|Hq]);
      [by eexists (_ :: _).. | by apply elem_of_nil in Hq]. }
  split; [exact Hwalk|].
  exact (proj1 (cleaning_keeps_catalog_and_checksum (sample_generator false) _ _ Hwalk)).
Defined.
